(** * Enterprise Knowledge DMS: ingestion and retrieval engine

    A shallow embedding of [backend/server.py]: text extraction, chunking,
    keyword extraction, Jaccard similarity, the upload / delete / search /
    chat handlers over the MongoDB collections, and the properties the
    specification states about them.

    Conventions.
    - A Python [str] is the list of its Unicode code points ([list N]);
      [bytes] is [list byte].
    - A Python [int] is a [Z]; a [float] similarity score is the exact
      rational ([Q]) of which the float is the correctly rounded value.
    - A MongoDB collection is the list of its records in natural
      (insertion) order. *)

From Stdlib Require Import ZArith NArith QArith List Ascii String Lia Bool.
From Stdlib Require Import Strings.Byte.
From Stdlib Require Import Sorting.Permutation Sorting.Sorted.
From stdpp Require Import base decidable countable gmap.
Import ListNotations.

Close Scope Q_scope.
Local Open Scope Z_scope.

(** ** Python strings *)

Abbreviation str := (list N).

(** A string literal of the source (ASCII only). *)
Definition lit (s : string) : str :=
  List.map N_of_ascii (list_ascii_of_string s).

Definition len {A} (l : list A) : Z := Z.of_nat (List.length l).

(** [bool(s)] for a sequence: non-empty. *)
Definition truthy {A} (l : list A) : bool :=
  match l with [] => false | _ => true end.

Definition str_eqb (a b : str) : bool := bool_decide (a = b).

(** [s[a:b]] with Python's index normalisation: a negative index counts
    from the end, every index is clamped into [0, len s]. *)
Definition slice_index (n i : Z) : Z :=
  if i <? 0 then Z.max (i + n) 0 else Z.min i n.

Definition py_slice {A} (s : list A) (a b : Z) : list A :=
  let a' := slice_index (len s) a in
  let b' := slice_index (len s) b in
  firstn (Z.to_nat (b' - a')) (skipn (Z.to_nat a') s).

(** [s[:b]]. *)
Definition py_prefix {A} (s : list A) (b : Z) : list A := py_slice s 0 b.

(** [str.isspace] on one code point (CPython's [Py_UNICODE_ISSPACE]). *)
Definition is_space (c : N) : bool :=
  ((9 <=? c) && (c <=? 13) || (28 <=? c) && (c <=? 32)
   || (c =? 133) || (c =? 160) || (c =? 5760)
   || (8192 <=? c) && (c <=? 8202)
   || (c =? 8232) || (c =? 8233) || (c =? 8239) || (c =? 8287)
   || (c =? 12288))%N.

Fixpoint lstrip (s : str) : str :=
  match s with
  | c :: r => if is_space c then lstrip r else s
  | [] => []
  end.

Definition rstrip (s : str) : str := rev (lstrip (rev s)).

(** [s.strip()]. *)
Definition strip (s : str) : str := rstrip (lstrip s).

(** [s.endswith(suffix)]. *)
Definition endswith (s suffix : str) : bool :=
  str_eqb (skipn (List.length s - List.length suffix) s) suffix
  && (List.length suffix <=? List.length s)%nat.

(** ** Chunker: [chunk_text] *)

(** The [while start < len(text)] loop; [fuel] bounds the number of
    evaluations of the loop condition, [None] is "still running". *)
Fixpoint chunk_loop (fuel : nat) (text : str) (chunk_size overlap : Z)
    (start : Z) (chunks : list str) : option (list str) :=
  match fuel with
  | O => None
  | S fuel' =>
      if start <? len text then
        let end_ := start + chunk_size in
        let chunk := py_slice text start end_ in
        let chunks' :=
          if truthy (strip chunk) then chunks ++ [strip chunk] else chunks in
        chunk_loop fuel' text chunk_size overlap (end_ - overlap) chunks'
      else Some chunks
  end.

Definition chunk_text_fuel (fuel : nat) (text : str) (chunk_size overlap : Z)
  : option (list str) :=
  if negb (truthy text) then Some []
  else chunk_loop fuel text chunk_size overlap 0 [].

(** The loop condition is evaluated at most [length text + 1] times when
    [overlap < chunk_size] (theorem [chunk_text_terminates]). *)
Definition chunk_text_with (text : str) (chunk_size overlap : Z)
  : option (list str) :=
  chunk_text_fuel (S (List.length text)) text chunk_size overlap.

(** The window the loop reads at offset [start], and what it appends. *)
Definition window (text : str) (chunk_size start : Z) : str :=
  py_slice text start (start + chunk_size).

Definition window_chunk (text : str) (chunk_size start : Z) : list str :=
  if truthy (strip (window text chunk_size start))
  then [strip (window text chunk_size start)] else [].

(** Offsets [0, step, 2*step, ...] below [len text], [step = size - overlap]. *)
Definition window_count (text : str) (chunk_size overlap : Z) : nat :=
  Z.to_nat ((len text + (chunk_size - overlap) - 1) / (chunk_size - overlap)).

Definition window_starts (text : str) (chunk_size overlap : Z) : list Z :=
  List.map (fun k => Z.of_nat k * (chunk_size - overlap))
    (seq 0 (window_count text chunk_size overlap)).

(** ** Keyword extraction: [get_text_keywords] *)

(** The Unicode character database, for the code points outside ASCII:
    the source uses it through [str.lower] and through the regular
    expression classes [\b] / [\w].  The ASCII rows are written out below;
    the rest of the table is a parameter of the development. *)
Class UnicodeData := {
  (** lower-casing of the non-ASCII code point [c]; [before] holds the code
      points to its left (nearest first), [after] those to its right (the
      mapping of the final sigma looks at both) *)
  uni_lower : forall (before : str) (c : N) (after : str), str;
  (** [str.isalnum] of a non-ASCII code point *)
  uni_isalnum : N -> bool
}.

(** The table that maps no code point outside ASCII: enough to run the
    program on ASCII inputs, where the table is never consulted. *)
Definition ascii_only : UnicodeData :=
  {| uni_lower := fun _ c _ => [c]; uni_isalnum := fun _ => false |}.

Definition is_ascii_upper (c : N) : bool := ((65 <=? c) && (c <=? 90))%N.
Definition is_ascii_lower (c : N) : bool := ((97 <=? c) && (c <=? 122))%N.
Definition is_ascii_digit (c : N) : bool := ((48 <=? c) && (c <=? 57))%N.

(** The class [[a-zA-Z]]. *)
Definition is_ascii_letter (c : N) : bool := is_ascii_upper c || is_ascii_lower c.

(** [str.lower] on an ASCII code point. *)
Definition ascii_lower (c : N) : N := if is_ascii_upper c then (c + 32)%N else c.

Section Keywords.
Context {U : UnicodeData}.

Definition lower_char (before : str) (c : N) (after : str) : str :=
  if (c <? 128)%N then [ascii_lower c] else uni_lower before c after.

Fixpoint lower_from (before : str) (s : str) : str :=
  match s with
  | [] => []
  | c :: r => lower_char before c r ++ lower_from (c :: before) r
  end.

(** [s.lower()]. *)
Definition str_lower (s : str) : str := lower_from [] s.

(** The class [\w] of a [str] pattern: alphanumeric or underscore. *)
Definition is_word (c : N) : bool :=
  if (c <? 128)%N then is_ascii_letter c || is_ascii_digit c || (c =? 95)%N
  else uni_isalnum c.

Definition is_word_opt (c : option N) : bool :=
  match c with Some c => is_word c | None => false end.

(** [\b] between the characters [prev] and [next] ([None]: no character,
    the position is an end of the string). *)
Definition word_boundary (prev next : option N) : bool :=
  xorb (is_word_opt prev) (is_word_opt next).

(** [[a-zA-Z]{3,}\b] tried at the head of [s], after [n] letters were
    consumed ([prev] is the character before [s]): greedy, one more letter
    first, and stopping here only when that fails.  Returns the rest of the
    match and the remaining input. *)
Fixpoint match_letters (n : nat) (prev : option N) (s : str) : option (str * str) :=
  let stop := if (3 <=? n)%nat && word_boundary prev (List.head s)
              then Some ([], s) else None in
  match s with
  | c :: r =>
      if is_ascii_letter c then
        match match_letters (S n) (Some c) r with
        | Some (m, rest) => Some (c :: m, rest)
        | None => stop
        end
      else stop
  | [] => stop
  end.

(** [re.findall(r'\b[a-zA-Z]{3,}\b', s)]: leftmost matches, scanning
    resumes at the end of a match ([skip] counts the characters of the last
    match that are still to be passed over). *)
Fixpoint findall_words (skip : nat) (prev : option N) (s : str) : list str :=
  match s with
  | [] => []
  | c :: r =>
      match skip with
      | S k => findall_words k (Some c) r
      | O =>
          if word_boundary prev (Some c) then
            match match_letters 0 prev s with
            | Some (m, _) => m :: findall_words (List.length m - 1) (Some c) r
            | None => findall_words 0 (Some c) r
            end
          else findall_words 0 (Some c) r
      end
  end.

Definition stop_words : list str :=
  List.map lit
    ["the"; "and"; "for"; "are"; "but"; "not"; "you"; "all"; "can"; "had";
     "her"; "was"; "one"; "our"; "out"; "has"; "have"; "been"; "from";
     "they"; "were"; "been"; "have"; "many"; "some"; "them"; "this"; "that";
     "with"; "will"; "would"; "there"; "their"; "what"; "which"; "when";
     "where"; "while"; "into"; "more"; "other"; "could"; "should"]%string.

Definition is_stop_word (w : str) : bool := existsb (str_eqb w) stop_words.

Definition get_text_keywords (text : str) : list str :=
  let words := findall_words 0 None (str_lower text) in
  List.filter (fun w => negb (is_stop_word w)) words.

(** ** Similarity: [calculate_text_similarity] *)

(** [a / b] for two lengths, [b] positive. *)
Definition ratio (a b : nat) : Q := Qmake (Z.of_nat a) (Pos.of_nat b).

Definition calculate_text_similarity (text1 text2 : str) : Q :=
  let words1 : gset str := list_to_set (get_text_keywords text1) in
  let words2 : gset str := list_to_set (get_text_keywords text2) in
  if (size words1 =? 0)%nat || (size words2 =? 0)%nat then 0%Q
  else
    let intersection := words1 ∩ words2 in
    let union := words1 ∪ words2 in
    if negb (size union =? 0)%nat then ratio (size intersection) (size union)
    else 0%Q.

End Keywords.

(** ** Extractor: [extract_text_from_file] *)

(** [bytes.decode('utf-8', errors=...)]: well-formed sequences (Unicode
    table 3-7: no overlong forms, no surrogates, nothing above U+10FFFF)
    decode to their code point; at an ill-formed sequence the error handler
    contributes [on_error] and decoding resumes after its maximal
    well-formed prefix (one byte when there is none).  [errors='ignore'] is
    [on_error = []], [errors='replace'] is [on_error = [U+FFFD]]. *)
Definition in_range (lo hi b : N) : bool := ((lo <=? b) && (b <=? hi))%N.
Definition is_cont (b : N) : bool := in_range 128 191 b.

(** Allowed range of the second byte after the lead byte [b0]. *)
Definition second_ok (b0 b1 : N) : bool :=
  (if b0 =? 224 then in_range 160 191 b1
   else if b0 =? 237 then in_range 128 159 b1
   else if b0 =? 240 then in_range 144 191 b1
   else if b0 =? 244 then in_range 128 143 b1
   else is_cont b1)%N.

Fixpoint utf8_decode (on_error : str) (bs : list byte) : str :=
  match bs with
  | [] => []
  | x0 :: r1 =>
      let b0 := Byte.to_N x0 in
      if (b0 <? 128)%N then b0 :: utf8_decode on_error r1
      else if in_range 194 223 b0 then
        match r1 with
        | x1 :: r2 =>
            let b1 := Byte.to_N x1 in
            if is_cont b1
            then ((b0 - 192) * 64 + (b1 - 128))%N :: utf8_decode on_error r2
            else on_error ++ utf8_decode on_error r1
        | [] => on_error
        end
      else if in_range 224 239 b0 then
        match r1 with
        | x1 :: r2 =>
            let b1 := Byte.to_N x1 in
            if second_ok b0 b1 then
              match r2 with
              | x2 :: r3 =>
                  let b2 := Byte.to_N x2 in
                  if is_cont b2
                  then ((b0 - 224) * 4096 + (b1 - 128) * 64 + (b2 - 128))%N
                         :: utf8_decode on_error r3
                  else on_error ++ utf8_decode on_error r2
              | [] => on_error
              end
            else on_error ++ utf8_decode on_error r1
        | [] => on_error
        end
      else if in_range 240 244 b0 then
        match r1 with
        | x1 :: r2 =>
            let b1 := Byte.to_N x1 in
            if second_ok b0 b1 then
              match r2 with
              | x2 :: r3 =>
                  let b2 := Byte.to_N x2 in
                  if is_cont b2 then
                    match r3 with
                    | x3 :: r4 =>
                        let b3 := Byte.to_N x3 in
                        if is_cont b3
                        then ((b0 - 240) * 262144 + (b1 - 128) * 4096
                              + (b2 - 128) * 64 + (b3 - 128))%N
                               :: utf8_decode on_error r4
                        else on_error ++ utf8_decode on_error r3
                    | [] => on_error
                    end
                  else on_error ++ utf8_decode on_error r2
              | [] => on_error
              end
            else on_error ++ utf8_decode on_error r1
        | [] => on_error
        end
      else on_error ++ utf8_decode on_error r1
  end.

(** [file_content.decode('utf-8', errors='ignore')]. *)
Definition decode_ignore (bs : list byte) : str := utf8_decode [] bs.

(** The document parsers ([PyPDF2], [python-docx], [openpyxl],
    [python-pptx]): what the source reads from each, [None] when the
    library raises. *)
Class Parsers := {
  (** [page.extract_text()] of every page of [PdfReader(...)] *)
  pdf_pages : list byte -> option (list str);
  (** [para.text] of every paragraph of [Document(...)] *)
  docx_paragraphs : list byte -> option (list str);
  (** per sheet, per row, [str(cell)] of every cell ([None]: empty cell) *)
  xlsx_sheets : list byte -> option (list (list (list (option str))));
  (** per slide, [shape.text] of every shape ([None]: no [text] attribute) *)
  pptx_slides : list byte -> option (list (list (option str)))
}.

Definition newline : str := [10%N].

(** [sep.join(parts)]. *)
Fixpoint join (sep : str) (parts : list str) : str :=
  match parts with
  | [] => []
  | [p] => p
  | p :: rest => p ++ sep ++ join sep rest
  end.

Definition mime_pdf : str := lit "application/pdf".
Definition mime_docx : str :=
  lit "application/vnd.openxmlformats-officedocument.wordprocessingml.document".
Definition mime_xlsx : str :=
  lit "application/vnd.openxmlformats-officedocument.spreadsheetml.sheet".
Definition mime_pptx : str :=
  lit "application/vnd.openxmlformats-officedocument.presentationml.presentation".
Definition mime_text : str := lit "text/plain".

Section Extractor.
Context {P : Parsers}.

Definition pdf_text (pages : list str) : str :=
  List.concat (List.map (fun page_text =>
    if truthy page_text then page_text ++ newline else []) pages).

Definition docx_text (paras : list str) : str :=
  List.concat (List.map (fun para => para ++ newline) paras).

Definition xlsx_row_text (row : list (option str)) : str :=
  join (lit " ") (List.concat (List.map (fun cell =>
    match cell with Some s => [s] | None => [] end) row)).

Definition xlsx_text (sheets : list (list (list (option str)))) : str :=
  List.concat (List.map (fun row =>
    let row_text := xlsx_row_text row in
    if truthy (strip row_text) then row_text ++ newline else [])
    (List.concat sheets)).

Definition pptx_text (slides : list (list (option str))) : str :=
  List.concat (List.map (fun shape =>
    match shape with Some t => t ++ newline | None => [] end)
    (List.concat slides)).

(** The body of the [try]: [None] when it raises. *)
Definition extract_raw (file_content : list byte) (content_type filename : str)
  : option str :=
  if str_eqb content_type mime_pdf || endswith filename (lit ".pdf") then
    option_map pdf_text (pdf_pages file_content)
  else if str_eqb content_type mime_docx || endswith filename (lit ".docx") then
    option_map docx_text (docx_paragraphs file_content)
  else if str_eqb content_type mime_xlsx || endswith filename (lit ".xlsx") then
    option_map xlsx_text (xlsx_sheets file_content)
  else if str_eqb content_type mime_pptx || endswith filename (lit ".pptx") then
    option_map pptx_text (pptx_slides file_content)
  else if str_eqb content_type mime_text || endswith filename (lit ".txt") then
    Some (decode_ignore file_content)
  else
    Some (decode_ignore file_content).

Definition extract_text_from_file (file_content : list byte)
    (content_type filename : str) : str :=
  let text := match extract_raw file_content content_type filename with
              | Some text => text
              | None => []       (* except Exception: text = "" *)
              end in
  strip text.

End Extractor.

(** ** The document store *)

Record User := {
  u_id : str; u_email : str; u_name : str; u_role : str
}.

(** [UploadFile]: name, declared content type and the bytes [read()] returns. *)
Record UploadFile := {
  file_filename : str; file_content_type : str; file_content : list byte
}.

(** The values of the [status] field. *)
Inductive Status := pending | processing | indexed | failed.

Record Document := {
  d_id : str;
  d_filename : str;
  d_content_type : str;
  d_size : Z;
  d_status : Status;
  d_uploaded_by : str;
  d_uploaded_by_email : str;
  d_uploaded_at : str;
  d_chunk_count : Z;
  d_content : list byte
}.

Record Chunk := {
  c_id : str;
  c_document_id : str;
  c_chunk_index : Z;
  c_text : str;
  c_keywords : list str;
  c_created_at : str
}.

Record QueryLog := {
  q_id : str; q_user_id : str; q_query : str; q_type : option str;
  q_timestamp : str
}.

Record AuditLog := {
  a_id : str; a_user_id : str; a_user_email : str; a_action : str;
  a_resource : str; a_details : str; a_timestamp : str
}.

Record ChatEntry := {
  h_id : str; h_session_id : str; h_user_id : str; h_role : str;
  h_content : str; h_timestamp : str
}.

(** The collections of [db]. *)
Record Db := {
  documents : list Document;
  document_chunks : list Chunk;
  search_queries : list QueryLog;
  audit_logs : list AuditLog;
  chat_history : list ChatEntry
}.

(** The state a handler runs in: the database and how many database calls,
    [uuid.uuid4()] draws and clock readings have happened so far. *)
Record World := {
  db : Db; db_calls : nat; uuid_calls : nat; clock_calls : nat
}.

(** What the handlers do not decide: whether the n-th database call raises
    (and with what message), the n-th uuid, the n-th clock reading. *)
Record Env := {
  db_error : nat -> option str;
  uuid4 : nat -> str;
  utcnow : nat -> str
}.

Inductive Exn :=
| HTTPException (status_code : Z) (detail : str)
| DriverError (message : str).

(** [str(e)]. *)
Definition exn_str (e : Exn) : str :=
  match e with
  | HTTPException code detail => detail
  | DriverError m => m
  end.

Inductive Result (A : Type) :=
| Return (a : A)
| Raise (e : Exn).
Arguments Return {A} a.
Arguments Raise {A} e.

(** Handlers: state passing with exceptions. *)
Definition M (A : Type) : Type := World -> Result A * World.

Definition ret {A} (a : A) : M A := fun w => (Return a, w).

Definition raise {A} (e : Exn) : M A := fun w => (Raise e, w).

Definition bind {A B} (m : M A) (k : A -> M B) : M B :=
  fun w => match m w with
           | (Return a, w') => k a w'
           | (Raise e, w') => (Raise e, w')
           end.

(** [try: body  except Exception as e: handler(e)]. *)
Definition try_except {A} (body : M A) (handler : Exn -> M A) : M A :=
  fun w => match body w with
           | (Return a, w') => (Return a, w')
           | (Raise e, w') => handler e w'
           end.

Notation "'let*' x ':=' m 'in' k" := (bind m (fun x => k))
  (at level 10, x name, m at level 100, k at level 200).

Definition set_db (w : World) (d : Db) : World :=
  {| db := d; db_calls := db_calls w; uuid_calls := uuid_calls w;
     clock_calls := clock_calls w |}.

Definition tick_db (w : World) : World :=
  {| db := db w; db_calls := S (db_calls w); uuid_calls := uuid_calls w;
     clock_calls := clock_calls w |}.

(** One awaited database call: it raises when the environment says so
    (nothing is written then), else it runs [f] on the collections. *)
Definition db_call (env : Env) {A} (f : Db -> A * Db) : M A :=
  fun w =>
    match db_error env (db_calls w) with
    | Some msg => (Raise (DriverError msg), tick_db w)
    | None => let (a, d) := f (db w) in (Return a, set_db (tick_db w) d)
    end.

(** [str(uuid.uuid4())]. *)
Definition new_uuid (env : Env) : M str :=
  fun w => (Return (uuid4 env (uuid_calls w)),
            {| db := db w; db_calls := db_calls w;
               uuid_calls := S (uuid_calls w); clock_calls := clock_calls w |}).

(** [datetime.now(timezone.utc).isoformat()]. *)
Definition now_iso (env : Env) : M str :=
  fun w => (Return (utcnow env (clock_calls w)),
            {| db := db w; db_calls := db_calls w;
               uuid_calls := uuid_calls w; clock_calls := S (clock_calls w) |}).

(** *** Collection operations *)

Definition with_documents (d : Db) (l : list Document) : Db :=
  {| documents := l; document_chunks := document_chunks d;
     search_queries := search_queries d; audit_logs := audit_logs d;
     chat_history := chat_history d |}.

Definition with_chunks (d : Db) (l : list Chunk) : Db :=
  {| documents := documents d; document_chunks := l;
     search_queries := search_queries d; audit_logs := audit_logs d;
     chat_history := chat_history d |}.

Definition with_queries (d : Db) (l : list QueryLog) : Db :=
  {| documents := documents d; document_chunks := document_chunks d;
     search_queries := l; audit_logs := audit_logs d;
     chat_history := chat_history d |}.

Definition with_audit (d : Db) (l : list AuditLog) : Db :=
  {| documents := documents d; document_chunks := document_chunks d;
     search_queries := search_queries d; audit_logs := l;
     chat_history := chat_history d |}.

Definition with_history (d : Db) (l : list ChatEntry) : Db :=
  {| documents := documents d; document_chunks := document_chunks d;
     search_queries := search_queries d; audit_logs := audit_logs d;
     chat_history := l |}.

Definition has_id (id : str) (doc : Document) : bool := str_eqb (d_id doc) id.

(** [find_one({"id": id})]: the first match. *)
Definition find_document (id : str) (docs : list Document) : option Document :=
  List.find (has_id id) docs.

(** [delete_one({"id": id})]: removes the first match. *)
Fixpoint delete_one (id : str) (docs : list Document) : list Document :=
  match docs with
  | [] => []
  | doc :: rest => if has_id id doc then rest else doc :: delete_one id rest
  end.

(** [update_one({"id": id}, {"$set": ...})]: updates the first match. *)
Fixpoint update_one (id : str) (f : Document -> Document) (docs : list Document)
  : list Document :=
  match docs with
  | [] => []
  | doc :: rest =>
      if has_id id doc then f doc :: rest else doc :: update_one id f rest
  end.

(** [delete_many({"document_id": id})]. *)
Definition delete_chunks_of (id : str) (chunks : list Chunk) : list Chunk :=
  List.filter (fun c => negb (str_eqb (c_document_id c) id)) chunks.

Definition set_status (s : Status) (doc : Document) : Document :=
  {| d_id := d_id doc; d_filename := d_filename doc;
     d_content_type := d_content_type doc; d_size := d_size doc;
     d_status := s; d_uploaded_by := d_uploaded_by doc;
     d_uploaded_by_email := d_uploaded_by_email doc;
     d_uploaded_at := d_uploaded_at doc; d_chunk_count := d_chunk_count doc;
     d_content := d_content doc |}.

Definition set_status_and_count (s : Status) (n : Z) (doc : Document) : Document :=
  {| d_id := d_id doc; d_filename := d_filename doc;
     d_content_type := d_content_type doc; d_size := d_size doc;
     d_status := s; d_uploaded_by := d_uploaded_by doc;
     d_uploaded_by_email := d_uploaded_by_email doc;
     d_uploaded_at := d_uploaded_at doc; d_chunk_count := n;
     d_content := d_content doc |}.

(** [list.sort] is stable; so is this insertion sort.  [before y x] says
    that [y] must come strictly before [x]; an element is inserted in
    front of the first one that need not precede it. *)
Fixpoint insert_sorted {A} (before : A -> A -> bool) (x : A) (l : list A) : list A :=
  match l with
  | [] => [x]
  | y :: r => if before y x then y :: insert_sorted before x r else x :: y :: r
  end.

Definition stable_sort {A} (before : A -> A -> bool) (l : list A) : list A :=
  List.fold_right (insert_sorted before) [] l.

Definition Qgtb (a b : Q) : bool := negb (Qle_bool a b).

(** Lexicographic [<] on strings (code point order). *)
Fixpoint str_ltb (a b : str) : bool :=
  match a, b with
  | _, [] => false
  | [], _ :: _ => true
  | x :: a', y :: b' => (x <? y)%N || ((x =? y)%N && str_ltb a' b')
  end.

(** ** Request and response models *)

Record DocumentResponse := {
  resp_id : str; resp_filename : str; resp_content_type : str;
  resp_size : Z; resp_status : Status; resp_uploaded_by : str;
  resp_uploaded_at : str; resp_chunk_count : Z
}.

Record SearchQuery := { sq_query : str; sq_limit : Z }.

Record SearchResult := {
  sr_document_id : str; sr_filename : str; sr_chunk_text : str; sr_score : Q
}.

Record ChatMessage := { cm_message : str; cm_session_id : option str }.

Record Source := {
  src_document_id : str; src_filename : str; src_relevance : Q
}.

Record ChatResponse := {
  cr_response : str; cr_session_id : str; cr_sources : list Source
}.

(** A chunk paired with its score for one query (the dictionaries the
    handlers build while ranking). *)
Record Scored := { s_document_id : str; s_text : str; s_score : Q }.

(** What the chat handler gets from outside: the language-model call
    ([inr]: it raised, with the message) and [round(x, 3)] on floats. *)
Class Runtime := {
  llm_send_message : forall (system_message session_id text : str), str + str;
  round3 : Q -> Q
}.

(** ** The handlers *)

Definition allowed_types : list str :=
  [mime_pdf; mime_docx; mime_xlsx; mime_pptx; mime_text].

Definition allowed_extensions : list str :=
  List.map lit [".pdf"; ".docx"; ".xlsx"; ".pptx"; ".txt"]%string.

Definition dot : N := 46%N.

(** [s.split('.')[-1]]: what follows the last dot. *)
Fixpoint after_last_dot_rev (r : str) : str :=
  match r with
  | [] => []
  | c :: r' => if (c =? dot)%N then [] else c :: after_last_dot_rev r'
  end.

Definition after_last_dot (s : str) : str := rev (after_last_dot_rev (rev s)).

Definition str_in (s : str) (l : list str) : bool := existsb (str_eqb s) l.

(** [results.sort(key=lambda x: x["score"], reverse=True)]. *)
Definition sort_by_score (l : list Scored) : list Scored :=
  stable_sort (fun y x => Qgtb (s_score y) (s_score x)) l.

(** [.sort("timestamp", 1)]. *)
Definition sort_by_timestamp (l : list ChatEntry) : list ChatEntry :=
  stable_sort (fun y x => str_ltb (h_timestamp y) (h_timestamp x)) l.

(** [cursor.to_list(n)]: at most the first [n] records. *)
Definition to_list {A} (n : Z) (l : list A) : list A := firstn (Z.to_nat n) l.

Definition no_documents_marker : str :=
  lit "No relevant documents found in the knowledge base.".

Definition system_message_of (context : str) : str :=
  lit "You are an intelligent knowledge assistant for an enterprise document management system. "
  ++ newline
  ++ lit "Your task is to answer questions based on the provided document context. "
  ++ newline
  ++ lit "If the answer is not found in the context, say so clearly."
  ++ newline
  ++ lit "Always cite which document the information comes from when possible."
  ++ newline ++ newline
  ++ lit "Context from documents:" ++ newline ++ context.

Section Handlers.
Context {U : UnicodeData} {P : Parsers} {R : Runtime}.
Variable env : Env.

(** [chunk_text(text)] with the default [chunk_size=1000, overlap=200]; the
    loop always finishes for these (lemma [chunk_text_default]). *)
Definition chunk_text (text : str) : list str :=
  match chunk_text_with text 1000 200 with
  | Some chunks => chunks
  | None => []
  end.

Definition log_audit (user_id user_email action resource details : str) : M unit :=
  let* id := new_uuid env in
  let* timestamp := now_iso env in
  db_call env (fun d =>
    (tt, with_audit d (audit_logs d ++
      [{| a_id := id; a_user_id := user_id; a_user_email := user_email;
          a_action := action; a_resource := resource; a_details := details;
          a_timestamp := timestamp |}]))).

(** *** [upload_document] *)

Definition file_ext (filename : str) : str :=
  if existsb (N.eqb dot) filename
  then lit "." ++ str_lower (after_last_dot filename)
  else [].

(** The [document] dictionary inserted before processing. *)
Definition new_document (doc_id : str) (file : UploadFile) (user : User)
    (uploaded_at : str) : Document :=
  {| d_id := doc_id;
     d_filename := file_filename file;
     d_content_type := file_content_type file;
     d_size := len (file_content file);
     d_status := processing;
     d_uploaded_by := u_id user;
     d_uploaded_by_email := u_email user;
     d_uploaded_at := uploaded_at;
     d_chunk_count := 0;
     d_content := file_content file |}.

(** [for i, chunk in enumerate(chunks): ... insert_one(chunk_doc)]. *)
Fixpoint store_chunks (doc_id : str) (i : Z) (chunks : list str) : M unit :=
  match chunks with
  | [] => ret tt
  | chunk :: rest =>
      let* id := new_uuid env in
      let* created_at := now_iso env in
      let* _ := db_call env (fun d =>
        (tt, with_chunks d (document_chunks d ++
          [{| c_id := id; c_document_id := doc_id; c_chunk_index := i;
              c_text := chunk; c_keywords := get_text_keywords chunk;
              c_created_at := created_at |}]))) in
      store_chunks doc_id (i + 1) rest
  end.

(** The [try] block. *)
Definition process_document (doc_id : str) (file : UploadFile) (user : User)
    (document : Document) : M DocumentResponse :=
  let text := extract_text_from_file (file_content file)
                (file_content_type file) (file_filename file) in
  let chunks := chunk_text text in
  let* _ := store_chunks doc_id 0 chunks in
  let* _ := db_call env (fun d =>
    (tt, with_documents d
           (update_one doc_id (set_status_and_count indexed (len chunks))
              (documents d)))) in
  let* _ := log_audit (u_id user) (u_email user) (lit "UPLOAD") (lit "document")
              (lit "Uploaded: " ++ file_filename file) in
  ret {| resp_id := doc_id; resp_filename := file_filename file;
         resp_content_type := file_content_type file;
         resp_size := len (file_content file); resp_status := indexed;
         resp_uploaded_by := u_id user;
         resp_uploaded_at := d_uploaded_at document;
         resp_chunk_count := len chunks |}.

(** The [except Exception as e] block. *)
Definition processing_failed (doc_id : str) (e : Exn) : M DocumentResponse :=
  let* _ := db_call env (fun d =>
    (tt, with_documents d (update_one doc_id (set_status failed) (documents d)))) in
  raise (HTTPException 500 (lit "Error processing document: " ++ exn_str e)).

Definition upload_document (file : UploadFile) (user : User) : M DocumentResponse :=
  if negb (str_in (file_content_type file) allowed_types)
     && negb (str_in (file_ext (file_filename file)) allowed_extensions)
  then raise (HTTPException 400 (lit "File type not supported"))
  else
    let* doc_id := new_uuid env in
    let* uploaded_at := now_iso env in
    let document := new_document doc_id file user uploaded_at in
    let* _ := db_call env (fun d => (tt, with_documents d (documents d ++ [document]))) in
    try_except (process_document doc_id file user document)
               (processing_failed doc_id).

(** *** [delete_document] *)

Definition delete_document (doc_id : str) (user : User) : M str :=
  let* doc := db_call env (fun d => (find_document doc_id (documents d), d)) in
  match doc with
  | None => raise (HTTPException 404 (lit "Document not found"))
  | Some doc =>
      if negb (str_eqb (u_role user) (lit "admin"))
         && negb (str_eqb (d_uploaded_by doc) (u_id user))
      then raise (HTTPException 403 (lit "Not authorized to delete this document"))
      else
        let* _ := db_call env (fun d =>
          (tt, with_documents d (delete_one doc_id (documents d)))) in
        let* _ := db_call env (fun d =>
          (tt, with_chunks d (delete_chunks_of doc_id (document_chunks d)))) in
        let* _ := log_audit (u_id user) (u_email user) (lit "DELETE")
                    (lit "document") (lit "Deleted: " ++ d_filename doc) in
        ret (lit "Document deleted successfully")
  end.

(** *** [semantic_search] *)

(** The scoring loop: chunks with a text, scored against the query, kept
    when the score is above 0. *)
Definition search_hits (query : str) (chunks : list Chunk) : list Scored :=
  List.concat (List.map (fun chunk =>
    if truthy (c_text chunk) then
      let score := calculate_text_similarity query (c_text chunk) in
      if Qgtb score 0 then
        [{| s_document_id := c_document_id chunk; s_text := c_text chunk;
            s_score := score |}]
      else []
    else []) chunks).

(** The loop that looks up the filename of each result. *)
Fixpoint attach_filenames (results : list Scored) : M (list SearchResult) :=
  match results with
  | [] => ret []
  | result :: rest =>
      let* doc := db_call env (fun d =>
        (find_document (s_document_id result) (documents d), d)) in
      let* tail := attach_filenames rest in
      ret (match doc with
           | Some doc =>
               {| sr_document_id := s_document_id result;
                  sr_filename := d_filename doc;
                  sr_chunk_text := py_prefix (s_text result) 500;
                  sr_score := s_score result |} :: tail
           | None => tail
           end)
  end.

Definition semantic_search (query : SearchQuery) (user : User) : M (list SearchResult) :=
  let* id := new_uuid env in
  let* timestamp := now_iso env in
  let* _ := db_call env (fun d =>
    (tt, with_queries d (search_queries d ++
      [{| q_id := id; q_user_id := u_id user; q_query := sq_query query;
          q_type := None; q_timestamp := timestamp |}]))) in
  let* chunks := db_call env (fun d => (to_list 10000 (document_chunks d), d)) in
  let results := search_hits (sq_query query) chunks in
  let results := sort_by_score results in
  let results := py_prefix results (sq_limit query) in
  let* final_results := attach_filenames results in
  let* _ := log_audit (u_id user) (u_email user) (lit "SEARCH") (lit "query")
              (lit "Search: " ++ py_prefix (sq_query query) 50) in
  ret final_results.

(** *** [rag_chat] *)

(** The scoring loop of the chat handler: every chunk with a text, with
    its score (zero scores included). *)
Definition score_chunks (message : str) (chunks : list Chunk) : list Scored :=
  List.concat (List.map (fun chunk =>
    if truthy (c_text chunk) then
      [{| s_document_id := c_document_id chunk; s_text := c_text chunk;
          s_score := calculate_text_similarity message (c_text chunk) |}]
    else []) chunks).

(** [scored_chunks.sort(...); top_chunks = scored_chunks[:5]]. *)
Definition top_chunks_of (message : str) (chunks : list Chunk) : list Scored :=
  py_prefix (sort_by_score (score_chunks message chunks)) 5.

(** The context block built from [top_chunks]. *)
Definition context_of (top_chunks : list Scored) : str :=
  let context :=
    join (newline ++ newline)
      (List.map (fun chunk => lit "[Document excerpt]: " ++ s_text chunk)
         (List.filter (fun chunk => Qgtb (s_score chunk) 0) top_chunks)) in
  if negb (truthy context) then no_documents_marker else context.

(** [for h in history[-10:]: ...] followed by the current message. *)
Definition conversation_of (history : list ChatEntry) (message : str) : str :=
  List.concat (List.map (fun h =>
    if str_eqb (h_role h) (lit "user")
    then lit "User: " ++ h_content h ++ newline
    else lit "Assistant: " ++ h_content h ++ newline)
    (py_slice history (-10) (len history)))
  ++ lit "User: " ++ message.

(** The loop over [top_chunks[:3]] that builds [sources]. *)
Fixpoint collect_sources (chunks : list Scored) : M (list Source) :=
  match chunks with
  | [] => ret []
  | chunk :: rest =>
      if Qgtb (s_score chunk) 0 then
        let* doc := db_call env (fun d =>
          (find_document (s_document_id chunk) (documents d), d)) in
        let* tail := collect_sources rest in
        ret (match doc with
             | Some doc =>
                 {| src_document_id := s_document_id chunk;
                    src_filename := d_filename doc;
                    src_relevance := round3 (s_score chunk) |} :: tail
             | None => tail
             end)
      else collect_sources rest
  end.

Definition rag_chat (message : ChatMessage) (user : User) : M ChatResponse :=
  let* session_id :=
    match cm_session_id message with
    | Some s => if truthy s then ret s else new_uuid env
    | None => new_uuid env
    end in
  let* chunks := db_call env (fun d => (to_list 10000 (document_chunks d), d)) in
  let top_chunks := top_chunks_of (cm_message message) chunks in
  let context := context_of top_chunks in
  let* history := db_call env (fun d =>
    (to_list 20 (sort_by_timestamp
       (List.filter (fun h => str_eqb (h_session_id h) session_id)
          (chat_history d))), d)) in
  let system_message := system_message_of context in
  let full_conversation := conversation_of history (cm_message message) in
  let text := if truthy full_conversation then full_conversation
              else cm_message message in
  match llm_send_message system_message (lit "rag-" ++ session_id) text with
  | inr err =>
      raise (HTTPException 500 (lit "Error generating response: " ++ err))
  | inl assistant_message =>
      let* timestamp := now_iso env in
      let* id1 := new_uuid env in
      let* _ := db_call env (fun d =>
        (tt, with_history d (chat_history d ++
          [{| h_id := id1; h_session_id := session_id; h_user_id := u_id user;
              h_role := lit "user"; h_content := cm_message message;
              h_timestamp := timestamp |}]))) in
      let* id2 := new_uuid env in
      let* _ := db_call env (fun d =>
        (tt, with_history d (chat_history d ++
          [{| h_id := id2; h_session_id := session_id; h_user_id := u_id user;
              h_role := lit "assistant"; h_content := assistant_message;
              h_timestamp := timestamp |}]))) in
      let* id3 := new_uuid env in
      let* _ := db_call env (fun d =>
        (tt, with_queries d (search_queries d ++
          [{| q_id := id3; q_user_id := u_id user;
              q_query := cm_message message; q_type := Some (lit "chat");
              q_timestamp := timestamp |}]))) in
      let* sources := collect_sources (py_prefix top_chunks 3) in
      ret {| cr_response := assistant_message; cr_session_id := session_id;
             cr_sources := sources |}
  end.

End Handlers.

(** ** Reference definitions and sample data used in the statements *)

(** The offsets visited by a loop that starts at [start], runs [n] times
    and advances by [step]. *)
Fixpoint starts_from (n : nat) (start step : Z) : list Z :=
  match n with
  | O => []
  | S n' => start :: starts_from n' (start + step) step
  end.

(** What the loop emits for a list of window offsets. *)
Definition chunks_of_windows (text : str) (chunk_size : Z) (starts : list Z)
  : list str :=
  List.concat (List.map (window_chunk text chunk_size) starts).

(** The maximal runs of characters satisfying [p], left to right ([cur] is
    the run in progress). *)
Definition flush (cur : str) : list str := if truthy cur then [cur] else [].

Fixpoint runs_of (p : N -> bool) (cur : str) (s : str) : list str :=
  match s with
  | [] => flush cur
  | c :: r => if p c then runs_of p (cur ++ [c]) r
              else flush cur ++ runs_of p [] r
  end.

(** A run the pattern accepts: ASCII letters only, at least three. *)
Definition is_keyword_run (w : str) : bool :=
  forallb is_ascii_letter w && (3 <=? List.length w)%nat.

(** The character before the input once [l] has been passed over. *)
Definition prev_after (prev : option N) (l : str) : option N :=
  List.fold_left (fun _ c => Some c) l prev.

(** The end of a run of [p]: nothing left, or a character outside [p]. *)
Definition ends_run (p : N -> bool) (rest : str) : Prop :=
  match rest with [] => True | d :: _ => p d = false end.

(** The keyword extractor in the words of the specification: the maximal
    runs of ASCII letters of length at least 3, lower-cased, without the
    stop words. *)
Definition spec_keywords (text : str) : list str :=
  List.filter (fun w => negb (is_stop_word w))
    (List.map (List.map ascii_lower)
       (List.filter (fun w => (3 <=? List.length w)%nat)
          (runs_of is_ascii_letter [] text))).

(** Plain-text extraction in the words of the specification: UTF-8
    decoding with the replacement character U+FFFD for every invalid
    sequence, trimmed. *)
Definition spec_extract_plain (file_content : list byte) : str :=
  strip (utf8_decode [65533%N] file_content).

(** The declared types and the file name suffixes that select a parser. *)
Definition structured_types : list str := [mime_pdf; mime_docx; mime_xlsx; mime_pptx].
Definition structured_suffixes : list str :=
  List.map lit [".pdf"; ".docx"; ".xlsx"; ".pptx"]%string.

(** Parsers that raise on every input. *)
Definition failing_parsers : Parsers :=
  {| pdf_pages := fun _ => None; docx_paragraphs := fun _ => None;
     xlsx_sheets := fun _ => None; pptx_slides := fun _ => None |}.

(** The bytes [61 FF 62]: "a", an invalid byte, "b". *)
Definition bytes_a_ff_b : list byte := [x61; xff; x62].

(** The order of a sort by descending key, and its sorted lists. *)
Definition desc {A} (key : A -> Q) (y x : A) : bool := Qgtb (key y) (key x).

Definition descending {A} (key : A -> Q) : list A -> Prop :=
  StronglySorted (fun a b => (key b <= key a)%Q).

(** An environment whose database never raises. *)
Definition reliable (env : Env) : Prop := forall n, db_error env n = None.

(** A document with this id is stored. *)
Definition has_owner (docs : list Document) (id : str) : Prop :=
  exists doc, find_document id docs = Some doc.

(** The response entry of a ranked chunk whose document is [doc]. *)
Definition result_entry (doc : Document) (s : Scored) : SearchResult :=
  {| sr_document_id := s_document_id s; sr_filename := d_filename doc;
     sr_chunk_text := py_prefix (s_text s) 500; sr_score := s_score s |}.

(** The response of the search for a ranked list: the entries whose
    document is found, in order. *)
Definition results_with_filenames (docs : list Document) (ranked : list Scored)
  : list SearchResult :=
  List.concat (List.map (fun s =>
    match find_document (s_document_id s) docs with
    | Some doc => [result_entry doc s]
    | None => []
    end) ranked).

(** The entry the scoring loops build for a chunk. *)
Definition scored `{U : UnicodeData} (query : str) (chunk : Chunk) : Scored :=
  {| s_document_id := c_document_id chunk; s_text := c_text chunk;
     s_score := calculate_text_similarity query (c_text chunk) |}.

(** The chunk scores above 0 against the query. *)
Definition matches `{U : UnicodeData} (query : str) (chunk : Chunk) : bool :=
  Qgtb (calculate_text_similarity query (c_text chunk)) 0.

(** The ranking of the search in the words of the specification: all the
    stored chunks that score above 0, by descending score, cut to [limit]
    entries. *)
Definition spec_ranked `{U : UnicodeData} (query : str) (limit : Z) (d : Db)
  : list Scored :=
  firstn (Z.to_nat limit)
    (sort_by_score (List.map (scored query)
                      (List.filter (matches query) (document_chunks d)))).

(** A ranked chunk and its response entry: same document, the filename of
    the stored document with that id, the text cut to 500 characters, the
    same score. *)
Definition entry_of (docs : list Document) (s : Scored) (r : SearchResult) : Prop :=
  sr_document_id r = s_document_id s
  /\ (exists doc, find_document (s_document_id s) docs = Some doc
                  /\ sr_filename r = d_filename doc)
  /\ sr_chunk_text r = firstn 500 (s_text s)
  /\ sr_score r = s_score s.

(** The session of a chat request: the one it names, else a fresh uuid. *)
Definition chat_session (env : Env) (message : ChatMessage) (w : World) : str :=
  match cm_session_id message with
  | Some s => if truthy s then s else uuid4 env (uuid_calls w)
  | None => uuid4 env (uuid_calls w)
  end.

(** The history read for a session, and the text sent to the model. *)
Definition chat_history_of (session_id : str) (d : Db) : list ChatEntry :=
  to_list 20 (sort_by_timestamp
    (List.filter (fun h => str_eqb (h_session_id h) session_id) (chat_history d))).

Definition chat_text (history : list ChatEntry) (message : str) : str :=
  if truthy (conversation_of history message)
  then conversation_of history message else message.

(** The sources of a list of ranked chunks: one for every chunk that scores
    above 0 and whose document is found. *)
Definition sources_of `{R : Runtime} (docs : list Document) (chunks : list Scored)
  : list Source :=
  List.concat (List.map (fun s =>
    if Qgtb (s_score s) 0 then
      match find_document (s_document_id s) docs with
      | Some doc => [{| src_document_id := s_document_id s;
                        src_filename := d_filename doc;
                        src_relevance := round3 (s_score s) |}]
      | None => []
      end
    else []) chunks).



(** The guard of [delete_document]: an admin or the uploader. *)
Definition may_delete (user : User) (doc : Document) : bool :=
  str_eqb (u_role user) (lit "admin") || str_eqb (d_uploaded_by doc) (u_id user).

(** A store with the [keywords] field of every chunk blanked: two stores
    differ only in the stored keywords when this makes them equal. *)
Definition erase_chunk (c : Chunk) : Chunk :=
  {| c_id := c_id c; c_document_id := c_document_id c;
     c_chunk_index := c_chunk_index c; c_text := c_text c;
     c_keywords := []; c_created_at := c_created_at c |}.

Definition erase_db (d : Db) : Db :=
  with_chunks d (List.map erase_chunk (document_chunks d)).

Definition erase_world (w : World) : World := set_db w (erase_db (db w)).

(** A handler that never looks at the stored keywords: on the blanked
    store it returns the same result and leaves the blanked final store. *)
Definition keyword_blind {A} (m : M A) : Prop :=
  forall w, m (erase_world w) = (fst (m w), erase_world (snd (m w))).

(** *** Sample data *)

(** A database that never fails; the n-th uuid is "uuid-" followed by n
    letters x, the n-th clock reading "t" followed by n letters x. *)
Definition env_ok : Env :=
  {| db_error := fun _ => None;
     uuid4 := fun n => lit "uuid-" ++ repeat 120%N n;
     utcnow := fun n => lit "t" ++ repeat 120%N n |}.

(** The model answers with the system message it was given. *)
Definition echo_runtime : Runtime :=
  {| llm_send_message := fun system_message _ _ => inl system_message;
     round3 := fun q => q |}.

Definition empty_db : Db :=
  {| documents := []; document_chunks := []; search_queries := [];
     audit_logs := []; chat_history := [] |}.

Definition empty_world : World :=
  {| db := empty_db; db_calls := 0; uuid_calls := 0; clock_calls := 0 |}.

Definition alice : User :=
  {| u_id := lit "alice"; u_email := lit "alice@example.com";
     u_name := lit "Alice"; u_role := lit "user" |}.

Definition bob : User :=
  {| u_id := lit "bob"; u_email := lit "bob@example.com";
     u_name := lit "Bob"; u_role := lit "user" |}.

Definition text_file (name content : string) : UploadFile :=
  {| file_filename := lit name; file_content_type := mime_text;
     file_content := list_byte_of_string content |}.

(** The world after Alice uploaded "cat sat mat" and "cat ran far". *)
Definition world_cats : World :=
  snd (@upload_document ascii_only failing_parsers env_ok
         (text_file "two.txt" "cat ran far") alice
         (snd (@upload_document ascii_only failing_parsers env_ok
                 (text_file "one.txt" "cat sat mat") alice empty_world))).





Definition chat_cat : ChatMessage :=
  {| cm_message := lit "cat"; cm_session_id := None |}.

(** [world_cats] with other values in the [keywords] fields. *)
Definition world_cats_rekeyed : World :=
  set_db world_cats
    (with_chunks (db world_cats)
       (List.map (fun c =>
          {| c_id := c_id c; c_document_id := c_document_id c;
             c_chunk_index := c_chunk_index c; c_text := c_text c;
             c_keywords := [lit "dog"]; c_created_at := c_created_at c |})
          (document_chunks (db world_cats)))).

(** A database in which exactly the calls selected by [fails] raise. *)
Definition env_failing (fails : nat -> bool) : Env :=
  {| db_error := fun n => if fails n then Some (lit "connection lost") else None;
     uuid4 := uuid4 env_ok; utcnow := utcnow env_ok |}.

(** A plain-text file of 1200 letters: two chunks. *)
Definition big_file : UploadFile :=
  {| file_filename := lit "big.txt"; file_content_type := mime_text;
     file_content := repeat x61 1200 |}.

Definition query_cat (limit : Z) : SearchQuery :=
  {| sq_query := lit "cat"; sq_limit := limit |}.

(** The keyword set of a text, [set(get_text_keywords(text))]. *)
Definition keyword_set {U : UnicodeData} (text : str) : gset str :=
  list_to_set (get_text_keywords text).

(** The Jaccard index [|A ∩ B| / |A ∪ B|] of two sets, as the quotient of
    the two cardinalities in the rationals. *)
Definition spec_jaccard (A B : gset str) : Q :=
  (inject_Z (Z.of_nat (size (A ∩ B))) / inject_Z (Z.of_nat (size (A ∪ B))))%Q.

(** Some character of [s] is not whitespace. *)
Definition nonblank (s : str) : bool := existsb (fun c => negb (is_space c)) s.

(** 1200 spaces, and 1200 letters. *)
Definition blank_1200 : str := repeat 32%N 1200.
Definition letters_1200 : str := repeat 97%N 1200.

(** ** Further predicates and handlers *)

(** A string that neither starts nor ends with whitespace. *)
Definition trimmed (s : str) : Prop :=
  (forall c r, s = c :: r -> is_space c = false)
  /\ (forall c r, s = r ++ [c] -> is_space c = false).

(** [c] is a contiguous piece of [text]. *)
Definition substring_of (text c : str) : Prop :=
  exists pre post, text = pre ++ c ++ post.

(** A text of ASCII characters only. *)
Definition ascii_text (s : str) : Prop := List.Forall (fun c => (c < 128)%N) s.

(** A handler that leaves the documents and the chunks as they are,
    whatever it returns or raises. *)
Definition keeps_corpus {A} (m : M A) : Prop :=
  forall w, documents (db (snd (m w))) = documents (db w)
            /\ document_chunks (db (snd (m w))) = document_chunks (db w).

(** The response entry of a chunk for a query, given its document. *)
Definition entry_for `{U : UnicodeData} (query : str) (docs : list Document)
    (chunks : list Chunk) (r : SearchResult) : Prop :=
  exists c doc,
    In c chunks /\ matches query c = true
    /\ find_document (c_document_id c) docs = Some doc
    /\ sr_document_id r = c_document_id c
    /\ sr_filename r = d_filename doc
    /\ sr_chunk_text r = firstn 500 (c_text c)
    /\ sr_score r = calculate_text_similarity query (c_text c).

(** The file passes the type check of [upload_document]. *)
Definition supported `{U : UnicodeData} (file : UploadFile) : bool :=
  str_in (file_content_type file) allowed_types
  || str_in (file_ext (file_filename file)) allowed_extensions.

(** The audit entry of an action, up to its id and timestamp. *)
Definition audit_entry (id : str) (user : User) (action resource details ts : str)
  : AuditLog :=
  {| a_id := id; a_user_id := u_id user; a_user_email := u_email user;
     a_action := action; a_resource := resource; a_details := details;
     a_timestamp := ts |}.

(** A corrupt PDF. *)
Definition broken_pdf : UploadFile :=
  {| file_filename := lit "report.pdf"; file_content_type := mime_pdf;
     file_content := [x25; x50; x44; x46] |}.

(** *** [get_documents] and [get_chat_history] *)

(** [.sort("uploaded_at", -1)]. *)
Definition sort_by_uploaded_desc (l : list Document) : list Document :=
  stable_sort (fun y x => str_ltb (d_uploaded_at x) (d_uploaded_at y)) l.

(** The [DocumentResponse] built from a stored document. *)
Definition response_of (doc : Document) : DocumentResponse :=
  {| resp_id := d_id doc; resp_filename := d_filename doc;
     resp_content_type := d_content_type doc; resp_size := d_size doc;
     resp_status := d_status doc; resp_uploaded_by := d_uploaded_by doc;
     resp_uploaded_at := d_uploaded_at doc;
     resp_chunk_count := d_chunk_count doc |}.

Definition get_documents (env : Env) (user : User) : M (list DocumentResponse) :=
  let* documents := db_call env (fun d =>
    (to_list 1000 (sort_by_uploaded_desc (documents d)), d)) in
  ret (List.map response_of documents).

(** The filter [{"session_id": session_id, "user_id": user["id"]}]. *)
Definition own_entry (session_id : str) (user : User) (h : ChatEntry) : bool :=
  str_eqb (h_session_id h) session_id && str_eqb (h_user_id h) (u_id user).

Definition get_chat_history (env : Env) (session_id : str) (user : User)
  : M (list ChatEntry) :=
  db_call env (fun d =>
    (to_list 100 (sort_by_timestamp
       (List.filter (own_entry session_id user) (chat_history d))), d)).

(** [a <= b] in the order of [str_ltb]. *)
Definition str_le (a b : str) : Prop := str_ltb b a = false.

(** The two history entries of one exchange. *)
Definition user_entry (id session : str) (user : User) (message ts : str) : ChatEntry :=
  {| h_id := id; h_session_id := session; h_user_id := u_id user;
     h_role := lit "user"; h_content := message; h_timestamp := ts |}.

Definition assistant_entry (id session : str) (user : User) (answer ts : str)
  : ChatEntry :=
  {| h_id := id; h_session_id := session; h_user_id := u_id user;
     h_role := lit "assistant"; h_content := answer; h_timestamp := ts |}.

(** A runtime whose model call always raises. *)
Definition offline_runtime : Runtime :=
  {| llm_send_message := fun _ _ _ => inr (lit "model unavailable");
     round3 := fun q => q |}.

(** A world whose chat history holds, in one session, an exchange of Bob
    and a message of Alice. *)
Definition world_shared_session : World :=
  {| db := {| documents := []; document_chunks := []; search_queries := [];
              audit_logs := [];
              chat_history :=
                [ user_entry (lit "h1") (lit "s1") bob (lit "hello") (lit "t2");
                  user_entry (lit "h2") (lit "s1") alice (lit "secret") (lit "t1");
                  assistant_entry (lit "h3") (lit "s1") bob (lit "hi") (lit "t2") ] |};
     db_calls := 0; uuid_calls := 0; clock_calls := 0 |}.

(** *** The admin routes over the [users] collection *)

Record UserRecord := {
  ur_id : str; ur_email : str; ur_password : str; ur_name : str;
  ur_role : str; ur_created_at : str
}.

Record UserResponse := {
  uresp_id : str; uresp_email : str; uresp_name : str; uresp_role : str;
  uresp_created_at : str
}.

(** The state of the admin handlers: the world above and [db.users]. *)
Record AdminWorld := { aw_world : World; aw_users : list UserRecord }.

Definition MA (A : Type) : Type := AdminWorld -> Result A * AdminWorld.

Definition retA {A} (a : A) : MA A := fun aw => (Return a, aw).

Definition raiseA {A} (e : Exn) : MA A := fun aw => (Raise e, aw).

Definition bindA {A B} (m : MA A) (k : A -> MA B) : MA B :=
  fun aw => match m aw with
            | (Return a, aw') => k a aw'
            | (Raise e, aw') => (Raise e, aw')
            end.

(** A handler of the other collections, run on the world part. *)
Definition lift {A} (m : M A) : MA A :=
  fun aw => let (r, w') := m (aw_world aw) in
            (r, {| aw_world := w'; aw_users := aw_users aw |}).

(** One awaited call on [db.users]. *)
Definition users_call (env : Env) {A} (f : list UserRecord -> A * list UserRecord)
  : MA A :=
  fun aw =>
    match db_error env (db_calls (aw_world aw)) with
    | Some msg => (Raise (DriverError msg),
                   {| aw_world := tick_db (aw_world aw); aw_users := aw_users aw |})
    | None => let (a, us) := f (aw_users aw) in
              (Return a, {| aw_world := tick_db (aw_world aw); aw_users := us |})
    end.

(** [require_admin]. *)
Definition require_admin (user : User) : MA User :=
  if negb (str_eqb (u_role user) (lit "admin"))
  then raiseA (HTTPException 403 (lit "Admin access required"))
  else retA user.

Definition valid_roles : list str := List.map lit ["user"; "admin"; "viewer"]%string.

Definition user_has_id (id : str) (u : UserRecord) : bool := str_eqb (ur_id u) id.

Definition find_user (id : str) (users : list UserRecord) : option UserRecord :=
  List.find (user_has_id id) users.

Definition set_role (role : str) (u : UserRecord) : UserRecord :=
  {| ur_id := ur_id u; ur_email := ur_email u; ur_password := ur_password u;
     ur_name := ur_name u; ur_role := role; ur_created_at := ur_created_at u |}.

(** [users.update_one({"id": id}, {"$set": {"role": role}})]: the first
    user of that id gets the role; [modified_count] is 1 when that changed
    the record, 0 when no user matched or the role was already set. *)
Fixpoint update_role_one (id role : str) (users : list UserRecord)
  : Z * list UserRecord :=
  match users with
  | [] => (0, [])
  | u :: rest =>
      if user_has_id id u then
        if str_eqb (ur_role u) role then (0, u :: rest)
        else (1, set_role role u :: rest)
      else let (n, rest') := update_role_one id role rest in (n, u :: rest')
  end.

Fixpoint delete_one_user (id : str) (users : list UserRecord) : list UserRecord :=
  match users with
  | [] => []
  | u :: rest => if user_has_id id u then rest else u :: delete_one_user id rest
  end.

Definition user_response (u : UserRecord) : UserResponse :=
  {| uresp_id := ur_id u; uresp_email := ur_email u; uresp_name := ur_name u;
     uresp_role := ur_role u; uresp_created_at := ur_created_at u |}.

Definition get_all_users (env : Env) (caller : User) : MA (list UserResponse) :=
  bindA (require_admin caller) (fun admin =>
  bindA (users_call env (fun us => (to_list 1000 us, us))) (fun users =>
  retA (List.map user_response users))).

Definition update_user_role (env : Env) (user_id role : str) (caller : User)
  : MA str :=
  bindA (require_admin caller) (fun admin =>
  if negb (str_in role valid_roles)
  then raiseA (HTTPException 400 (lit "Invalid role"))
  else
    bindA (users_call env (update_role_one user_id role)) (fun modified_count =>
    if modified_count =? 0
    then raiseA (HTTPException 404 (lit "User not found"))
    else
      bindA (lift (log_audit env (u_id admin) (u_email admin) (lit "UPDATE_ROLE")
                     (lit "user")
                     (lit "Changed user " ++ user_id ++ lit " role to " ++ role)))
        (fun _ => retA (lit "Role updated successfully")))).

Definition delete_user (env : Env) (user_id : str) (caller : User) : MA str :=
  bindA (require_admin caller) (fun admin =>
  if str_eqb user_id (u_id admin)
  then raiseA (HTTPException 400 (lit "Cannot delete yourself"))
  else
    bindA (users_call env (fun us => (find_user user_id us, us))) (fun user =>
    match user with
    | None => raiseA (HTTPException 404 (lit "User not found"))
    | Some user =>
        bindA (users_call env (fun us => (tt, delete_one_user user_id us))) (fun _ =>
        bindA (lift (log_audit env (u_id admin) (u_email admin) (lit "DELETE_USER")
                       (lit "user") (lit "Deleted user: " ++ ur_email user)))
          (fun _ => retA (lit "User deleted successfully")))
    end)).

(** Sample accounts. *)
Definition carol : User :=
  {| u_id := lit "carol"; u_email := lit "carol@example.com";
     u_name := lit "Carol"; u_role := lit "admin" |}.

Definition account (id role : string) : UserRecord :=
  {| ur_id := lit id; ur_email := lit id ++ lit "@example.com";
     ur_password := lit "$2b$12$hash"; ur_name := lit id; ur_role := lit role;
     ur_created_at := lit "t" |}.

Definition admin_world : AdminWorld :=
  {| aw_world := world_cats;
     aw_users := [account "alice" "user"; account "bob" "viewer";
                  account "carol" "admin"] |}.

(* ================================================================== *)
(** * Properties *)
(* ================================================================== *)

(** ** Chunker *)

Lemma starts_from_map n start step :
  starts_from n start step
  = List.map (fun k => start + Z.of_nat k * step) (seq 0 n).
Proof.
  revert start. induction n as [|n IH]; intros start; [reflexivity|].
  cbn [starts_from seq List.map]. f_equal; [lia|].
  rewrite IH, <- seq_shift, List.map_map.
  apply List.map_ext. intros k. lia.
Qed.

Lemma window_starts_from text chunk_size overlap :
  window_starts text chunk_size overlap
  = starts_from (window_count text chunk_size overlap) 0 (chunk_size - overlap).
Proof.
  unfold window_starts. rewrite starts_from_map.
  apply List.map_ext. intros k. lia.
Qed.

(** The loop, run from [start] with [n] windows left, appends what those
    windows yield; it needs [n + 1] evaluations of its condition. *)
Lemma chunk_loop_run text chunk_size overlap n :
  forall fuel start chunks,
    (n < fuel)%nat ->
    (forall k, (k < n)%nat -> start + Z.of_nat k * (chunk_size - overlap) < len text) ->
    len text <= start + Z.of_nat n * (chunk_size - overlap) ->
    chunk_loop fuel text chunk_size overlap start chunks
    = Some (chunks ++ chunks_of_windows text chunk_size
                        (starts_from n start (chunk_size - overlap))).
Proof.
  induction n as [|n IH]; intros fuel start chunks Hfuel Hin Hout.
  - destruct fuel as [|fuel]; [lia|]. cbn [chunk_loop].
    replace (start <? len text) with false by (symmetry; apply Z.ltb_ge; lia).
    unfold chunks_of_windows. cbn. now rewrite List.app_nil_r.
  - destruct fuel as [|fuel]; [lia|]. cbn [chunk_loop].
    replace (start <? len text) with true
      by (symmetry; apply Z.ltb_lt; specialize (Hin 0%nat); lia).
    cbv zeta.
    replace (start + chunk_size - overlap) with (start + (chunk_size - overlap)) by lia.
    rewrite IH.
    + f_equal. unfold chunks_of_windows. cbn [starts_from List.map List.concat].
      unfold window_chunk at 2, window.
      destruct (truthy (strip (py_slice text start (start + chunk_size))));
        [now rewrite <- List.app_assoc | reflexivity].
    + lia.
    + intros k Hk. specialize (Hin (S k)). lia.
    + lia.
Qed.

Lemma window_count_bounds text chunk_size overlap :
  overlap < chunk_size ->
  let n := window_count text chunk_size overlap in
  (n <= List.length text)%nat
  /\ (forall k, (k < n)%nat -> Z.of_nat k * (chunk_size - overlap) < len text)
  /\ len text <= Z.of_nat n * (chunk_size - overlap).
Proof.
  intros Hlt n. subst n. unfold window_count, len.
  set (L := Z.of_nat (List.length text)). set (s := chunk_size - overlap).
  assert (Hs : 0 < s) by (subst s; lia).
  assert (HL : 0 <= L) by (subst L; lia).
  pose proof (Z.div_mod (L + s - 1) s ltac:(lia)) as Hdm.
  pose proof (Z.mod_pos_bound (L + s - 1) s Hs) as Hmod.
  set (q := (L + s - 1) / s) in *.
  assert (Hq0 : 0 <= q) by (apply Z.div_pos; lia).
  rewrite Z2Nat.id by lia.
  split; [|split].
  - assert (q <= L) by nia. lia.
  - intros k Hk. assert (Z.of_nat k <= q - 1) by lia. nia.
  - nia.
Qed.

Lemma chunk_text_fuel_windows text chunk_size overlap fuel :
  overlap < chunk_size ->
  (List.length text < fuel)%nat ->
  chunk_text_fuel fuel text chunk_size overlap
  = Some (chunks_of_windows text chunk_size (window_starts text chunk_size overlap)).
Proof.
  intros Hlt Hfuel.
  destruct (window_count_bounds text chunk_size overlap Hlt) as (Hn & Hin & Hout).
  unfold chunk_text_fuel. destruct text as [|c text].
  - cbn [truthy negb]. unfold window_starts.
    replace (window_count [] chunk_size overlap) with 0%nat
      by (cbn [List.length] in Hn; lia).
    reflexivity.
  - cbn [truthy negb]. rewrite window_starts_from.
    rewrite (chunk_loop_run _ _ _ (window_count (c :: text) chunk_size overlap));
      [reflexivity | lia | intros k Hk; specialize (Hin k Hk); lia | lia].
Qed.

Lemma chunk_text_default text :
  chunk_text_with text 1000 200 = Some (chunk_text text).
Proof.
  unfold chunk_text, chunk_text_with.
  rewrite (chunk_text_fuel_windows text 1000 200) by lia. reflexivity.
Qed.

Lemma window_starts_increasing text chunk_size overlap :
  overlap < chunk_size ->
  StronglySorted Z.lt (window_starts text chunk_size overlap).
Proof.
  intros Hlt. rewrite window_starts_from.
  generalize (window_count text chunk_size overlap) as n.
  generalize 0 as start.
  intros start n. revert start.
  induction n as [|n IH]; intros start; cbn [starts_from]; constructor.
  - apply IH.
  - rewrite starts_from_map. apply List.Forall_forall.
    intros x Hx. apply List.in_map_iff in Hx as (k & <- & _). nia.
Qed.

Lemma truthy_rev {A} (l : list A) : truthy (rev l) = truthy l.
Proof.
  destruct l as [|x l]; [reflexivity|]. cbn [rev].
  destruct (rev l); reflexivity.
Qed.

Lemma nonblank_rev s : nonblank (rev s) = nonblank s.
Proof.
  unfold nonblank. induction s as [|c s IH]; [reflexivity|].
  cbn [rev existsb]. rewrite List.existsb_app, IH. cbn [existsb].
  rewrite orb_false_r. apply orb_comm.
Qed.

Lemma lstrip_nonblank s : nonblank (lstrip s) = nonblank s.
Proof.
  unfold nonblank. induction s as [|c s IH]; [reflexivity|].
  cbn [lstrip existsb]. destruct (is_space c) eqn:E; [exact IH|].
  cbn [existsb]. now rewrite E.
Qed.

Lemma lstrip_truthy s : truthy (lstrip s) = nonblank s.
Proof.
  unfold nonblank. induction s as [|c s IH]; [reflexivity|].
  cbn [lstrip existsb]. destruct (is_space c) eqn:E; [exact IH | reflexivity].
Qed.

(** A stripped window is kept exactly when it holds a non-blank character. *)
Lemma strip_truthy s : truthy (strip s) = nonblank s.
Proof.
  unfold strip, rstrip.
  now rewrite truthy_rev, lstrip_truthy, nonblank_rev, lstrip_nonblank.
Qed.

Lemma windows_1200 (text : str) :
  List.length text = 1200%nat ->
  window_starts text 1000 200 = [0; 800]
  /\ window text 1000 0 = firstn 1000 text
  /\ window text 1000 800 = skipn 800 text.
Proof.
  intros Hlen. unfold window_starts, window_count, window, py_slice, len.
  rewrite Hlen. split; [reflexivity|]. split.
  - reflexivity.
  - replace (Z.to_nat (slice_index (Z.of_nat 1200) (800 + 1000)
                       - slice_index (Z.of_nat 1200) 800)) with 400%nat
      by reflexivity.
    replace (Z.to_nat (slice_index (Z.of_nat 1200) 800)) with 800%nat
      by reflexivity.
    apply List.firstn_all2. rewrite List.length_skipn. lia.
Qed.

(** C3 (as amended).  With [overlap < chunk_size] the loop of [chunk_text]
    finishes (any fuel above the length of the text gives the result); it
    reads the windows at the offsets [0, step, 2*step, ...] below the length
    of the text, [step = chunk_size - overlap], which increase strictly, and
    returns the stripped windows that are not blank, in order; the empty
    text gives the empty list; a text of 1200 characters, under the defaults
    1000 and 200, has exactly the two windows 0-1000 and 800-1200, and gives
    exactly two chunks when neither window is blank. *)
Theorem chunk_text_windows_spec (text : str) (chunk_size overlap : Z) :
  overlap < chunk_size ->
  (forall fuel, (List.length text < fuel)%nat ->
     chunk_text_fuel fuel text chunk_size overlap
     = Some (chunks_of_windows text chunk_size
               (window_starts text chunk_size overlap)))
  /\ chunk_text_with text chunk_size overlap
     = Some (chunks_of_windows text chunk_size
               (window_starts text chunk_size overlap))
  /\ window_starts text chunk_size overlap
     = List.map (fun k => Z.of_nat k * (chunk_size - overlap))
         (seq 0 (window_count text chunk_size overlap))
  /\ StronglySorted Z.lt (window_starts text chunk_size overlap)
  /\ chunk_text_with [] chunk_size overlap = Some []
  /\ (List.length text = 1200%nat -> chunk_size = 1000 -> overlap = 200 ->
      window_starts text 1000 200 = [0; 800]
      /\ window text 1000 0 = firstn 1000 text
      /\ window text 1000 800 = skipn 800 text
      /\ (nonblank (firstn 1000 text) = true ->
          nonblank (skipn 800 text) = true ->
          chunk_text_with text 1000 200
          = Some [strip (firstn 1000 text); strip (skipn 800 text)])).
Proof.
  intros Hlt.
  split; [intros fuel Hfuel; now apply chunk_text_fuel_windows|].
  split; [apply chunk_text_fuel_windows; [exact Hlt | lia]|].
  split; [reflexivity|].
  split; [apply window_starts_increasing, Hlt|].
  split; [reflexivity|].
  intros Hlen -> ->.
  destruct (windows_1200 text Hlen) as (Hs & Hw0 & Hw800).
  repeat (split; [assumption|]).
  intros Hn0 Hn800.
  unfold chunk_text_with. rewrite chunk_text_fuel_windows by lia.
  rewrite Hs. unfold chunks_of_windows, window_chunk.
  cbn [List.map List.concat]. rewrite Hw0, Hw800, !strip_truthy, Hn0, Hn800.
  reflexivity.
Qed.

Lemma chunk_text_windows_witness :
  200 < 1000
  /\ chunk_text_with letters_1200 1000 200
     = Some [strip (firstn 1000 letters_1200); strip (skipn 800 letters_1200)].
Proof.
  split; [lia|].
  apply (chunk_text_windows_spec letters_1200 1000 200 ltac:(lia));
    reflexivity.
Defined.

(** C3 (as stated) fails on a blank text: 1200 spaces make two windows and
    no chunk. *)
Lemma chunk_text_blank_1200 :
  List.length blank_1200 = 1200%nat
  /\ chunk_text_with blank_1200 1000 200 = Some [].
Proof. split; vm_compute; reflexivity. Qed.

(** ** Similarity *)

Lemma ratio_bounds (a b : nat) : (a <= b)%nat -> (0 <= ratio a b)%Q /\ (ratio a b <= 1)%Q.
Proof.
  intros Hab. unfold ratio, Qle. cbn [Qnum Qden]. split; [lia|].
  destruct b as [|b]; [replace a with 0%nat by lia; cbn; lia|].
  rewrite Z.mul_1_r, Z.mul_1_l.
  replace (Z.pos (Pos.of_nat (S b))) with (Z.of_nat (S b)); [lia|].
  rewrite <- (Nat2Pos.id (S b)) at 1 by lia. now rewrite positive_nat_Z.
Qed.

Lemma ratio_same (a : nat) : (0 < a)%nat -> (ratio a a == 1)%Q.
Proof.
  intros Ha. unfold ratio, Qeq. cbn [Qnum Qden].
  rewrite Z.mul_1_r, Z.mul_1_l.
  rewrite <- (Nat2Pos.id a) at 1 by lia. now rewrite positive_nat_Z.
Qed.

(** The quotient of the code is the quotient of the rationals. *)
Lemma ratio_quotient (a b : nat) :
  (0 < b)%nat -> (ratio a b == inject_Z (Z.of_nat a) / inject_Z (Z.of_nat b))%Q.
Proof.
  intros Hb. unfold ratio. rewrite Qmake_Qdiv.
  replace (Z.pos (Pos.of_nat b)) with (Z.of_nat b); [reflexivity|].
  rewrite <- (Nat2Pos.id b) at 1 by lia. now rewrite positive_nat_Z.
Qed.

Section Similarity.
Context {U : UnicodeData}.

Lemma similarity_jaccard text1 text2 :
  calculate_text_similarity text1 text2
  = if (size (keyword_set text1) =? 0)%nat || (size (keyword_set text2) =? 0)%nat
    then 0%Q
    else ratio (size (keyword_set text1 ∩ keyword_set text2))
               (size (keyword_set text1 ∪ keyword_set text2)).
Proof.
  unfold calculate_text_similarity. fold (keyword_set text1) (keyword_set text2).
  destruct (size (keyword_set text1) =? 0)%nat eqn:E1; [reflexivity|].
  destruct (size (keyword_set text2) =? 0)%nat eqn:E2; [reflexivity|].
  cbn [orb].
  destruct (size (keyword_set text1 ∪ keyword_set text2) =? 0)%nat eqn:E3;
    [|reflexivity].
  exfalso. apply Nat.eqb_eq in E3. apply Nat.eqb_neq in E1. apply E1.
  apply size_empty_iff in E3. apply size_empty_iff. set_solver.
Qed.

Lemma keyword_set_empty text :
  size (keyword_set text) = 0%nat <-> get_text_keywords text = [].
Proof.
  unfold keyword_set. split.
  - intros H. apply size_empty_iff in H.
    destruct (get_text_keywords text) as [|w l]; [reflexivity|].
    exfalso. cbn in H. set_solver.
  - intros ->. reflexivity.
Qed.

Lemma similarity_sym text1 text2 :
  calculate_text_similarity text1 text2 = calculate_text_similarity text2 text1.
Proof.
  rewrite !similarity_jaccard.
  rewrite (orb_comm (size (keyword_set text1) =? 0)%nat).
  now rewrite (comm_L (∩) (keyword_set text1)), (comm_L (∪) (keyword_set text1)).
Qed.

Lemma similarity_range text1 text2 :
  (0 <= calculate_text_similarity text1 text2)%Q
  /\ (calculate_text_similarity text1 text2 <= 1)%Q.
Proof.
  rewrite similarity_jaccard.
  destruct (_ || _); [split; [apply Qle_refl | unfold Qle; cbn; lia]|].
  apply ratio_bounds, subseteq_size.
  intros x. rewrite elem_of_intersection, elem_of_union. tauto.
Qed.

Lemma similarity_empty text1 text2 :
  get_text_keywords text1 = [] \/ get_text_keywords text2 = [] ->
  calculate_text_similarity text1 text2 = 0%Q.
Proof.
  intros H. rewrite similarity_jaccard.
  destruct H as [H|H]; apply keyword_set_empty in H; rewrite H.
  - reflexivity.
  - now rewrite orb_true_r.
Qed.

Lemma similarity_refl text :
  get_text_keywords text <> [] ->
  (calculate_text_similarity text text == 1)%Q.
Proof.
  intros H. rewrite similarity_jaccard.
  assert (Hs : size (keyword_set text) <> 0%nat)
    by (intros E; apply H, keyword_set_empty, E).
  apply Nat.eqb_neq in Hs as Hb. rewrite Hb. cbn [orb].
  rewrite (idemp_L (∩)), (idemp_L (∪)). apply ratio_same. lia.
Qed.

Lemma similarity_quotient text1 text2 :
  get_text_keywords text1 <> [] -> get_text_keywords text2 <> [] ->
  (calculate_text_similarity text1 text2
   == spec_jaccard (keyword_set text1) (keyword_set text2))%Q.
Proof.
  intros H1 H2. rewrite similarity_jaccard.
  assert (Hs1 : size (keyword_set text1) <> 0%nat)
    by (intros E; apply H1, keyword_set_empty, E).
  assert (Hs2 : size (keyword_set text2) <> 0%nat)
    by (intros E; apply H2, keyword_set_empty, E).
  apply Nat.eqb_neq in Hs1 as Hb1. apply Nat.eqb_neq in Hs2 as Hb2.
  rewrite Hb1, Hb2. cbn [orb]. apply ratio_quotient.
  assert (size (keyword_set text1) <= size (keyword_set text1 ∪ keyword_set text2))%nat
    by (apply subseteq_size; set_solver).
  lia.
Qed.

(** C2.  When both keyword sets are non-empty, [calculate_text_similarity]
    is the Jaccard index of the two keyword sets, the number of common
    keywords divided by the number of keywords of either text; it is 0
    when either set is empty; it is symmetric, 1 on a text compared with
    itself when its keyword set is not empty, and always within [0, 1]. *)
Theorem similarity_is_jaccard (text1 text2 : str) :
  (get_text_keywords text1 <> [] -> get_text_keywords text2 <> [] ->
   (calculate_text_similarity text1 text2
    == spec_jaccard (keyword_set text1) (keyword_set text2))%Q)
  /\ calculate_text_similarity text1 text2 = calculate_text_similarity text2 text1
  /\ (get_text_keywords text1 <> [] ->
      (calculate_text_similarity text1 text1 == 1)%Q)
  /\ (get_text_keywords text1 = [] \/ get_text_keywords text2 = [] ->
      calculate_text_similarity text1 text2 = 0%Q)
  /\ (0 <= calculate_text_similarity text1 text2)%Q
  /\ (calculate_text_similarity text1 text2 <= 1)%Q.
Proof.
  split; [apply similarity_quotient|].
  split; [apply similarity_sym|].
  split; [apply similarity_refl|].
  split; [apply similarity_empty|].
  apply similarity_range.
Qed.

End Similarity.

Lemma similarity_is_jaccard_witness :
  (@calculate_text_similarity ascii_only (lit "cat sat") (lit "cat dog") == 1 # 3)%Q
  /\ (@calculate_text_similarity ascii_only (lit "cat sat mat") (lit "cat sat")
      == 2 # 3)%Q
  /\ (@calculate_text_similarity ascii_only (lit "cat sat") (lit "cat sat") == 1)%Q
  /\ @calculate_text_similarity ascii_only (lit "the") (lit "cat sat") = 0%Q.
Proof.
  pose proof (@similarity_is_jaccard ascii_only (lit "cat sat") (lit "cat dog"))
    as (Hthird & _).
  pose proof (@similarity_is_jaccard ascii_only (lit "cat sat mat") (lit "cat sat"))
    as (Htwo & _).
  pose proof (@similarity_is_jaccard ascii_only (lit "cat sat") (lit "cat sat"))
    as (_ & _ & Hrefl & _).
  pose proof (@similarity_is_jaccard ascii_only (lit "the") (lit "cat sat"))
    as (_ & _ & _ & Hempty & _).
  split; [|split; [|split]].
  - eapply Qeq_trans; [apply Hthird; discriminate|]. vm_compute. reflexivity.
  - eapply Qeq_trans; [apply Htwo; discriminate|]. vm_compute. reflexivity.
  - apply Hrefl. discriminate.
  - apply Hempty. left. reflexivity.
Defined.

(** ** Keyword extraction *)

Lemma runs_of_app p w : forall cur rest,
  forallb p w = true -> runs_of p cur (w ++ rest) = runs_of p (cur ++ w) rest.
Proof.
  induction w as [|c w IH]; intros cur rest Hw.
  - now rewrite List.app_nil_r.
  - cbn in Hw. apply andb_true_iff in Hw as (Hc & Hw).
    cbn [List.app runs_of]. rewrite Hc, IH by exact Hw.
    now rewrite <- List.app_assoc.
Qed.

Lemma runs_of_break p cur rest :
  ends_run p rest -> runs_of p cur rest = flush cur ++ runs_of p [] rest.
Proof.
  destruct rest as [|d r]; cbn [ends_run runs_of].
  - intros _. cbn. now rewrite List.app_nil_r.
  - intros ->. reflexivity.
Qed.

(** Every string starts with a maximal run of [p] (possibly empty). *)
Lemma span_run p (s : str) :
  exists w rest, s = w ++ rest /\ forallb p w = true /\ ends_run p rest.
Proof.
  induction s as [|c s (w & rest & -> & Hw & Hrest)].
  - exists [], []. now cbn.
  - destruct (p c) eqn:Hc.
    + exists (c :: w), rest. cbn. now rewrite Hc, Hw.
    + exists [], (c :: w ++ rest). now cbn.
Qed.

Lemma prev_after_last prev (l : str) (P : N -> bool) :
  l <> [] -> forallb P l = true ->
  exists x, prev_after prev l = Some x /\ P x = true.
Proof.
  revert prev. induction l as [|c l IH]; intros prev Hne Hl; [congruence|].
  cbn in Hl. apply andb_true_iff in Hl as (Hc & Hl).
  destruct l as [|c' l'].
  - exists c. now cbn.
  - apply (IH (Some c)); [discriminate | exact Hl].
Qed.

Section KeywordProperties.
Context {U : UnicodeData}.

Lemma letter_is_word c : is_ascii_letter c = true -> is_word c = true.
Proof.
  unfold is_word, is_ascii_letter, is_ascii_upper, is_ascii_lower.
  intros H. destruct (N.ltb_spec c 128) as [_|Hge]; [now rewrite H|].
  exfalso.
  apply orb_true_iff in H as [H|H]; apply andb_true_iff in H as (_ & H);
    apply N.leb_le in H; lia.
Qed.

Lemma nonword_not_letter c : is_word c = false -> is_ascii_letter c = false.
Proof.
  intros H. destruct (is_ascii_letter c) eqn:E; [|reflexivity].
  apply letter_is_word in E. congruence.
Qed.

Lemma ends_word_run_letter rest : ends_run is_word rest -> ends_run is_ascii_letter rest.
Proof. destruct rest; cbn; [tauto | apply nonword_not_letter]. Qed.

(** A character outside [\w] never starts a match. *)
Lemma findall_nonword prev d r :
  is_word d = false -> findall_words 0 prev (d :: r) = findall_words 0 (Some d) r.
Proof.
  intros Hd. cbn [findall_words match_letters].
  rewrite (nonword_not_letter d Hd). cbn [Nat.leb andb].
  now destruct (word_boundary prev (Some d)).
Qed.

(** Passing over the rest of a match. *)
Lemma findall_skip u : forall prev rest,
  findall_words (List.length u) prev (u ++ rest)
  = findall_words 0 (prev_after prev u) rest.
Proof.
  induction u as [|c u IH]; intros prev rest.
  - cbn [List.length List.app prev_after List.fold_left]. reflexivity.
  - cbn [List.length List.app findall_words]. apply IH.
Qed.

(** Inside a run of [\w] there is no word boundary, hence no match. *)
Lemma findall_in_run u : forall prev rest,
  is_word_opt prev = true -> forallb is_word u = true ->
  findall_words 0 prev (u ++ rest) = findall_words 0 (prev_after prev u) rest.
Proof.
  induction u as [|c u IH]; intros prev rest Hp Hu; [reflexivity|].
  cbn in Hu. apply andb_true_iff in Hu as (Hc & Hu).
  cbn [List.app findall_words]. unfold word_boundary.
  cbn [is_word_opt]. rewrite Hp, Hc. cbn [xorb].
  apply (IH (Some c)); [exact Hc | exact Hu].
Qed.

(** [[a-zA-Z]{3,}\b] against a run of letters [l] followed by [t]: the only
    candidate is the whole run. *)
Lemma match_letters_run l : forall n prev t,
  forallb is_ascii_letter l = true ->
  ends_run is_ascii_letter t ->
  ((1 <= n)%nat -> is_word_opt prev = true) ->
  match_letters n prev (l ++ t)
  = if (3 <=? n + List.length l)%nat
       && word_boundary (prev_after prev l) (List.head t)
    then Some (l, t) else None.
Proof.
  induction l as [|c l IH]; intros n prev t Hl Ht Hn.
  - cbn [List.app List.length prev_after List.fold_left]. rewrite Nat.add_0_r.
    destruct t as [|d r]; cbn [match_letters]; [reflexivity|].
    cbn in Ht. now rewrite Ht.
  - cbn in Hl. apply andb_true_iff in Hl as (Hc & Hl).
    cbn [List.app match_letters]. rewrite Hc.
    rewrite (IH (S n) (Some c) t Hl Ht)
      by (intros _; cbn; now apply letter_is_word).
    cbn [List.length prev_after List.fold_left].
    replace (n + S (List.length l))%nat with (S n + List.length l)%nat by lia.
    fold (prev_after (Some c) l).
    destruct ((3 <=? S n + List.length l)%nat
              && word_boundary (prev_after (Some c) l) (List.head t));
      [reflexivity|].
    cbn [List.head].
    destruct (3 <=? n)%nat eqn:E3; [|reflexivity].
    apply Nat.leb_le in E3. unfold word_boundary. rewrite Hn by lia.
    cbn [is_word_opt]. now rewrite (letter_is_word c Hc).
Qed.

Lemma forallb_app_false {A} (P : A -> bool) l d t :
  P d = false -> forallb P (l ++ d :: t) = false.
Proof.
  intros Hd. rewrite List.forallb_app. cbn. rewrite Hd.
  now rewrite andb_false_r.
Qed.

(** The pattern at the start of a run [w] of [\w]: it matches the whole
    run when the run is a keyword run, and nothing otherwise. *)
Lemma match_letters_word_run prev w rest :
  is_word_opt prev = false -> w <> [] ->
  forallb is_word w = true -> ends_run is_word rest ->
  match_letters 0 prev (w ++ rest)
  = if is_keyword_run w then Some (w, rest) else None.
Proof.
  intros Hp Hne Hw Hrest.
  destruct (span_run is_ascii_letter w) as (l & t & -> & Hl & Ht).
  rewrite <- List.app_assoc.
  destruct t as [|d t].
  - rewrite List.app_nil_r in *. cbn [List.app].
    rewrite (match_letters_run l 0 prev rest Hl (ends_word_run_letter _ Hrest))
      by lia.
    unfold is_keyword_run. rewrite Hl. cbn [Nat.add andb].
    destruct (prev_after_last prev l is_word Hne Hw) as (x & -> & Hx).
    unfold word_boundary. cbn [is_word_opt]. rewrite Hx.
    replace (is_word_opt (List.head rest)) with false
      by (destruct rest; cbn in *; congruence).
    cbn [xorb]. now rewrite andb_true_r.
  - cbn in Ht.
    rewrite (match_letters_run l 0 prev ((d :: t) ++ rest) Hl) by (cbn; auto; lia).
    unfold is_keyword_run. rewrite (forallb_app_false _ l d t Ht). cbn [andb].
    rewrite List.forallb_app in Hw. apply andb_true_iff in Hw as (Hwl & Hwt).
    cbn in Hwt. apply andb_true_iff in Hwt as (Hd & _).
    destruct l as [|c l]; [reflexivity|].
    destruct (prev_after_last prev (c :: l) is_word ltac:(discriminate) Hwl)
      as (x & -> & Hx).
    unfold word_boundary. cbn [List.app List.head is_word_opt].
    rewrite Hx, Hd. cbn [xorb]. now rewrite andb_false_r.
Qed.

(** The scan of [re.findall] returns the keyword runs among the maximal
    runs of [\w], in order. *)
Lemma findall_words_runs (s : str) : forall prev,
  is_word_opt prev = false ->
  findall_words 0 prev s = List.filter is_keyword_run (runs_of is_word [] s).
Proof.
  induction s as [s IH] using (induction_ltof1 _ (@List.length N)).
  unfold ltof in IH. intros prev Hp.
  destruct s as [|c r]; [reflexivity|].
  destruct (is_word c) eqn:Hc.
  - destruct (span_run is_word r) as (u & rest & -> & Hu & Hrest).
    assert (Hcont : forall p, findall_words 0 p rest
                     = List.filter is_keyword_run (runs_of is_word [] rest)).
    { intros p. destruct rest as [|d r']; [reflexivity|]. cbn in Hrest.
      rewrite (findall_nonword p d r' Hrest). cbn [runs_of]. rewrite Hrest.
      apply IH; [|exact Hrest].
      cbn [List.length]. rewrite List.length_app. cbn [List.length]. lia. }
    assert (Hw : forallb is_word (c :: u) = true) by (cbn; now rewrite Hc, Hu).
    cbn [runs_of]. rewrite Hc.
    rewrite (runs_of_app is_word u _ rest Hu), (runs_of_break is_word _ rest Hrest).
    cbn [List.app flush truthy List.filter].
    pose proof (match_letters_word_run prev (c :: u) rest Hp
                  ltac:(discriminate) Hw Hrest) as Hm.
    cbn [List.app] in Hm.
    cbn [findall_words]. unfold word_boundary at 1. cbn [is_word_opt].
    rewrite Hp, Hc. cbn [xorb]. rewrite Hm.
    destruct (is_keyword_run (c :: u)).
    + cbn [List.length Nat.sub]. rewrite Nat.sub_0_r, findall_skip.
      cbn [List.app]. f_equal. apply Hcont.
    + rewrite (findall_in_run u (Some c) rest Hc Hu). cbn [List.app]. apply Hcont.
  - rewrite (findall_nonword prev c r Hc). cbn [runs_of]. rewrite Hc.
    cbn [flush truthy List.app]. apply IH; [cbn; lia | exact Hc].
Qed.

Lemma get_text_keywords_runs (text : str) :
  get_text_keywords text
  = List.filter (fun w => negb (is_stop_word w))
      (List.filter is_keyword_run (runs_of is_word [] (str_lower text))).
Proof.
  unfold get_text_keywords. now rewrite findall_words_runs.
Qed.

(** C4 (as amended).  The keywords of a text are the maximal runs of word
    characters (letters, digits, underscore) of the lower-cased text that
    consist of ASCII letters only and have at least three of them, in
    order, without the stop words.  So no keyword is a stop word, none is
    shorter than 3 characters, each consists of ASCII letters; and the
    keywords of "The cat sat" are "cat" and "sat". *)
Theorem get_text_keywords_spec (text : str) :
  get_text_keywords text
  = List.filter (fun w => negb (is_stop_word w))
      (List.filter is_keyword_run (runs_of is_word [] (str_lower text)))
  /\ List.Forall (fun w => is_stop_word w = false
                         /\ (3 <= List.length w)%nat
                         /\ forallb is_ascii_letter w = true)
       (get_text_keywords text)
  /\ get_text_keywords (lit "The cat sat") = [lit "cat"; lit "sat"].
Proof.
  split; [apply get_text_keywords_runs|]. split; [|reflexivity].
  rewrite get_text_keywords_runs. apply List.Forall_forall. intros w Hw.
  apply List.filter_In in Hw as (Hw & Hstop).
  apply List.filter_In in Hw as (_ & Hrun).
  unfold is_keyword_run in Hrun. apply andb_true_iff in Hrun as (Hl & Hn).
  apply Nat.leb_le in Hn. apply negb_true_iff in Hstop. auto.
Qed.

End KeywordProperties.

(** C4 (as stated) fails next to a digit or an underscore: "abc1" has the
    run of letters "abc", and no keyword. *)
Lemma get_text_keywords_digit :
  @get_text_keywords ascii_only (lit "abc1") = []
  /\ spec_keywords (lit "abc1") = [lit "abc"]
  /\ @get_text_keywords ascii_only (lit "foo_bar") = []
  /\ spec_keywords (lit "foo_bar") = [lit "foo"; lit "bar"].
Proof.
  split; [vm_compute; reflexivity|]. split; [vm_compute; reflexivity|].
  split; vm_compute; reflexivity.
Qed.

(** ** Extractor *)

(** ASCII bytes decode to themselves, whatever the error handler. *)
Lemma utf8_decode_ascii on_error (bs : list byte) :
  List.Forall (fun b => (Byte.to_N b < 128)%N) bs ->
  utf8_decode on_error bs = List.map Byte.to_N bs.
Proof.
  induction 1 as [|b bs Hb _ IH]; [reflexivity|].
  apply N.ltb_lt in Hb. cbn [utf8_decode List.map]. cbv zeta.
  now rewrite Hb, IH.
Qed.

(** C7 (as amended).  When the declared content type is none of the four
    structured types and the file name has none of their suffixes, the
    extractor returns the UTF-8 decoding of the bytes in which every
    invalid sequence is dropped, trimmed of leading and trailing
    whitespace (for ASCII bytes: the bytes themselves, trimmed); it is a
    total function, whatever the bytes. *)
Theorem extract_plain_text `{P : Parsers} (file_content : list byte)
    (content_type filename : str) :
  str_in content_type structured_types = false ->
  existsb (endswith filename) structured_suffixes = false ->
  extract_text_from_file file_content content_type filename
  = strip (utf8_decode [] file_content)
  /\ (List.Forall (fun b => (Byte.to_N b < 128)%N) file_content ->
      extract_text_from_file file_content content_type filename
      = strip (List.map Byte.to_N file_content)).
Proof.
  intros Htype Hsuffix.
  assert (Hplain : extract_text_from_file file_content content_type filename
                   = strip (utf8_decode [] file_content));
    [|split; [exact Hplain | intros Hascii; now rewrite Hplain, utf8_decode_ascii]].
  unfold str_in, structured_types in Htype. cbn [existsb] in Htype.
  unfold structured_suffixes in Hsuffix. cbn [List.map existsb] in Hsuffix.
  repeat (apply orb_false_iff in Htype as (?He & Htype)).
  repeat (apply orb_false_iff in Hsuffix as (?Hs & Hsuffix)).
  unfold extract_text_from_file, extract_raw.
  rewrite He, He0, He1, He2, Hs, Hs0, Hs1, Hs2. cbn [orb].
  now destruct (str_eqb content_type mime_text || endswith filename (lit ".txt")).
Qed.

Lemma extract_plain_text_witness :
  @extract_text_from_file failing_parsers bytes_a_ff_b mime_text (lit "a.txt")
  = lit "ab".
Proof.
  rewrite (proj1 (@extract_plain_text failing_parsers bytes_a_ff_b mime_text
                    (lit "a.txt") eq_refl eq_refl)).
  reflexivity.
Defined.

(** C7 (as stated) fails on an invalid byte: it is dropped, where the
    specification puts U+FFFD. *)
Lemma extract_drops_invalid_byte :
  @extract_text_from_file failing_parsers bytes_a_ff_b mime_text (lit "a.txt")
  = [97; 98]%N
  /\ spec_extract_plain bytes_a_ff_b = [97; 65533; 98]%N.
Proof. split; vm_compute; reflexivity. Qed.

(** ** Stable sorting by descending score *)

Section SortByKey.
Context {A : Type} (key : A -> Q).

Lemma desc_true y x : desc key y x = true -> (key x <= key y)%Q /\ ~ (key y == key x)%Q.
Proof.
  unfold desc, Qgtb. intros H. apply negb_true_iff in H.
  assert (Hn : ~ (key y <= key x)%Q)
    by (intros Hle; apply Qle_bool_iff in Hle; congruence).
  split.
  - apply Qlt_le_weak, Qnot_le_lt, Hn.
  - intros Heq. apply Hn. rewrite Heq. apply Qle_refl.
Qed.

Lemma desc_false y x : desc key y x = false -> (key y <= key x)%Q.
Proof.
  unfold desc, Qgtb. intros H. apply negb_false_iff in H.
  now apply Qle_bool_iff.
Qed.

Lemma insert_sorted_perm x l : Permutation (insert_sorted (desc key) x l) (x :: l).
Proof.
  induction l as [|y r IH]; cbn [insert_sorted]; [reflexivity|].
  destruct (desc key y x); [|reflexivity].
  rewrite IH. apply perm_swap.
Qed.

Lemma stable_sort_perm l : Permutation (stable_sort (desc key) l) l.
Proof.
  induction l as [|x l IH]; cbn; [reflexivity|].
  fold (stable_sort (desc key) l). rewrite insert_sorted_perm. now constructor.
Qed.

Lemma insert_sorted_descending x l :
  descending key l -> descending key (insert_sorted (desc key) x l).
Proof.
  unfold descending. induction l as [|y r IH]; intros Hs; cbn [insert_sorted].
  - repeat constructor.
  - apply StronglySorted_inv in Hs as (Hr & Hy).
    destruct (desc key y x) eqn:E.
    + constructor; [now apply IH|].
      eapply Permutation_Forall; [symmetry; apply insert_sorted_perm|].
      constructor; [apply (desc_true y x E) | exact Hy].
    + apply desc_false in E. constructor; [now constructor|].
      constructor; [exact E|].
      eapply List.Forall_impl; [|exact Hy]. cbn. intros z Hz.
      eapply Qle_trans; eassumption.
Qed.

Lemma stable_sort_descending l : descending key (stable_sort (desc key) l).
Proof.
  induction l as [|x l IH]; cbn; [constructor|].
  now apply insert_sorted_descending.
Qed.

(** Stability: the elements of any one key keep their order. *)
Lemma insert_sorted_stable q x l :
  List.filter (fun a => Qeq_bool (key a) q) (insert_sorted (desc key) x l)
  = List.filter (fun a => Qeq_bool (key a) q) (x :: l).
Proof.
  induction l as [|y r IH]; cbn [insert_sorted]; [reflexivity|].
  destruct (desc key y x) eqn:E; [|reflexivity].
  cbn [List.filter] in *. rewrite IH.
  destruct (Qeq_bool (key y) q) eqn:Ey, (Qeq_bool (key x) q) eqn:Ex;
    try reflexivity.
  exfalso. apply Qeq_bool_iff in Ey, Ex. apply (desc_true y x E).
  now rewrite Ey, Ex.
Qed.

Lemma stable_sort_stable q l :
  List.filter (fun a => Qeq_bool (key a) q) (stable_sort (desc key) l)
  = List.filter (fun a => Qeq_bool (key a) q) l.
Proof.
  induction l as [|x l IH]; [reflexivity|].
  cbn [stable_sort List.fold_right]. fold (stable_sort (desc key) l).
  rewrite insert_sorted_stable. cbn [List.filter]. now rewrite IH.
Qed.

End SortByKey.

Lemma sort_by_score_spec (l : list Scored) :
  Permutation (sort_by_score l) l
  /\ descending s_score (sort_by_score l)
  /\ (forall q, List.filter (fun a => Qeq_bool (s_score a) q) (sort_by_score l)
                = List.filter (fun a => Qeq_bool (s_score a) q) l).
Proof.
  split; [apply (stable_sort_perm s_score)|].
  split; [apply (stable_sort_descending s_score)|].
  intros q. apply (stable_sort_stable s_score).
Qed.

Lemma filter_none {A} (p : A -> bool) (l : list A) :
  (forall z, In z l -> p z = false) -> List.filter p l = [].
Proof.
  induction l as [|x l IH]; intros H; [reflexivity|].
  cbn [List.filter]. rewrite (H x (or_introl eq_refl)).
  apply IH. intros z Hz. apply H. now right.
Qed.

(** Scores above 0 come first: the positive entries of a sorted list are a
    prefix of it. *)
Lemma descending_positive_prefix (l : list Scored) :
  descending s_score l ->
  exists n, List.filter (fun a => Qgtb (s_score a) 0) l = firstn n l.
Proof.
  unfold descending. induction l as [|x l IH]; intros Hs.
  - exists 0%nat. reflexivity.
  - apply StronglySorted_inv in Hs as (Hl & Hx). cbn [List.filter].
    destruct (Qgtb (s_score x) 0) eqn:E.
    + destruct (IH Hl) as (n & Hn). exists (S n). cbn. now rewrite Hn.
    + exists 0%nat. cbn [firstn].
      rewrite filter_none; [reflexivity|].
      intros z Hz. rewrite List.Forall_forall in Hx. specialize (Hx z Hz).
      unfold Qgtb in *. apply negb_false_iff in E. apply negb_false_iff.
      apply Qle_bool_iff. apply Qle_bool_iff in E. eapply Qle_trans; eassumption.
Qed.

(** ** Running the handlers *)

Lemma bind_run {A B} (m : M A) (k : A -> M B) w a w1 :
  m w = (Return a, w1) -> bind m k w = k a w1.
Proof. unfold bind. now intros ->. Qed.

Lemma bind_raise {A B} (m : M A) (k : A -> M B) w e w1 :
  m w = (Raise e, w1) -> bind m k w = (Raise e, w1).
Proof. unfold bind. now intros ->. Qed.

Lemma db_call_run env {A} (f : Db -> A * Db) w :
  db_error env (db_calls w) = None ->
  db_call env f w = (Return (fst (f (db w))), set_db (tick_db w) (snd (f (db w)))).
Proof. unfold db_call. intros ->. now destruct (f (db w)). Qed.

Lemma db_call_fail env {A} (f : Db -> A * Db) w msg :
  db_error env (db_calls w) = Some msg ->
  db_call env f w = (Raise (DriverError msg), tick_db w).
Proof. unfold db_call. now intros ->. Qed.

Lemma In_firstn {A} (x : A) n l : In x (firstn n l) -> In x l.
Proof.
  intros H. rewrite <- (List.firstn_skipn n l). apply List.in_or_app. now left.
Qed.

Lemma py_prefix_nonneg {A} (l : list A) (n : Z) :
  0 <= n -> py_prefix l n = firstn (Z.to_nat n) l.
Proof.
  intros Hn. unfold py_prefix, py_slice, slice_index, len.
  replace (0 <? 0) with false by reflexivity.
  replace (n <? 0) with false by (symmetry; apply Z.ltb_ge; lia).
  rewrite (Z.min_l 0) by lia. cbn [Z.to_nat skipn]. rewrite Z.sub_0_r.
  destruct (Z.le_ge_cases n (Z.of_nat (List.length l))) as [H|H].
  - now rewrite Z.min_l.
  - rewrite Z.min_r by lia. rewrite Nat2Z.id.
    rewrite List.firstn_all, List.firstn_all2; [reflexivity | lia].
Qed.

Section HandlerProperties.
Context {U : UnicodeData} {P : Parsers} {R : Runtime}.
Variable env : Env.

Lemma log_audit_run a b c d e w :
  db_error env (db_calls w) = None ->
  exists w', log_audit env a b c d e w = (Return tt, w')
    /\ documents (db w') = documents (db w)
    /\ document_chunks (db w') = document_chunks (db w)
    /\ db_calls w' = S (db_calls w).
Proof.
  intros Hok. unfold log_audit.
  erewrite bind_run by reflexivity. erewrite bind_run by reflexivity.
  rewrite db_call_run by exact Hok. eexists. split; [reflexivity|]. now cbn.
Qed.

(** A text without keywords matches nothing; the empty text is one. *)
Lemma matches_empty_text query chunk :
  truthy (c_text chunk) = false -> matches query chunk = false.
Proof.
  unfold matches. destruct (c_text chunk) as [|c t]; [|discriminate].
  intros _. rewrite similarity_empty; [reflexivity | now right].
Qed.

(** The scoring loop of the search keeps exactly the chunks that score
    above 0, in the order of the collection. *)
Lemma search_hits_filter query chunks :
  search_hits query chunks
  = List.map (scored query) (List.filter (matches query) chunks).
Proof.
  unfold search_hits. induction chunks as [|c chunks IH]; [reflexivity|].
  cbn [List.map List.concat List.filter]. rewrite IH.
  destruct (truthy (c_text c)) eqn:Et.
  - fold (matches query c). destruct (matches query c); reflexivity.
  - now rewrite (matches_empty_text query c Et).
Qed.

Lemma attach_filenames_run ranked :
  reliable env -> forall w,
  exists w', attach_filenames env ranked w
             = (Return (results_with_filenames (documents (db w)) ranked), w')
    /\ db w' = db w.
Proof.
  intros Hrel. induction ranked as [|s ranked IH]; intros w.
  - exists w. now cbn.
  - cbn [attach_filenames].
    erewrite bind_run by (apply db_call_run, Hrel). cbn [fst snd].
    destruct (IH (set_db (tick_db w) (db w))) as (w' & Hrun & Hdb).
    erewrite bind_run by exact Hrun.
    exists w'. split; [|exact Hdb].
    unfold ret, results_with_filenames. cbn [List.map List.concat].
    now destruct (find_document (s_document_id s) (documents (db w))).
Qed.

(** The search in an environment whose database does not fail: what it
    returns, and that it leaves documents and chunks as they were. *)
Lemma semantic_search_run query user w :
  reliable env ->
  exists w', semantic_search env query user w
    = (Return (results_with_filenames (documents (db w))
                 (py_prefix (sort_by_score
                    (search_hits (sq_query query)
                       (to_list 10000 (document_chunks (db w)))))
                    (sq_limit query))), w')
    /\ documents (db w') = documents (db w)
    /\ document_chunks (db w') = document_chunks (db w).
Proof.
  intros Hrel. unfold semantic_search.
  erewrite bind_run by reflexivity. erewrite bind_run by reflexivity.
  erewrite bind_run by (apply db_call_run, Hrel).
  erewrite bind_run by (apply db_call_run, Hrel). cbn [fst snd]. cbv zeta.
  match goal with |- context [bind (attach_filenames env ?r) _ ?w0] =>
    destruct (attach_filenames_run r Hrel w0) as (w1 & Hrun & Hdb1) end.
  erewrite bind_run by exact Hrun.
  match goal with |- context [bind (log_audit env ?a ?b ?c ?d ?e) _ w1] =>
    destruct (log_audit_run a b c d e w1 (Hrel _)) as (w2 & Hlog & Hd2 & Hc2 & _)
  end.
  erewrite bind_run by exact Hlog.
  exists w2. cbn in Hrun |- *. split; [reflexivity|].
  rewrite Hd2, Hc2, Hdb1. now cbn.
Qed.

(** C1 (as amended).  With a database that does not fail, a limit that is
    not negative, at most 10000 stored chunks, and a stored document for
    every chunk that matches, the search returns, for exactly the stored
    chunks that score above 0, taken by descending score with chunks of
    equal score in the order of the collection, the first [limit] of them,
    each with the filename of its document and its text cut to 500
    characters; it returns the empty list when no chunk scores above 0;
    documents and chunks are left as they were. *)
Theorem semantic_search_ranked (query : SearchQuery) (user : User) (w : World) :
  reliable env ->
  0 <= sq_limit query ->
  len (document_chunks (db w)) <= 10000 ->
  (forall c, In c (document_chunks (db w)) -> matches (sq_query query) c = true ->
             has_owner (documents (db w)) (c_document_id c)) ->
  let hits := List.map (scored (sq_query query))
                (List.filter (matches (sq_query query)) (document_chunks (db w))) in
  let ranked := firstn (Z.to_nat (sq_limit query)) (sort_by_score hits) in
  exists results w',
    semantic_search env query user w = (Return results, w')
    /\ documents (db w') = documents (db w)
    /\ document_chunks (db w') = document_chunks (db w)
    /\ Forall2 (entry_of (documents (db w))) ranked results
    /\ Permutation (sort_by_score hits) hits
    /\ descending s_score (sort_by_score hits)
    /\ (forall q, List.filter (fun a => Qeq_bool (s_score a) q) (sort_by_score hits)
                  = List.filter (fun a => Qeq_bool (s_score a) q) hits)
    /\ (hits = [] -> results = []).
Proof.
  intros Hrel Hlimit Hcap Howner hits ranked.
  destruct (semantic_search_run query user w Hrel) as (w' & Hrun & Hdocs & Hchunks).
  unfold to_list in Hrun. rewrite List.firstn_all2 in Hrun by (unfold len in Hcap; lia).
  rewrite search_hits_filter, py_prefix_nonneg in Hrun by exact Hlimit.
  fold hits ranked in Hrun.
  exists (results_with_filenames (documents (db w)) ranked), w'.
  split; [exact Hrun|]. split; [exact Hdocs|]. split; [exact Hchunks|].
  destruct (sort_by_score_spec hits) as (Hperm & Hdesc & Hstable).
  split; [|split; [exact Hperm | split; [exact Hdesc | split; [exact Hstable|]]]].
  - assert (Hin : forall s, In s ranked -> has_owner (documents (db w)) (s_document_id s)).
    { intros s Hs. apply In_firstn in Hs.
      apply (Permutation_in _ Hperm) in Hs.
      apply List.in_map_iff in Hs as (c & <- & Hc).
      apply List.filter_In in Hc as (Hc & Hm). now apply Howner. }
    clearbody ranked. clear Hrun.
    induction ranked as [|s ranked IH]; [constructor|].
    unfold results_with_filenames. cbn [List.map List.concat].
    destruct (Hin s (or_introl eq_refl)) as (doc & Hdoc). rewrite Hdoc.
    cbn [List.app]. constructor.
    + unfold entry_of, result_entry. cbn.
      split; [reflexivity|]. split; [now exists doc|].
      split; [now rewrite py_prefix_nonneg | reflexivity].
    + apply IH. intros s' Hs'. apply Hin. now right.
  - intros Hnone. subst ranked. rewrite Hnone. cbn. now rewrite List.firstn_nil.
Qed.

(** *** Chat *)

Lemma collect_sources_run chunks :
  reliable env -> forall w,
  exists w', collect_sources env chunks w
             = (Return (sources_of (documents (db w)) chunks), w')
    /\ db w' = db w.
Proof.
  intros Hrel. induction chunks as [|s chunks IH]; intros w.
  - exists w. now cbn.
  - cbn [collect_sources]. unfold sources_of. cbn [List.map List.concat].
    fold (sources_of (documents (db w)) chunks).
    destruct (Qgtb (s_score s) 0).
    + erewrite bind_run by (apply db_call_run, Hrel). cbn [fst snd].
      destruct (IH (set_db (tick_db w) (db w))) as (w' & Hrun & Hdb).
      erewrite bind_run by exact Hrun.
      exists w'. split; [|exact Hdb]. unfold ret.
      now destruct (find_document (s_document_id s) (documents (db w))).
    + apply IH.
Qed.

Lemma chat_session_run message w :
  exists w0,
    match cm_session_id message with
    | Some s => if truthy s then ret s else new_uuid env
    | None => new_uuid env
    end w = (Return (chat_session env message w), w0)
    /\ db w0 = db w.
Proof.
  unfold chat_session. destruct (cm_session_id message) as [s|].
  - destruct (truthy s); eexists; split; reflexivity.
  - eexists; split; reflexivity.
Qed.










(** *** The stored keywords are not read *)

Lemma blind_result {A} (m : M A) w :
  keyword_blind m -> fst (m w) = fst (m (erase_world w)).
Proof. intros H. now rewrite H. Qed.

Lemma blind_ret {A} (a : A) : keyword_blind (ret a).
Proof. intros w. reflexivity. Qed.

Lemma blind_raise {A} e : keyword_blind (@raise A e).
Proof. intros w. reflexivity. Qed.

Lemma blind_bind {A B} (m : M A) (k : A -> M B) :
  keyword_blind m -> (forall a, keyword_blind (k a)) -> keyword_blind (bind m k).
Proof.
  intros Hm Hk w. unfold bind. rewrite Hm.
  destruct (m w) as [[a|e] w']; cbn [fst snd]; [apply Hk | reflexivity].
Qed.

Lemma blind_new_uuid : keyword_blind (new_uuid env).
Proof. intros w. reflexivity. Qed.

Lemma blind_now : keyword_blind (now_iso env).
Proof. intros w. reflexivity. Qed.

(** A database call whose function commutes with the blanking. *)
Lemma blind_db_call {A} (f : Db -> A * Db) :
  (forall d, f (erase_db d) = (fst (f d), erase_db (snd (f d)))) ->
  keyword_blind (db_call env f).
Proof.
  intros Hf w. unfold db_call. cbn [erase_world set_db db db_calls].
  destruct (db_error env (db_calls w)); [reflexivity|].
  rewrite Hf. now destruct (f (db w)).
Qed.

(** Reading the chunks, when what follows does not depend on their keywords. *)
Lemma blind_read_chunks {B} n (k : list Chunk -> M B) :
  (forall chunks, k (List.map erase_chunk chunks) = k chunks) ->
  (forall chunks, keyword_blind (k chunks)) ->
  keyword_blind (bind (db_call env (fun d => (to_list n (document_chunks d), d))) k).
Proof.
  intros Hk Hblind w. unfold bind, db_call.
  cbn [erase_world set_db db db_calls].
  destruct (db_error env (db_calls w)); [reflexivity|].
  cbn [erase_db with_chunks document_chunks]. unfold to_list.
  rewrite List.firstn_map, Hk. apply (Hblind _ (set_db (tick_db w) (db w))).
Qed.

Lemma blind_log_audit a b c d e : keyword_blind (log_audit env a b c d e).
Proof.
  unfold log_audit.
  apply blind_bind; [apply blind_new_uuid | intros id].
  apply blind_bind; [apply blind_now | intros t].
  apply blind_db_call. intros x. reflexivity.
Qed.

Lemma blind_attach_filenames ranked : keyword_blind (attach_filenames env ranked).
Proof.
  induction ranked as [|s ranked IH]; [apply blind_ret|].
  cbn [attach_filenames].
  apply blind_bind; [apply blind_db_call; intros d; reflexivity | intros doc].
  apply blind_bind; [exact IH | intros tail]. apply blind_ret.
Qed.

Lemma blind_collect_sources chunks : keyword_blind (collect_sources env chunks).
Proof.
  induction chunks as [|s chunks IH]; [apply blind_ret|].
  cbn [collect_sources]. destruct (Qgtb (s_score s) 0); [|exact IH].
  apply blind_bind; [apply blind_db_call; intros d; reflexivity | intros doc].
  apply blind_bind; [exact IH | intros tail]. apply blind_ret.
Qed.

Lemma search_hits_erase query chunks :
  search_hits query (List.map erase_chunk chunks) = search_hits query chunks.
Proof. unfold search_hits. now rewrite List.map_map. Qed.

Lemma score_chunks_erase message chunks :
  score_chunks message (List.map erase_chunk chunks) = score_chunks message chunks.
Proof. unfold score_chunks. now rewrite List.map_map. Qed.

Lemma blind_semantic_search query user : keyword_blind (semantic_search env query user).
Proof.
  unfold semantic_search.
  apply blind_bind; [apply blind_new_uuid | intros id].
  apply blind_bind; [apply blind_now | intros t].
  apply blind_bind; [apply blind_db_call; intros d; reflexivity | intros _].
  apply blind_read_chunks.
  - intros chunks. cbv beta. now rewrite search_hits_erase.
  - intros chunks. cbv zeta.
    apply blind_bind; [apply blind_attach_filenames | intros final].
    apply blind_bind; [apply blind_log_audit | intros _]. apply blind_ret.
Qed.

Lemma blind_rag_chat message user : keyword_blind (rag_chat env message user).
Proof.
  unfold rag_chat. apply blind_bind.
  { destruct (cm_session_id message) as [s|];
      [destruct (truthy s); [apply blind_ret|] |]; apply blind_new_uuid. }
  intros session. apply blind_read_chunks.
  - intros chunks. cbv beta. unfold top_chunks_of.
    now rewrite score_chunks_erase.
  - intros chunks. cbv zeta.
    apply blind_bind; [apply blind_db_call; intros d; reflexivity | intros history].
    destruct (llm_send_message _ _ _) as [answer|err]; [|apply blind_raise].
    apply blind_bind; [apply blind_now | intros t].
    apply blind_bind; [apply blind_new_uuid | intros id1].
    apply blind_bind; [apply blind_db_call; intros d; reflexivity | intros _].
    apply blind_bind; [apply blind_new_uuid | intros id2].
    apply blind_bind; [apply blind_db_call; intros d; reflexivity | intros _].
    apply blind_bind; [apply blind_new_uuid | intros id3].
    apply blind_bind; [apply blind_db_call; intros d; reflexivity | intros _].
    apply blind_bind; [apply blind_collect_sources | intros sources].
    apply blind_ret.
Qed.

(** C10.  Search and chat never read the stored [keywords] of a chunk: on
    two stores that differ only in those fields (with any database
    failures, the same in both runs) the search returns the same results
    or raises the same error, and the chat builds the same context and
    returns the same response and sources. *)
Theorem keywords_never_read (query : SearchQuery) (message : ChatMessage)
    (user : User) (w1 w2 : World) :
  erase_world w1 = erase_world w2 ->
  fst (semantic_search env query user w1) = fst (semantic_search env query user w2)
  /\ fst (rag_chat env message user w1) = fst (rag_chat env message user w2)
  /\ context_of (top_chunks_of (cm_message message)
                   (to_list 10000 (document_chunks (db w1))))
     = context_of (top_chunks_of (cm_message message)
                     (to_list 10000 (document_chunks (db w2)))).
Proof.
  intros Hsame.
  pose proof (blind_semantic_search query user) as Hs.
  pose proof (blind_rag_chat message user) as Hc.
  split; [|split].
  - rewrite (blind_result _ w1 Hs), (blind_result _ w2 Hs). now rewrite Hsame.
  - rewrite (blind_result _ w1 Hc), (blind_result _ w2 Hc). now rewrite Hsame.
  - assert (He : List.map erase_chunk (document_chunks (db w1))
                 = List.map erase_chunk (document_chunks (db w2)))
      by exact (f_equal (fun w => document_chunks (db w)) Hsame).
    unfold top_chunks_of, to_list.
    rewrite <- (score_chunks_erase _ (firstn _ (document_chunks (db w1)))).
    rewrite <- (score_chunks_erase _ (firstn _ (document_chunks (db w2)))).
    now rewrite <- !List.firstn_map, He.
Qed.

End HandlerProperties.

(** *** What a normal return tells *)

Section Inversion.
Context {U : UnicodeData}.
Variable env : Env.

Lemma bind_return_inv {A B} (m : M A) (k : A -> M B) w b w' :
  bind m k w = (Return b, w') ->
  exists a w1, m w = (Return a, w1) /\ k a w1 = (Return b, w').
Proof.
  unfold bind. destruct (m w) as [[a|e] w1]; [|discriminate].
  intros H. now exists a, w1.
Qed.

Lemma db_call_return_inv {A} (f : Db -> A * Db) w a w' :
  db_call env f w = (Return a, w') ->
  a = fst (f (db w)) /\ db w' = snd (f (db w)).
Proof.
  unfold db_call. destruct (db_error env (db_calls w)); [discriminate|].
  destruct (f (db w)) as [a0 d]. intros H. injection H as <- <-. now cbn.
Qed.

Lemma In_py_slice {A} (x : A) l a b : In x (py_slice l a b) -> In x l.
Proof.
  unfold py_slice. intros H. apply In_firstn in H.
  rewrite <- (List.firstn_skipn (Z.to_nat (slice_index (len l) a)) l).
  apply List.in_or_app. now right.
Qed.

Lemma attach_filenames_ids ranked : forall w rs w',
  attach_filenames env ranked w = (Return rs, w') ->
  forall r, In r rs -> exists s, In s ranked /\ s_document_id s = sr_document_id r.
Proof.
  induction ranked as [|s ranked IH]; intros w rs w' H r Hr.
  - cbn in H. injection H as <- _. destruct Hr.
  - cbn [attach_filenames] in H.
    apply bind_return_inv in H as (doc & w1 & _ & H).
    apply bind_return_inv in H as (tail & w2 & Htail & H).
    injection H as <- _.
    assert (Htl : In r tail -> exists s', In s' (s :: ranked)
                                        /\ s_document_id s' = sr_document_id r).
    { intros Hin. destruct (IH _ _ _ Htail r Hin) as (s' & Hs' & Hid).
      exists s'. split; [now right | exact Hid]. }
    destruct doc as [doc|]; [|now apply Htl].
    destruct Hr as [<-|Hr]; [|now apply Htl].
    exists s. split; [now left | reflexivity].
Qed.

(** Whatever the environment, every entry a search returns refers to a
    chunk of the store it ran on. *)
Lemma semantic_search_ids query user w rs w' :
  semantic_search env query user w = (Return rs, w') ->
  forall r, In r rs ->
  exists c, In c (document_chunks (db w)) /\ c_document_id c = sr_document_id r.
Proof.
  unfold semantic_search. intros H r Hr.
  apply bind_return_inv in H as (id & w1 & H1 & H). injection H1 as _ <-.
  apply bind_return_inv in H as (t & w2 & H2 & H). injection H2 as _ <-.
  apply bind_return_inv in H as (u & w3 & H3 & H).
  apply db_call_return_inv in H3 as (_ & Hdb3). cbn in Hdb3.
  apply bind_return_inv in H as (chunks & w4 & H4 & H).
  apply db_call_return_inv in H4 as (-> & _). cbn [fst].
  rewrite Hdb3 in H. cbn [document_chunks with_queries] in H.
  apply bind_return_inv in H as (final & w5 & H5 & H).
  apply bind_return_inv in H as (u' & w6 & _ & H). injection H as <- _.
  destruct (attach_filenames_ids _ _ _ _ H5 r Hr) as (s & Hs & Hid).
  apply In_py_slice in Hs.
  apply (Permutation_in _ (proj1 (sort_by_score_spec _))) in Hs.
  rewrite search_hits_filter in Hs.
  apply List.in_map_iff in Hs as (c & <- & Hc).
  apply List.filter_In in Hc as (Hc & _). apply In_firstn in Hc.
  now exists c.
Qed.

End Inversion.

(** *** Delete *)

Lemma delete_chunks_of_none doc_id chunks c :
  In c (delete_chunks_of doc_id chunks) -> c_document_id c <> doc_id.
Proof.
  unfold delete_chunks_of, str_eqb. intros H.
  apply List.filter_In in H as (_ & H). apply negb_true_iff in H.
  now apply bool_decide_eq_false in H.
Qed.

Lemma find_document_id id docs doc :
  find_document id docs = Some doc -> d_id doc = id.
Proof.
  unfold find_document, has_id, str_eqb. intros H.
  apply List.find_some in H as (_ & H). now apply bool_decide_eq_true in H.
Qed.

(** With distinct ids, [delete_one] leaves no document of that id. *)
Lemma delete_one_gone id docs :
  List.NoDup (List.map d_id docs) -> find_document id (delete_one id docs) = None.
Proof.
  unfold find_document. induction docs as [|doc docs IH]; intros Hnd; [reflexivity|].
  cbn [List.map] in Hnd. apply List.NoDup_cons_iff in Hnd as (Hnotin & Hnd).
  cbn [delete_one]. destruct (has_id id doc) eqn:E.
  - unfold has_id, str_eqb in E. apply bool_decide_eq_true in E. subst id.
    destruct (List.find (has_id (d_id doc)) docs) as [doc'|] eqn:F; [|reflexivity].
    exfalso. apply Hnotin. apply List.in_map_iff.
    apply List.find_some in F as (Hin & F).
    unfold has_id, str_eqb in F. apply bool_decide_eq_true in F. now exists doc'.
  - cbn [List.find]. rewrite E. now apply IH.
Qed.

Section DeleteProperties.
Context {U : UnicodeData}.
Variable env : Env.

(** C8 (as amended).  With a database that does not fail:
    [delete_document] raises 404 when no stored document has the id and 403
    when the caller is neither an admin nor the uploader, and changes
    nothing in either case; otherwise it returns, having removed the
    document (the first of that id; none is left when ids are distinct) and
    every chunk whose [document_id] is that id, and no later search
    returns an entry that refers to the id. *)
Theorem delete_document_cascades (doc_id : str) (user : User) (w : World) :
  reliable env ->
  (find_document doc_id (documents (db w)) = None ->
   exists w', delete_document env doc_id user w
              = (Raise (HTTPException 404 (lit "Document not found")), w')
     /\ db w' = db w)
  /\ (forall doc, find_document doc_id (documents (db w)) = Some doc ->
       may_delete user doc = false ->
       exists w', delete_document env doc_id user w
                  = (Raise (HTTPException 403
                       (lit "Not authorized to delete this document")), w')
         /\ db w' = db w)
  /\ (forall doc, find_document doc_id (documents (db w)) = Some doc ->
       may_delete user doc = true ->
       exists w', delete_document env doc_id user w
                  = (Return (lit "Document deleted successfully"), w')
         /\ documents (db w') = delete_one doc_id (documents (db w))
         /\ (List.NoDup (List.map d_id (documents (db w))) ->
             find_document doc_id (documents (db w')) = None)
         /\ document_chunks (db w')
            = delete_chunks_of doc_id (document_chunks (db w))
         /\ (forall c, In c (document_chunks (db w')) -> c_document_id c <> doc_id)
         /\ (forall env' query user' rs w'',
               semantic_search env' query user' w' = (Return rs, w'') ->
               List.Forall (fun r => sr_document_id r <> doc_id) rs)).
Proof.
  intros Hrel. unfold delete_document. split; [|split].
  - intros Hnone. erewrite bind_run by (apply db_call_run, Hrel).
    cbn [fst snd]. rewrite Hnone. eexists. split; reflexivity.
  - intros doc Hdoc Hguard. erewrite bind_run by (apply db_call_run, Hrel).
    cbn [fst snd]. rewrite Hdoc.
    unfold may_delete in Hguard. apply orb_false_iff in Hguard as (-> & ->).
    cbn [negb andb]. eexists. split; reflexivity.
  - intros doc Hdoc Hguard. erewrite bind_run by (apply db_call_run, Hrel).
    cbn [fst snd]. rewrite Hdoc.
    unfold may_delete in Hguard.
    replace (negb (str_eqb (u_role user) (lit "admin"))
             && negb (str_eqb (d_uploaded_by doc) (u_id user))) with false
      by (symmetry; rewrite <- negb_orb, Hguard; reflexivity).
    erewrite bind_run by (apply db_call_run, Hrel).
    erewrite bind_run by (apply db_call_run, Hrel).
    match goal with |- context [bind (log_audit env ?a ?b ?c ?d ?e) _ ?w1] =>
      destruct (log_audit_run env a b c d e w1 (Hrel _)) as (w2 & Hlog & Hd2 & Hc2 & _)
    end.
    erewrite bind_run by exact Hlog.
    exists w2. cbn in Hd2, Hc2.
    split; [reflexivity|]. split; [exact Hd2|].
    split; [intros Hnd; rewrite Hd2; now apply delete_one_gone|].
    split; [exact Hc2|].
    assert (Hgone : forall c, In c (document_chunks (db w2)) -> c_document_id c <> doc_id)
      by (intros c Hc; rewrite Hc2 in Hc; now apply delete_chunks_of_none in Hc).
    split; [exact Hgone|].
    intros env' query user' rs w'' Hsearch. apply List.Forall_forall. intros r Hr.
    destruct (semantic_search_ids env' query user' w2 rs w'' Hsearch r Hr)
      as (c & Hc & <-).
    now apply Hgone.
Qed.

End DeleteProperties.

Lemma env_ok_reliable : reliable env_ok.
Proof. intros n. reflexivity. Qed.

(** A boolean check of [has_owner] over a collection. *)
Lemma owners_checked (docs : list Document) (chunks : list Chunk) :
  forallb (fun c => match find_document (c_document_id c) docs with
                    | Some _ => true | None => false end) chunks = true ->
  forall c, In c chunks -> has_owner docs (c_document_id c).
Proof.
  intros H c Hc. rewrite List.forallb_forall in H. specialize (H c Hc).
  unfold has_owner. destruct (find_document (c_document_id c) docs) as [doc|];
    [now exists doc | discriminate].
Qed.

Lemma semantic_search_ranked_witness :
  exists results w',
    @semantic_search ascii_only env_ok (query_cat 10) bob world_cats
    = (Return results, w')
    /\ Forall2 (entry_of (documents (db world_cats)))
         (firstn 10 (sort_by_score
            (List.map (@scored ascii_only (lit "cat"))
               (List.filter (@matches ascii_only (lit "cat"))
                  (document_chunks (db world_cats))))))
         results.
Proof.
  destruct (@semantic_search_ranked ascii_only env_ok (query_cat 10) bob world_cats)
    as (results & w' & Hrun & _ & _ & Hentries & _).
  - intros n. reflexivity.
  - cbn. lia.
  - vm_compute. discriminate.
  - intros c Hc _. revert c Hc. apply owners_checked. vm_compute. reflexivity.
  - exists results, w'. split; [exact Hrun | exact Hentries].
Defined.

Example semantic_search_cats :
  fst (@semantic_search ascii_only env_ok (query_cat 10) bob world_cats)
  = Return [ {| sr_document_id := uuid4 env_ok 0; sr_filename := lit "one.txt";
                sr_chunk_text := lit "cat sat mat"; sr_score := (1 # 3)%Q |};
             {| sr_document_id := uuid4 env_ok 3; sr_filename := lit "two.txt";
                sr_chunk_text := lit "cat ran far"; sr_score := (1 # 3)%Q |} ].
Proof. vm_compute. reflexivity. Qed.

(** C1 (as stated) fails for a negative limit: [results[:-1]] drops the
    last entry, so a limit of -1 returns one of the two matching chunks
    where a cut to the limit leaves none. *)
Lemma semantic_search_negative_limit :
  fst (@semantic_search ascii_only env_ok (query_cat (-1)) bob world_cats)
  = Return [ {| sr_document_id := uuid4 env_ok 0; sr_filename := lit "one.txt";
                sr_chunk_text := lit "cat sat mat"; sr_score := (1 # 3)%Q |} ]
  /\ @spec_ranked ascii_only (lit "cat") (-1) (db world_cats) = [].
Proof. split; vm_compute; reflexivity. Qed.


Example rag_chat_cats :
  fst (@rag_chat ascii_only echo_runtime env_ok chat_cat bob world_cats)
  = Return
      {| cr_response :=
           system_message_of
             (lit "[Document excerpt]: cat sat mat" ++ [10; 10]%N
              ++ lit "[Document excerpt]: cat ran far");
         cr_session_id := uuid4 env_ok 6;
         cr_sources :=
           [ {| src_document_id := uuid4 env_ok 0; src_filename := lit "one.txt";
                src_relevance := (1 # 3)%Q |};
             {| src_document_id := uuid4 env_ok 3; src_filename := lit "two.txt";
                src_relevance := (1 # 3)%Q |} ] |}.
Proof. vm_compute. reflexivity. Qed.


Lemma keywords_never_read_witness :
  fst (@semantic_search ascii_only env_ok (query_cat 10) bob world_cats)
  = fst (@semantic_search ascii_only env_ok (query_cat 10) bob world_cats_rekeyed)
  /\ fst (@rag_chat ascii_only echo_runtime env_ok chat_cat bob world_cats)
     = fst (@rag_chat ascii_only echo_runtime env_ok chat_cat bob world_cats_rekeyed).
Proof.
  destruct (@keywords_never_read ascii_only echo_runtime env_ok (query_cat 10)
              chat_cat bob world_cats world_cats_rekeyed) as (Hs & Hc & _).
  - vm_compute. reflexivity.
  - split; [exact Hs | exact Hc].
Defined.

Lemma delete_document_cascades_witness :
  exists w',
    delete_document env_ok (uuid4 env_ok 0) alice world_cats
    = (Return (lit "Document deleted successfully"), w')
    /\ document_chunks (db w')
       = delete_chunks_of (uuid4 env_ok 0) (document_chunks (db world_cats)).
Proof.
  destruct (@delete_document_cascades ascii_only env_ok (uuid4 env_ok 0) alice
              world_cats env_ok_reliable) as (_ & _ & H).
  edestruct H as (w' & Hrun & _ & _ & Hchunks & _).
  - vm_compute. reflexivity.
  - vm_compute. reflexivity.
  - exists w'. split; [exact Hrun | exact Hchunks].
Defined.

(** C8 (as stated) fails for a caller who is neither an admin nor the
    uploader: the document is known, nothing is deleted, and a later search
    still returns its chunk. *)
Lemma delete_document_not_owner :
  fst (delete_document env_ok (uuid4 env_ok 0) bob world_cats)
  = Raise (HTTPException 403 (lit "Not authorized to delete this document"))
  /\ db (snd (delete_document env_ok (uuid4 env_ok 0) bob world_cats))
     = db world_cats
  /\ fst (@semantic_search ascii_only env_ok (query_cat 1) bob
            (snd (delete_document env_ok (uuid4 env_ok 0) bob world_cats)))
     = Return [ {| sr_document_id := uuid4 env_ok 0; sr_filename := lit "one.txt";
                   sr_chunk_text := lit "cat sat mat"; sr_score := (1 # 3)%Q |} ].
Proof.
  split; [vm_compute; reflexivity|]. split; vm_compute; reflexivity.
Qed.

(** ** Upload *)

Lemma find_document_app_fresh id docs document :
  find_document id docs = None -> has_id id document = true ->
  find_document id (docs ++ [document]) = Some document.
Proof.
  unfold find_document. induction docs as [|d docs IH]; intros Hnone Hid.
  - cbn. now rewrite Hid.
  - cbn in Hnone |- *. destruct (has_id id d); [discriminate | now apply IH].
Qed.


Section UploadProperties.
Context {U : UnicodeData} {P : Parsers}.
Variable env : Env.

Lemma store_chunks_documents doc_id chunks : forall i w r w',
  store_chunks env doc_id i chunks w = (r, w') ->
  documents (db w') = documents (db w).
Proof.
  induction chunks as [|c chunks IH]; intros i w r w' H.
  - cbn in H. now injection H as _ <-.
  - cbn [store_chunks] in H. unfold bind at 1 2 3 in H.
    cbn [new_uuid now_iso] in H. unfold db_call in H. cbn [db_calls] in H.
    destruct (db_error env (db_calls w)).
    + now injection H as _ <-.
    + apply IH in H. exact H.
Qed.

Lemma log_audit_documents a b c d e w r w' :
  log_audit env a b c d e w = (r, w') -> documents (db w') = documents (db w).
Proof.
  unfold log_audit, bind, new_uuid, now_iso, db_call. cbn [db_calls].
  destruct (db_error env (db_calls w)); intros H; now injection H as _ <-.
Qed.

(** The [try] block either returns, with the document marked indexed, or
    raises, with the document untouched or already marked indexed. *)
Lemma process_document_outcome doc_id file user document w r w' :
  process_document env doc_id file user document w = (r, w') ->
  let n := len (chunk_text (extract_text_from_file (file_content file)
                              (file_content_type file) (file_filename file))) in
  let marked := update_one doc_id (set_status_and_count indexed n)
                  (documents (db w)) in
  (exists resp, r = Return resp /\ resp_status resp = indexed
                /\ resp_chunk_count resp = n /\ documents (db w') = marked)
  \/ (exists e, r = Raise e
                /\ (documents (db w') = documents (db w)
                    \/ documents (db w') = marked)).
Proof.
  intros H n marked. unfold process_document in H. cbv zeta in H.
  fold n in H. unfold bind at 1 in H.
  destruct (store_chunks env doc_id 0 _ w) as [[[]|e] w1] eqn:Hstore;
    apply store_chunks_documents in Hstore.
  2: { injection H as <- <-. right. exists e. split; [reflexivity|]. now left. }
  unfold bind at 1 in H. unfold db_call at 1 in H.
  destruct (db_error env (db_calls w1)) as [msg|].
  { injection H as <- <-. right. eexists. split; [reflexivity|]. now left. }
  cbn [documents with_documents] in H. rewrite Hstore in H. fold marked in H.
  unfold bind at 1 in H.
  match type of H with context [log_audit env ?a ?b ?c ?d ?e ?w2] =>
    destruct (log_audit env a b c d e w2) as [[[]|e'] w3] eqn:Hlog;
    apply log_audit_documents in Hlog; cbn in Hlog
  end.
  - injection H as <- <-. left. eexists. now repeat split.
  - injection H as <- <-. right. exists e'. split; [reflexivity|]. now right.
Qed.

(** The [except] block marks the document failed and raises the 500, unless
    its own database call fails. *)
Lemma processing_failed_outcome doc_id e w r w' :
  processing_failed env doc_id e w = (r, w') ->
  (exists msg, r = Raise (DriverError msg) /\ documents (db w') = documents (db w))
  \/ (r = Raise (HTTPException 500 (lit "Error processing document: " ++ exn_str e))
      /\ documents (db w')
         = update_one doc_id (set_status failed) (documents (db w))).
Proof.
  unfold processing_failed, bind, db_call.
  destruct (db_error env (db_calls w)) as [msg|]; intros H; injection H as <- <-.
  - left. now exists msg.
  - right. now split.
Qed.



End UploadProperties.



(** C5 fails in the code: the second of two chunk insertions raises
    (database call number 2); the document ends failed with [chunk_count]
    0, and one chunk of it is stored. *)
Lemma upload_failure_chunk_count :
  fst (@upload_document ascii_only failing_parsers (env_failing (Nat.eqb 2))
         big_file alice empty_world)
  = Raise (HTTPException 500
             (lit "Error processing document: connection lost"))
  /\ List.map (fun d => (d_id d, d_status d, d_chunk_count d))
       (documents (db (snd (@upload_document ascii_only failing_parsers
                              (env_failing (Nat.eqb 2)) big_file alice
                              empty_world))))
     = [(uuid4 env_ok 0, failed, 0)]
  /\ List.map (fun c => (c_document_id c, c_chunk_index c, len (c_text c)))
       (document_chunks (db (snd (@upload_document ascii_only failing_parsers
                                    (env_failing (Nat.eqb 2)) big_file alice
                                    empty_world))))
     = [(uuid4 env_ok 0, 0, 1000)].
Proof.
  split; [vm_compute; reflexivity|]. split; vm_compute; reflexivity.
Qed.

(* ================================================================== *)
(** * Further properties of the code *)
(* ================================================================== *)

(** ** Trimming *)

Lemma lstrip_split s :
  exists ws, s = ws ++ lstrip s /\ forallb is_space ws = true.
Proof.
  induction s as [|c s (ws & Hs & Hws)]; [now exists []|].
  cbn [lstrip]. destruct (is_space c) eqn:E.
  - exists (c :: ws). cbn. rewrite E, Hws. split; [now f_equal | reflexivity].
  - now exists [].
Qed.

Lemma lstrip_head s c r : lstrip s = c :: r -> is_space c = false.
Proof.
  induction s as [|x s IH]; [discriminate|].
  cbn [lstrip]. destruct (is_space x) eqn:E; [exact IH|].
  intros H. injection H as <- _. exact E.
Qed.

Lemma rstrip_split s :
  exists ws, s = rstrip s ++ ws /\ forallb is_space ws = true.
Proof.
  destruct (lstrip_split (rev s)) as (ws & Hs & Hws).
  exists (rev ws). split.
  - unfold rstrip. rewrite <- List.rev_app_distr, <- Hs.
    now rewrite List.rev_involutive.
  - rewrite List.forallb_forall in *. intros x Hx. apply Hws.
    now apply List.in_rev.
Qed.

Lemma strip_substring s : substring_of s (strip s).
Proof.
  destruct (lstrip_split s) as (ws1 & H1 & _).
  destruct (rstrip_split (lstrip s)) as (ws2 & H2 & _).
  exists ws1, ws2. fold (strip s) in H2. now rewrite <- H2.
Qed.

Lemma strip_trimmed s : trimmed (strip s).
Proof.
  split; intros c r H.
  - destruct (rstrip_split (lstrip s)) as (ws & Hl & _).
    fold (strip s) in Hl. rewrite H in Hl. cbn in Hl.
    exact (lstrip_head _ _ _ Hl).
  - unfold strip, rstrip in H.
    apply (f_equal (@rev N)) in H.
    rewrite List.rev_involutive, List.rev_app_distr in H. cbn in H.
    exact (lstrip_head _ _ _ H).
Qed.

Lemma strip_length s : (List.length (strip s) <= List.length s)%nat.
Proof.
  destruct (strip_substring s) as (pre & post & H).
  rewrite H at 2. rewrite !List.length_app. lia.
Qed.

Lemma strip_blank s : nonblank s = false -> strip s = [].
Proof.
  intros H. rewrite <- strip_truthy in H. now destruct (strip s).
Qed.

(** ** Chunks *)

Lemma window_substring text chunk_size start :
  substring_of text (window text chunk_size start).
Proof.
  unfold window, py_slice.
  set (m := Z.to_nat (slice_index (len text) start)).
  set (n := Z.to_nat _).
  exists (firstn m text), (skipn n (skipn m text)).
  now rewrite List.firstn_skipn, List.firstn_skipn.
Qed.

Lemma window_length text chunk_size start :
  0 <= start -> 0 < chunk_size ->
  len (window text chunk_size start) <= chunk_size.
Proof.
  intros Hs Hc. unfold window, py_slice, len.
  rewrite List.length_firstn. unfold slice_index.
  replace (start <? 0) with false by (symmetry; apply Z.ltb_ge; lia).
  replace (start + chunk_size <? 0) with false by (symmetry; apply Z.ltb_ge; lia).
  lia.
Qed.

Lemma substring_trans a b c :
  substring_of a b -> substring_of b c -> substring_of a c.
Proof.
  intros (p1 & q1 & ->) (p2 & q2 & ->).
  exists (p1 ++ p2), (q2 ++ q1). now rewrite <- !List.app_assoc.
Qed.

(** X1.  For [overlap < chunk_size] and a positive [chunk_size], every
    chunk [chunk_text] returns is a non-empty contiguous piece of the text
    that neither starts nor ends with whitespace and has at most
    [chunk_size] characters; there are at most as many chunks as windows. *)
Theorem chunk_text_chunks_wellformed (text : str) (chunk_size overlap : Z)
    (chunks : list str) :
  overlap < chunk_size -> 0 < chunk_size ->
  chunk_text_with text chunk_size overlap = Some chunks ->
  List.Forall (fun c => c <> [] /\ trimmed c /\ len c <= chunk_size
                        /\ substring_of text c) chunks
  /\ (List.length chunks <= window_count text chunk_size overlap)%nat.
Proof.
  intros Hlt Hpos H. unfold chunk_text_with in H.
  rewrite chunk_text_fuel_windows in H by lia. injection H as <-.
  assert (Hstarts : List.Forall (fun s => 0 <= s)
                      (window_starts text chunk_size overlap)).
  { unfold window_starts. apply List.Forall_forall. intros s Hs.
    apply List.in_map_iff in Hs as (k & <- & _). nia. }
  replace (window_count text chunk_size overlap)
    with (List.length (window_starts text chunk_size overlap))
    by (unfold window_starts; now rewrite List.length_map, List.length_seq).
  unfold chunks_of_windows.
  induction (window_starts text chunk_size overlap) as [|s starts IH].
  - split; [constructor | cbn; lia].
  - apply List.Forall_cons_iff in Hstarts as (Hs & Hstarts).
    destruct (IH Hstarts) as (IH1 & IH2).
    cbn [List.map List.concat]. rewrite List.length_app. unfold window_chunk at 1 3.
    destruct (truthy (strip (window text chunk_size s))) eqn:Et.
    + split; [|cbn in *; lia]. cbn [List.app]. constructor; [|exact IH1].
      split; [now destruct (strip (window text chunk_size s))|].
      split; [apply strip_trimmed|]. split.
      * pose proof (strip_length (window text chunk_size s)).
        pose proof (window_length text chunk_size s Hs Hpos). unfold len in *. lia.
      * eapply substring_trans; [apply window_substring | apply strip_substring].
    + split; [exact IH1 | cbn in *; lia].
Qed.

Lemma chunk_text_chunks_wellformed_witness :
  List.Forall (fun c => c <> [] /\ trimmed c /\ len c <= 5
                        /\ substring_of (lit "hello  big world") c)
    [lit "hello"; lit "lo  b"; lit "big"; lit "g wor"; lit "orld"; lit "d"]
  /\ (6 <= window_count (lit "hello  big world") 5 2)%nat.
Proof.
  apply (chunk_text_chunks_wellformed (lit "hello  big world") 5 2);
    [lia | lia | vm_compute; reflexivity].
Defined.

(** ** Extractor output *)

(** X2.  Whatever the format and the bytes, the text the extractor returns
    neither starts nor ends with whitespace; it is empty when the parser of
    a structured format raises, and when the extracted text holds nothing
    but whitespace. *)
Theorem extract_text_trimmed `{P : Parsers} (file_content : list byte)
    (content_type filename : str) :
  trimmed (extract_text_from_file file_content content_type filename)
  /\ (extract_raw file_content content_type filename = None ->
      extract_text_from_file file_content content_type filename = [])
  /\ (forall text, extract_raw file_content content_type filename = Some text ->
        nonblank text = false ->
        extract_text_from_file file_content content_type filename = []).
Proof.
  unfold extract_text_from_file. split; [apply strip_trimmed|]. split.
  - now intros ->.
  - intros text -> Hblank. now apply strip_blank.
Qed.

(** ** Scores and shared keywords *)

Lemma Qgtb_ratio (a b : nat) : Qgtb (ratio a b) 0 = true <-> (0 < a)%nat.
Proof.
  unfold Qgtb, ratio. rewrite negb_true_iff.
  destruct (Qle_bool (Z.of_nat a # Pos.of_nat b) 0) eqn:E.
  - apply Qle_bool_iff in E. unfold Qle in E. cbn in E.
    split; [discriminate | lia].
  - split; [|reflexivity]. intros _.
    destruct a as [|a]; [|lia]. exfalso.
    assert (H : (Z.of_nat 0 # Pos.of_nat b <= 0)%Q) by (unfold Qle; cbn; lia).
    apply Qle_bool_iff in H. congruence.
Qed.

Section ScoreProperties.
Context {U : UnicodeData}.

Lemma elem_of_keyword_set text w :
  w ∈ keyword_set text <-> In w (get_text_keywords text).
Proof.
  unfold keyword_set. now rewrite elem_of_list_to_set, list_elem_of_In.
Qed.

(** X3.  The similarity of two texts is above 0 exactly when they share a
    keyword. *)
Theorem similarity_positive_iff_shared_keyword (text1 text2 : str) :
  Qgtb (calculate_text_similarity text1 text2) 0 = true
  <-> exists w, In w (get_text_keywords text1) /\ In w (get_text_keywords text2).
Proof.
  rewrite similarity_jaccard.
  destruct ((size (keyword_set text1) =? 0)%nat
            || (size (keyword_set text2) =? 0)%nat) eqn:E.
  - split; [discriminate|]. intros (w & H1 & H2). exfalso.
    apply orb_true_iff in E as [E|E]; apply Nat.eqb_eq, size_empty_iff in E;
      [apply elem_of_keyword_set in H1 | apply elem_of_keyword_set in H2];
      set_solver.
  - rewrite Qgtb_ratio. split.
    + intros Hpos. apply size_pos_elem_of in Hpos as (w & Hw).
      apply elem_of_intersection in Hw as (H1 & H2).
      exists w. now rewrite <- !elem_of_keyword_set.
    + intros (w & H1 & H2). apply elem_of_keyword_set in H1, H2.
      assert (Hne : size (keyword_set text1 ∩ keyword_set text2) <> 0%nat).
      { apply size_non_empty_iff. set_solver. }
      lia.
Qed.

(** X4.  The similarity of two texts is 1 exactly when they have the same
    keywords (as sets) and at least one. *)
Theorem similarity_one_iff_same_keywords (text1 text2 : str) :
  (calculate_text_similarity text1 text2 == 1)%Q
  <-> (keyword_set text1 = keyword_set text2 /\ get_text_keywords text1 <> []).
Proof.
  rewrite similarity_jaccard.
  destruct (size (keyword_set text1) =? 0)%nat eqn:E1.
  { cbn [orb]. apply Nat.eqb_eq, keyword_set_empty in E1.
    split; [intros H; discriminate H | intros (_ & H); congruence]. }
  destruct (size (keyword_set text2) =? 0)%nat eqn:E2.
  { cbn [orb]. apply Nat.eqb_neq in E1. apply Nat.eqb_eq in E2.
    split; [intros H; discriminate H|]. intros (Heq & _).
    rewrite Heq in E1. contradiction. }
  cbn [orb]. apply Nat.eqb_neq in E1, E2.
  set (A := keyword_set text1) in *. set (B := keyword_set text2) in *.
  assert (Hsub : A ∩ B ⊆ A ∪ B) by set_solver.
  assert (Hpos : (0 < size (A ∪ B))%nat).
  { assert (size A <= size (A ∪ B))%nat by (apply subseteq_size; set_solver). lia. }
  assert (Hratio : (ratio (size (A ∩ B)) (size (A ∪ B)) == 1)%Q
                   <-> size (A ∩ B) = size (A ∪ B)).
  { unfold ratio, Qeq. cbn [Qnum Qden]. rewrite Z.mul_1_r, Z.mul_1_l.
    replace (Z.pos (Pos.of_nat (size (A ∪ B)))) with (Z.of_nat (size (A ∪ B)))
      by (rewrite <- (Nat2Pos.id (size (A ∪ B))) at 1 by lia;
          now rewrite positive_nat_Z).
    lia. }
  rewrite Hratio. split.
  - intros Hsize.
    assert (Heq : A ∩ B = A ∪ B) by (apply set_subseteq_size_eq; [exact Hsub | lia]).
    split; [set_solver|].
    intros Hnil. apply E1. subst A. now apply keyword_set_empty.
  - intros (Heq & _). rewrite <- Heq.
    now rewrite (idemp_L (∩)), (idemp_L (∪)).
Qed.

(** *** Case *)

Lemma lower_from_ascii s : forall before,
  ascii_text s -> lower_from before s = List.map ascii_lower s.
Proof.
  induction s as [|c s IH]; intros before Hs; [reflexivity|].
  apply List.Forall_cons_iff in Hs as (Hc & Hs).
  cbn [lower_from List.map]. unfold lower_char.
  apply N.ltb_lt in Hc. rewrite Hc. cbn [List.app]. now rewrite IH.
Qed.

Lemma ascii_lower_not_upper c : is_ascii_upper (ascii_lower c) = false.
Proof.
  unfold ascii_lower. destruct (is_ascii_upper c) eqn:E; [|exact E].
  unfold is_ascii_upper in *. apply andb_true_iff in E as (H1 & H2).
  apply N.leb_le in H1, H2. apply andb_false_iff. right. apply N.leb_gt. lia.
Qed.

Lemma runs_of_elements p s : forall cur w c,
  In w (runs_of p cur s) -> In c w -> In c (cur ++ s).
Proof.
  induction s as [|x s IH]; intros cur w c Hw Hc.
  - cbn in Hw. unfold flush in Hw.
    destruct (truthy cur); [|destruct Hw].
    destruct Hw as [<-|[]]. now rewrite List.app_nil_r.
  - cbn [runs_of] in Hw. destruct (p x).
    + specialize (IH _ _ _ Hw Hc). now rewrite <- List.app_assoc in IH.
    + apply List.in_app_or in Hw as [Hw|Hw].
      * unfold flush in Hw. destruct (truthy cur); [|destruct Hw].
        destruct Hw as [<-|[]]. apply List.in_or_app. now left.
      * specialize (IH _ _ _ Hw Hc). cbn in IH.
        apply List.in_or_app. right. now right.
Qed.

Lemma ascii_text_checked s :
  forallb (fun c => (c <? 128)%N) s = true -> ascii_text s.
Proof.
  intros H. apply List.Forall_forall. intros c Hc.
  rewrite List.forallb_forall in H. now apply N.ltb_lt, H.
Qed.

(** X5.  On ASCII texts keyword extraction ignores case: two texts that
    agree up to the case of their letters have the same keywords, hence the
    same similarity to any other text, and every keyword is made of
    lower-case letters. *)
Theorem keywords_ignore_ascii_case (text1 text2 : str) :
  ascii_text text1 -> ascii_text text2 ->
  List.map ascii_lower text1 = List.map ascii_lower text2 ->
  get_text_keywords text1 = get_text_keywords text2
  /\ (forall other, calculate_text_similarity text1 other
                    = calculate_text_similarity text2 other)
  /\ List.Forall (fun w => forallb is_ascii_lower w = true)
       (get_text_keywords text1).
Proof.
  intros H1 H2 Hsame.
  assert (Hkw : get_text_keywords text1 = get_text_keywords text2).
  { unfold get_text_keywords, str_lower.
    now rewrite (lower_from_ascii text1 [] H1), (lower_from_ascii text2 [] H2), Hsame. }
  split; [exact Hkw|]. split.
  - intros other. unfold calculate_text_similarity. now rewrite Hkw.
  - rewrite get_text_keywords_runs. unfold str_lower.
    rewrite (lower_from_ascii text1 [] H1).
    apply List.Forall_forall. intros w Hw.
    apply List.filter_In in Hw as (Hw & _).
    apply List.filter_In in Hw as (Hw & Hrun).
    unfold is_keyword_run in Hrun. apply andb_true_iff in Hrun as (Hletters & _).
    rewrite List.forallb_forall in *. intros c Hc.
    pose proof (runs_of_elements _ _ _ _ _ Hw Hc) as Hin. cbn in Hin.
    apply List.in_map_iff in Hin as (x & <- & _).
    specialize (Hletters _ Hc). unfold is_ascii_letter in Hletters.
    now rewrite ascii_lower_not_upper in Hletters.
Qed.

End ScoreProperties.

Lemma keywords_ignore_ascii_case_witness :
  @get_text_keywords ascii_only (lit "The CAT Sat on a Mat")
  = @get_text_keywords ascii_only (lit "the cat sat ON A MAT").
Proof.
  apply (@keywords_ignore_ascii_case ascii_only
           (lit "The CAT Sat on a Mat") (lit "the cat sat ON A MAT")).
  - apply ascii_text_checked. vm_compute. reflexivity.
  - apply ascii_text_checked. vm_compute. reflexivity.
  - vm_compute. reflexivity.
Defined.

(** ** Search and chat leave the corpus alone *)

Section ReadOnly.
Context {U : UnicodeData} {R : Runtime}.
Variable env : Env.

Lemma keeps_ret {A} (a : A) : keeps_corpus (ret a).
Proof. intros w. now split. Qed.

Lemma keeps_raise {A} e : keeps_corpus (@raise A e).
Proof. intros w. now split. Qed.

Lemma keeps_bind {A B} (m : M A) (k : A -> M B) :
  keeps_corpus m -> (forall a, keeps_corpus (k a)) -> keeps_corpus (bind m k).
Proof.
  intros Hm Hk w. unfold bind. specialize (Hm w).
  destruct (m w) as [[a|e] w1]; cbn [snd] in *; [|exact Hm].
  destruct (Hk a w1) as (H1 & H2). destruct Hm as (H3 & H4).
  split; congruence.
Qed.

Lemma keeps_new_uuid : keeps_corpus (new_uuid env).
Proof. intros w. now split. Qed.

Lemma keeps_now : keeps_corpus (now_iso env).
Proof. intros w. now split. Qed.

Lemma keeps_db_call {A} (f : Db -> A * Db) :
  (forall d, documents (snd (f d)) = documents d
             /\ document_chunks (snd (f d)) = document_chunks d) ->
  keeps_corpus (db_call env f).
Proof.
  intros Hf w. unfold db_call.
  destruct (db_error env (db_calls w)); [now split|].
  specialize (Hf (db w)). now destruct (f (db w)).
Qed.

Lemma keeps_log_audit a b c d e : keeps_corpus (log_audit env a b c d e).
Proof.
  unfold log_audit.
  apply keeps_bind; [apply keeps_new_uuid | intros id].
  apply keeps_bind; [apply keeps_now | intros t].
  apply keeps_db_call. intros x. now split.
Qed.

Lemma keeps_attach_filenames ranked : keeps_corpus (attach_filenames env ranked).
Proof.
  induction ranked as [|s ranked IH]; [apply keeps_ret|].
  cbn [attach_filenames].
  apply keeps_bind; [apply keeps_db_call; intros d; now split | intros doc].
  apply keeps_bind; [exact IH | intros tail]. apply keeps_ret.
Qed.

Lemma keeps_collect_sources chunks : keeps_corpus (collect_sources env chunks).
Proof.
  induction chunks as [|s chunks IH]; [apply keeps_ret|].
  cbn [collect_sources]. destruct (Qgtb (s_score s) 0); [|exact IH].
  apply keeps_bind; [apply keeps_db_call; intros d; now split | intros doc].
  apply keeps_bind; [exact IH | intros tail]. apply keeps_ret.
Qed.

Lemma keeps_semantic_search query user : keeps_corpus (semantic_search env query user).
Proof.
  unfold semantic_search.
  apply keeps_bind; [apply keeps_new_uuid | intros id].
  apply keeps_bind; [apply keeps_now | intros t].
  apply keeps_bind; [apply keeps_db_call; intros d; now split | intros _].
  apply keeps_bind; [apply keeps_db_call; intros d; now split | intros chunks].
  cbv zeta.
  apply keeps_bind; [apply keeps_attach_filenames | intros final].
  apply keeps_bind; [apply keeps_log_audit | intros _]. apply keeps_ret.
Qed.

Lemma keeps_rag_chat message user : keeps_corpus (rag_chat env message user).
Proof.
  unfold rag_chat. apply keeps_bind.
  { destruct (cm_session_id message) as [s|];
      [destruct (truthy s); [apply keeps_ret|] |]; apply keeps_new_uuid. }
  intros session.
  apply keeps_bind; [apply keeps_db_call; intros d; now split | intros chunks].
  cbv zeta.
  apply keeps_bind; [apply keeps_db_call; intros d; now split | intros history].
  destruct (llm_send_message _ _ _) as [answer|err]; [|apply keeps_raise].
  apply keeps_bind; [apply keeps_now | intros t].
  apply keeps_bind; [apply keeps_new_uuid | intros id1].
  apply keeps_bind; [apply keeps_db_call; intros d; now split | intros _].
  apply keeps_bind; [apply keeps_new_uuid | intros id2].
  apply keeps_bind; [apply keeps_db_call; intros d; now split | intros _].
  apply keeps_bind; [apply keeps_new_uuid | intros id3].
  apply keeps_bind; [apply keeps_db_call; intros d; now split | intros _].
  apply keeps_bind; [apply keeps_collect_sources | intros sources].
  apply keeps_ret.
Qed.

(** X6.  Whatever they return or raise, and whichever database calls fail,
    the search handler and the chat handler leave the stored documents and
    the stored chunks exactly as they were. *)
Theorem search_and_chat_keep_corpus (query : SearchQuery) (message : ChatMessage)
    (user : User) (w : World) :
  documents (db (snd (semantic_search env query user w))) = documents (db w)
  /\ document_chunks (db (snd (semantic_search env query user w)))
     = document_chunks (db w)
  /\ documents (db (snd (rag_chat env message user w))) = documents (db w)
  /\ document_chunks (db (snd (rag_chat env message user w)))
     = document_chunks (db w).
Proof.
  destruct (keeps_semantic_search query user w) as (H1 & H2).
  destruct (keeps_rag_chat message user w) as (H3 & H4).
  auto.
Qed.

End ReadOnly.

(** ** What a returned search result is *)

Lemma StronglySorted_firstn {A} (Rel : A -> A -> Prop) n l :
  StronglySorted Rel l -> StronglySorted Rel (firstn n l).
Proof.
  revert n. induction l as [|x l IH]; intros n Hs; [now rewrite List.firstn_nil|].
  destruct n as [|n]; [constructor|]. cbn [firstn].
  apply StronglySorted_inv in Hs as (Hl & Hx).
  constructor; [now apply IH|].
  apply List.Forall_forall. intros y Hy. apply In_firstn in Hy.
  rewrite List.Forall_forall in Hx. now apply Hx.
Qed.

Lemma StronglySorted_skipn {A} (Rel : A -> A -> Prop) n l :
  StronglySorted Rel l -> StronglySorted Rel (skipn n l).
Proof.
  revert n. induction l as [|x l IH]; intros n Hs; [now rewrite List.skipn_nil|].
  destruct n as [|n]; [exact Hs|]. cbn [skipn].
  apply StronglySorted_inv in Hs as (Hl & _). now apply IH.
Qed.

Lemma py_slice_descending (l : list Scored) a b :
  descending s_score l -> descending s_score (py_slice l a b).
Proof.
  intros H. unfold py_slice. now apply StronglySorted_firstn, StronglySorted_skipn.
Qed.

Lemma py_prefix_length {A} (l : list A) (n : Z) :
  0 <= n -> len (py_prefix l n) <= n.
Proof.
  intros Hn. rewrite py_prefix_nonneg by exact Hn. unfold len.
  rewrite List.length_firstn. lia.
Qed.

Lemma results_with_filenames_length docs ranked :
  (List.length (results_with_filenames docs ranked) <= List.length ranked)%nat.
Proof.
  unfold results_with_filenames. induction ranked as [|s ranked IH]; [cbn; lia|].
  cbn [List.map List.concat]. rewrite List.length_app.
  destruct (find_document (s_document_id s) docs); cbn in *; lia.
Qed.

Lemma results_with_filenames_descending docs ranked :
  descending s_score ranked ->
  descending sr_score (results_with_filenames docs ranked)
  /\ List.Forall (fun r => exists s, In s ranked /\ sr_score r = s_score s)
       (results_with_filenames docs ranked).
Proof.
  unfold descending, results_with_filenames.
  induction ranked as [|s ranked IH]; intros Hs; [split; constructor|].
  apply StronglySorted_inv in Hs as (Hl & Hx).
  destruct (IH Hl) as (IH1 & IH2).
  assert (IH2' : List.Forall
            (fun r => exists s', In s' (s :: ranked) /\ sr_score r = s_score s')
            (List.concat (List.map (fun s0 =>
               match find_document (s_document_id s0) docs with
               | Some doc => [result_entry doc s0]
               | None => []
               end) ranked))).
  { eapply List.Forall_impl; [|exact IH2]. cbn.
    intros r (s' & Hs' & Hr). exists s'. auto. }
  cbn [List.map List.concat].
  destruct (find_document (s_document_id s) docs) as [doc|]; [|now split].
  cbn [List.app]. split.
  - constructor; [exact IH1|].
    apply List.Forall_forall. intros r Hr.
    rewrite List.Forall_forall in IH2. destruct (IH2 r Hr) as (s' & Hs' & ->).
    rewrite List.Forall_forall in Hx. cbn. now apply Hx.
  - constructor; [|exact IH2']. exists s. split; [now left | reflexivity].
Qed.

Section SearchSound.
Context {U : UnicodeData}.
Variable env : Env.

(** When the loop over the ranked entries returns, every lookup succeeded
    on the same documents. *)
Lemma attach_filenames_return ranked : forall w rs w',
  attach_filenames env ranked w = (Return rs, w') ->
  rs = results_with_filenames (documents (db w)) ranked /\ db w' = db w.
Proof.
  induction ranked as [|s ranked IH]; intros w rs w' H.
  - cbn in H. injection H as <- <-. now split.
  - cbn [attach_filenames] in H.
    apply bind_return_inv in H as (doc & w1 & H1 & H).
    apply db_call_return_inv in H1 as (-> & Hdb1). cbn [fst snd] in *.
    apply bind_return_inv in H as (tail & w2 & Htail & H).
    apply IH in Htail as (-> & Hdb2). injection H as <- <-.
    rewrite Hdb1 in *. split; [|exact Hdb2].
    unfold results_with_filenames. cbn [List.map List.concat].
    now destruct (find_document (s_document_id s) (documents (db w))).
Qed.

(** Whenever the search returns, it returns what the store determines. *)
Lemma semantic_search_return query user w rs w' :
  semantic_search env query user w = (Return rs, w') ->
  rs = results_with_filenames (documents (db w))
         (py_prefix (sort_by_score
            (search_hits (sq_query query)
               (to_list 10000 (document_chunks (db w)))))
            (sq_limit query)).
Proof.
  unfold semantic_search. intros H.
  apply bind_return_inv in H as (id & w1 & H1 & H). injection H1 as _ <-.
  apply bind_return_inv in H as (t & w2 & H2 & H). injection H2 as _ <-.
  apply bind_return_inv in H as (u & w3 & H3 & H).
  apply (db_call_return_inv env) in H3 as (_ & Hdb3). cbn in Hdb3.
  apply bind_return_inv in H as (chunks & w4 & H4 & H).
  apply (db_call_return_inv env) in H4 as (-> & Hdb4). cbn [fst snd] in *.
  apply bind_return_inv in H as (final & w5 & H5 & H).
  apply bind_return_inv in H as (u' & w6 & _ & H). injection H as <- _.
  apply attach_filenames_return in H5 as (-> & _).
  now rewrite Hdb4, Hdb3.
Qed.

(** X7.  Whenever the search returns (whichever database calls fail, any
    limit, any store), every entry is the entry of a stored chunk that
    scores above 0, with the filename of a stored document of that id, the
    chunk's text cut to 500 characters and its score; the entries come by
    descending score; for a limit that is not negative there are at most
    [limit] of them. *)
Theorem semantic_search_sound (query : SearchQuery) (user : User) (w : World)
    (rs : list SearchResult) (w' : World) :
  semantic_search env query user w = (Return rs, w') ->
  List.Forall (entry_for (sq_query query) (documents (db w))
                 (document_chunks (db w))) rs
  /\ descending sr_score rs
  /\ List.Forall (fun r => len (sr_chunk_text r) <= 500) rs
  /\ (0 <= sq_limit query -> len rs <= sq_limit query).
Proof.
  intros H. apply semantic_search_return in H. subst rs.
  set (hits := search_hits (sq_query query) (to_list 10000 (document_chunks (db w)))).
  assert (Hdesc : descending s_score (py_prefix (sort_by_score hits) (sq_limit query))).
  { apply py_slice_descending. apply (sort_by_score_spec hits). }
  assert (Hentries : List.Forall
            (entry_for (sq_query query) (documents (db w)) (document_chunks (db w)))
            (results_with_filenames (documents (db w))
               (py_prefix (sort_by_score hits) (sq_limit query)))).
  { assert (Hin : forall s, In s (py_prefix (sort_by_score hits) (sq_limit query)) ->
                    exists c, In c (document_chunks (db w))
                              /\ matches (sq_query query) c = true
                              /\ s = scored (sq_query query) c).
    { intros s Hs. apply In_py_slice in Hs.
      apply (Permutation_in _ (proj1 (sort_by_score_spec _))) in Hs.
      subst hits. rewrite search_hits_filter in Hs.
      apply List.in_map_iff in Hs as (c & <- & Hc).
      apply List.filter_In in Hc as (Hc & Hm). apply In_firstn in Hc.
      now exists c. }
    unfold results_with_filenames.
    induction (py_prefix (sort_by_score hits) (sq_limit query)) as [|s l IH];
      [constructor|].
    cbn [List.map List.concat]. apply List.Forall_app. split.
    - destruct (Hin s (or_introl eq_refl)) as (c & Hc & Hm & ->).
      cbn [scored s_document_id].
      destruct (find_document (c_document_id c) (documents (db w))) as [doc|] eqn:Hd;
        constructor; [|constructor].
      exists c, doc. cbn. rewrite py_prefix_nonneg by lia. now repeat split.
    - apply IH.
      + apply StronglySorted_inv in Hdesc. tauto.
      + intros s' Hs'. apply Hin. now right. }
  split; [exact Hentries|].
  split; [apply results_with_filenames_descending, Hdesc|].
  split.
  - eapply List.Forall_impl; [|exact Hentries]. cbn.
    intros r (c & doc & _ & _ & _ & _ & _ & Ht & _). rewrite Ht. unfold len.
    rewrite List.length_firstn. lia.
  - intros Hlimit.
    pose proof (results_with_filenames_length (documents (db w))
                  (py_prefix (sort_by_score hits) (sq_limit query))).
    pose proof (py_prefix_length (sort_by_score hits) (sq_limit query) Hlimit).
    unfold len in *. lia.
Qed.

End SearchSound.

Lemma semantic_search_sound_witness :
  List.Forall (@entry_for ascii_only (lit "cat") (documents (db world_cats))
                 (document_chunks (db world_cats)))
    [ {| sr_document_id := uuid4 env_ok 0; sr_filename := lit "one.txt";
         sr_chunk_text := lit "cat sat mat"; sr_score := (1 # 3)%Q |} ].
Proof.
  apply (@semantic_search_sound ascii_only env_ok (query_cat 1) bob world_cats _
           (snd (@semantic_search ascii_only env_ok (query_cat 1) bob world_cats))).
  vm_compute. reflexivity.
Defined.

(** ** What an upload stores *)

Lemma try_except_run {A} (body : M A) handler w a w' :
  body w = (Return a, w') -> try_except body handler w = (Return a, w').
Proof. unfold try_except. now intros ->. Qed.

Lemma update_one_app_fresh id f docs document :
  find_document id docs = None -> has_id id document = true ->
  update_one id f (docs ++ [document]) = docs ++ [f document].
Proof.
  unfold find_document. induction docs as [|d docs IH]; intros Hnone Hid.
  - cbn. now rewrite Hid.
  - cbn in Hnone |- *. destruct (has_id id d); [discriminate|].
    now rewrite IH.
Qed.

Lemma delete_one_app_fresh id docs document :
  find_document id docs = None -> has_id id document = true ->
  delete_one id (docs ++ [document]) = docs.
Proof.
  unfold find_document. induction docs as [|d docs IH]; intros Hnone Hid.
  - cbn. now rewrite Hid.
  - cbn in Hnone |- *. destruct (has_id id d); [discriminate|].
    now rewrite IH.
Qed.

Lemma delete_chunks_of_app id chunks new :
  List.Forall (fun c => c_document_id c <> id) chunks ->
  List.Forall (fun c => c_document_id c = id) new ->
  delete_chunks_of id (chunks ++ new) = chunks.
Proof.
  intros Hold Hnew. unfold delete_chunks_of. rewrite List.filter_app.
  rewrite (filter_none _ new).
  - rewrite List.app_nil_r. induction Hold as [|c chunks Hc _ IH]; [reflexivity|].
    cbn [List.filter]. unfold str_eqb at 1.
    rewrite bool_decide_eq_false_2 by exact Hc. cbn [negb]. now f_equal.
  - intros c Hc. rewrite List.Forall_forall in Hnew.
    unfold str_eqb. rewrite bool_decide_eq_true_2 by now apply Hnew.
    reflexivity.
Qed.

Section UploadRuns.
Context {U : UnicodeData} {P : Parsers}.
Variable env : Env.

Lemma log_audit_run_full user action resource details w :
  db_error env (db_calls w) = None ->
  exists w' id ts,
    log_audit env (u_id user) (u_email user) action resource details w
    = (Return tt, w')
    /\ db w' = with_audit (db w)
                 (audit_logs (db w)
                  ++ [audit_entry id user action resource details ts]).
Proof.
  intros Hok. unfold log_audit.
  erewrite bind_run by reflexivity. erewrite bind_run by reflexivity.
  rewrite db_call_run by exact Hok. eexists _, _, _. split; reflexivity.
Qed.

(** The loop that stores the chunks, with a database that does not fail:
    one chunk per text, numbered from [i], with the keywords of its text. *)
Lemma store_chunks_stored doc_id chunks :
  reliable env -> forall i w,
  exists w' new,
    store_chunks env doc_id i chunks w = (Return tt, w')
    /\ db w' = with_chunks (db w) (document_chunks (db w) ++ new)
    /\ List.map c_text new = chunks
    /\ List.map c_chunk_index new = starts_from (List.length chunks) i 1
    /\ List.map c_keywords new = List.map get_text_keywords chunks
    /\ List.Forall (fun c => c_document_id c = doc_id) new.
Proof.
  intros Hrel. induction chunks as [|c chunks IH]; intros i w.
  - exists w, []. cbn. rewrite List.app_nil_r.
    split; [reflexivity|]. split; [now destruct (db w)|]. repeat split. constructor.
  - cbn [store_chunks].
    erewrite bind_run by reflexivity. erewrite bind_run by reflexivity.
    erewrite bind_run by (apply db_call_run, Hrel). cbn [fst snd].
    match goal with |- context [store_chunks env doc_id (i + 1) chunks ?w1] =>
      destruct (IH (i + 1) w1)
        as (w' & new & Hrun & Hdb & Htext & Hidx & Hkw & Hid)
    end.
    eexists w', (_ :: new). split; [exact Hrun|].
    split; [rewrite Hdb; cbn; unfold with_chunks; cbn;
            now rewrite <- List.app_assoc|].
    cbn [List.map c_text c_chunk_index c_keywords List.length starts_from].
    rewrite Htext, Hidx, Hkw. repeat split. now constructor.
Qed.

(** A successful upload, with a database that does not fail. *)
Lemma upload_document_run file user w :
  reliable env -> supported file = true ->
  let doc_id := uuid4 env (uuid_calls w) in
  let document := new_document doc_id file user (utcnow env (clock_calls w)) in
  let chunks := chunk_text (extract_text_from_file (file_content file)
                  (file_content_type file) (file_filename file)) in
  exists w' new id ts,
    upload_document env file user w
    = (Return {| resp_id := doc_id; resp_filename := file_filename file;
                 resp_content_type := file_content_type file;
                 resp_size := len (file_content file); resp_status := indexed;
                 resp_uploaded_by := u_id user;
                 resp_uploaded_at := utcnow env (clock_calls w);
                 resp_chunk_count := len chunks |}, w')
    /\ db w'
       = {| documents := update_one doc_id
                           (set_status_and_count indexed (len chunks))
                           (documents (db w) ++ [document]);
            document_chunks := document_chunks (db w) ++ new;
            search_queries := search_queries (db w);
            audit_logs := audit_logs (db w)
                          ++ [audit_entry id user (lit "UPLOAD") (lit "document")
                                (lit "Uploaded: " ++ file_filename file) ts];
            chat_history := chat_history (db w) |}
    /\ List.map c_text new = chunks
    /\ List.map c_chunk_index new = starts_from (List.length chunks) 0 1
    /\ List.map c_keywords new = List.map get_text_keywords chunks
    /\ List.Forall (fun c => c_document_id c = doc_id) new.
Proof.
  intros Hrel Hsup doc_id document chunks.
  unfold upload_document. unfold supported in Hsup.
  rewrite <- negb_orb, Hsup. cbn [negb].
  erewrite bind_run by reflexivity. erewrite bind_run by reflexivity.
  erewrite bind_run by (apply db_call_run, Hrel).
  cbn [fst snd db set_db tick_db uuid_calls clock_calls db_calls].
  fold doc_id document.
  match goal with |- context [try_except _ _ ?w0] => set (w1 := w0) end.
  destruct (store_chunks_stored doc_id chunks Hrel 0 w1)
    as (w2 & new & Hstore & Hdb2 & Htext & Hidx & Hkw & Hid).
  assert (Hproc : exists w' id ts,
            process_document env doc_id file user document w1
            = (Return {| resp_id := doc_id; resp_filename := file_filename file;
                         resp_content_type := file_content_type file;
                         resp_size := len (file_content file);
                         resp_status := indexed; resp_uploaded_by := u_id user;
                         resp_uploaded_at := d_uploaded_at document;
                         resp_chunk_count := len chunks |}, w')
            /\ db w' = with_audit
                         (with_documents (db w2)
                            (update_one doc_id
                               (set_status_and_count indexed (len chunks))
                               (documents (db w2))))
                         (audit_logs (db w2)
                          ++ [audit_entry id user (lit "UPLOAD") (lit "document")
                                (lit "Uploaded: " ++ file_filename file) ts])).
  { unfold process_document. cbv zeta. fold chunks.
    erewrite bind_run by exact Hstore.
    erewrite bind_run by (apply db_call_run, Hrel). cbn [fst snd].
    match goal with |- context [bind (log_audit env _ _ ?a ?b ?c) _ ?w3] =>
      destruct (log_audit_run_full user a b c w3 (Hrel _)) as (w4 & id & ts & Hlog & Hdb4)
    end.
    erewrite bind_run by exact Hlog.
    exists w4, id, ts. split; [reflexivity|]. rewrite Hdb4. reflexivity. }
  destruct Hproc as (w' & id & ts & Hproc & Hdb').
  exists w', new, id, ts.
  split; [now apply try_except_run|].
  split; [|now repeat split].
  rewrite Hdb', Hdb2. subst w1. reflexivity.
Qed.

(** X8.  With a database that does not fail, the upload of a supported
    file returns status indexed and stores one chunk per text that
    [chunk_text] yields for the extracted text, in that order, numbered
    0, 1, 2, ... without gaps, each with the id of the new document and the
    keywords of its own text; the chunk count of the response is their
    number, and the chunks stored before are untouched. *)
Theorem upload_document_stores_chunks (file : UploadFile) (user : User) (w : World) :
  reliable env -> supported file = true ->
  exists resp w' new,
    upload_document env file user w = (Return resp, w')
    /\ resp_status resp = indexed
    /\ resp_id resp = uuid4 env (uuid_calls w)
    /\ resp_chunk_count resp = len new
    /\ document_chunks (db w') = document_chunks (db w) ++ new
    /\ List.map c_text new
       = chunk_text (extract_text_from_file (file_content file)
                       (file_content_type file) (file_filename file))
    /\ List.map c_chunk_index new = List.map Z.of_nat (seq 0 (List.length new))
    /\ List.Forall (fun c => c_document_id c = resp_id resp
                             /\ c_keywords c = get_text_keywords (c_text c)) new.
Proof.
  intros Hrel Hsup.
  destruct (upload_document_run file user w Hrel Hsup)
    as (w' & new & id & ts & Hrun & Hdb & Htext & Hidx & Hkw & Hid).
  eexists _, w', new. split; [exact Hrun|]. cbn.
  split; [reflexivity|]. split; [reflexivity|].
  split; [unfold len; now rewrite <- Htext, List.length_map|].
  split; [now rewrite Hdb|]. split; [exact Htext|]. split.
  - rewrite Hidx, starts_from_map, <- Htext, List.length_map.
    apply List.map_ext. intros k. lia.
  - rewrite <- Htext, List.map_map in Hkw.
    clear Htext Hidx Hdb Hrun.
    induction new as [|c new IH]; [constructor|].
    apply List.Forall_cons_iff in Hid as (Hc & Hid).
    cbn in Hkw. injection Hkw as Hk Hkw.
    constructor; [now split | now apply IH].
Qed.

(** X9.  With a database that does not fail, a supported file without
    extractable text (the parser raised, or the text is empty or only
    whitespace) is indexed with a chunk count of 0, and no chunk is
    stored: the upload does not fail. *)
Theorem upload_document_without_text (file : UploadFile) (user : User) (w : World) :
  reliable env -> supported file = true ->
  extract_text_from_file (file_content file) (file_content_type file)
    (file_filename file) = [] ->
  exists resp w',
    upload_document env file user w = (Return resp, w')
    /\ resp_status resp = indexed
    /\ resp_chunk_count resp = 0
    /\ document_chunks (db w') = document_chunks (db w).
Proof.
  intros Hrel Hsup Hempty.
  destruct (upload_document_run file user w Hrel Hsup)
    as (w' & new & id & ts & Hrun & Hdb & Htext & _).
  rewrite Hempty in Hrun, Htext. cbn in Htext.
  eexists _, w'. split; [exact Hrun|]. cbn.
  split; [reflexivity|]. split; [reflexivity|].
  rewrite Hdb. cbn. destruct new; [now rewrite List.app_nil_r | discriminate].
Qed.

End UploadRuns.

Lemma upload_document_stores_chunks_witness :
  exists resp w' new,
    @upload_document ascii_only failing_parsers env_ok big_file alice empty_world
    = (Return resp, w')
    /\ resp_chunk_count resp = len new
    /\ List.map c_chunk_index new = List.map Z.of_nat (seq 0 (List.length new)).
Proof.
  destruct (@upload_document_stores_chunks ascii_only failing_parsers env_ok
              big_file alice empty_world env_ok_reliable)
    as (resp & w' & new & Hrun & _ & _ & Hcount & _ & _ & Hidx & _).
  - vm_compute. reflexivity.
  - exists resp, w', new. split; [exact Hrun|]. split; [exact Hcount | exact Hidx].
Defined.

Lemma upload_document_without_text_witness :
  exists resp w',
    @upload_document ascii_only failing_parsers env_ok broken_pdf alice empty_world
    = (Return resp, w')
    /\ resp_status resp = indexed /\ resp_chunk_count resp = 0.
Proof.
  destruct (@upload_document_without_text ascii_only failing_parsers env_ok
              broken_pdf alice empty_world env_ok_reliable)
    as (resp & w' & Hrun & Hst & Hcount & _).
  - vm_compute. reflexivity.
  - vm_compute. reflexivity.
  - exists resp, w'. split; [exact Hrun|]. split; [exact Hst | exact Hcount].
Defined.

(** ** Upload composed with the rest *)

Lemma delete_document_run env doc_id user w doc :
  reliable env ->
  find_document doc_id (documents (db w)) = Some doc ->
  may_delete user doc = true ->
  exists w',
    delete_document env doc_id user w
    = (Return (lit "Document deleted successfully"), w')
    /\ documents (db w') = delete_one doc_id (documents (db w))
    /\ document_chunks (db w') = delete_chunks_of doc_id (document_chunks (db w)).
Proof.
  intros Hrel Hdoc Hguard. unfold delete_document.
  erewrite bind_run by (apply db_call_run, Hrel).
  cbn [fst snd]. rewrite Hdoc. unfold may_delete in Hguard.
  replace (negb (str_eqb (u_role user) (lit "admin"))
           && negb (str_eqb (d_uploaded_by doc) (u_id user))) with false
    by (symmetry; rewrite <- negb_orb, Hguard; reflexivity).
  erewrite bind_run by (apply db_call_run, Hrel).
  erewrite bind_run by (apply db_call_run, Hrel).
  match goal with |- context [bind (log_audit env ?a ?b ?c ?d ?e) _ ?w1] =>
    destruct (log_audit_run env a b c d e w1 (Hrel _)) as (w2 & Hlog & Hd2 & Hc2 & _)
  end.
  erewrite bind_run by exact Hlog.
  exists w2. cbn in Hd2, Hc2. now split.
Qed.

Section UploadComposed.
Context {U : UnicodeData} {P : Parsers}.
Variable env : Env.

Lemma store_chunks_appends doc_id chunks : forall i w r w',
  store_chunks env doc_id i chunks w = (r, w') ->
  exists new, document_chunks (db w') = document_chunks (db w) ++ new
              /\ List.Forall (fun c => c_document_id c = doc_id) new.
Proof.
  induction chunks as [|c chunks IH]; intros i w r w' H.
  - cbn in H. injection H as _ <-. exists []. split; [now rewrite List.app_nil_r|].
    constructor.
  - cbn [store_chunks] in H. unfold bind at 1 2 3 in H.
    cbn [new_uuid now_iso] in H. unfold db_call in H. cbn [db_calls] in H.
    destruct (db_error env (db_calls w)).
    + injection H as _ <-. exists []. split; [now rewrite List.app_nil_r|].
      constructor.
    + apply IH in H as (new & Hnew & Hid). cbn in Hnew.
      rewrite <- List.app_assoc in Hnew.
      eexists (_ :: new). split; [exact Hnew|]. now constructor.
Qed.

Lemma log_audit_chunks a b c d e w r w' :
  log_audit env a b c d e w = (r, w') ->
  document_chunks (db w') = document_chunks (db w).
Proof.
  unfold log_audit, bind, new_uuid, now_iso, db_call. cbn [db_calls].
  destruct (db_error env (db_calls w)); intros H; now injection H as _ <-.
Qed.

Lemma process_document_appends doc_id file user document w r w' :
  process_document env doc_id file user document w = (r, w') ->
  exists new, document_chunks (db w') = document_chunks (db w) ++ new
              /\ List.Forall (fun c => c_document_id c = doc_id) new.
Proof.
  intros H. unfold process_document in H. cbv zeta in H. unfold bind at 1 in H.
  destruct (store_chunks env doc_id 0 _ w) as [[[]|e] w1] eqn:Hstore;
    apply store_chunks_appends in Hstore as (new & Hnew & Hid); exists new.
  2: { injection H as _ <-. now split. }
  split; [|exact Hid].
  unfold bind at 1 in H. unfold db_call at 1 in H.
  destruct (db_error env (db_calls w1)) as [msg|].
  { now injection H as _ <-. }
  unfold bind at 1 in H.
  match type of H with context [log_audit env ?a ?b ?c ?d ?e ?w2] =>
    destruct (log_audit env a b c d e w2) as [[[]|e'] w3] eqn:Hlog;
    apply log_audit_chunks in Hlog; cbn in Hlog
  end; injection H as _ <-; congruence.
Qed.

Lemma processing_failed_chunks doc_id e w r w' :
  processing_failed env doc_id e w = (r, w') ->
  document_chunks (db w') = document_chunks (db w).
Proof.
  unfold processing_failed, bind, db_call.
  destruct (db_error env (db_calls w)); intros H; now injection H as _ <-.
Qed.

(** X10.  Whatever an upload returns or raises, and whichever database
    calls fail, it removes and changes nothing that was stored: the chunks
    after it are the chunks before it followed by chunks of the new
    document, and the documents after it are the documents before it,
    followed by at most the one new document (when the new id is not
    already in use). *)
Theorem upload_document_only_appends (file : UploadFile) (user : User)
    (w : World) (r : Result DocumentResponse) (w' : World) :
  let doc_id := uuid4 env (uuid_calls w) in
  find_document doc_id (documents (db w)) = None ->
  upload_document env file user w = (r, w') ->
  (exists new, document_chunks (db w') = document_chunks (db w) ++ new
               /\ List.Forall (fun c => c_document_id c = doc_id) new)
  /\ (documents (db w') = documents (db w)
      \/ exists d, documents (db w') = documents (db w) ++ [d]
                   /\ d_id d = doc_id /\ d_filename d = file_filename file
                   /\ d_uploaded_by d = u_id user).
Proof.
  intros doc_id Hfresh H.
  assert (Hnone : exists new : list Chunk,
            document_chunks (db w) = document_chunks (db w) ++ new
            /\ List.Forall (fun c => c_document_id c = doc_id) new)
    by (exists []; split; [now rewrite List.app_nil_r | constructor]).
  unfold upload_document in H.
  destruct (negb (str_in (file_content_type file) allowed_types)
            && negb (str_in (file_ext (file_filename file)) allowed_extensions)).
  { injection H as _ <-. split; [exact Hnone | now left]. }
  erewrite bind_run in H by reflexivity. erewrite bind_run in H by reflexivity.
  unfold bind at 1 in H. unfold db_call at 1 in H.
  cbn [clock_calls uuid_calls db_calls db] in H. fold doc_id in H.
  destruct (db_error env (db_calls w)) as [msg|].
  { injection H as _ <-. split; [exact Hnone | now left]. }
  set (document := new_document doc_id file user (utcnow env (clock_calls w))) in *.
  assert (Hid : forall f, (forall d, d_id (f d) = d_id d) ->
                          has_id doc_id (f document) = true).
  { intros f Hf. unfold has_id, str_eqb. rewrite Hf. cbn.
    now apply bool_decide_eq_true. }
  unfold try_except in H.
  match type of H with context [process_document env doc_id file user document ?w0] =>
    set (w1 := w0) in * end.
  assert (Hd1 : documents (db w1) = documents (db w) ++ [document]) by reflexivity.
  assert (Hc1 : document_chunks (db w1) = document_chunks (db w)) by reflexivity.
  clearbody w1.
  destruct (process_document env doc_id file user document w1)
    as [[resp|e] w2] eqn:Hp.
  - injection H as _ <-.
    pose proof (process_document_appends _ _ _ _ _ _ _ Hp) as (new & Hnew & Hn).
    pose proof (process_document_outcome _ _ _ _ _ _ _ _ Hp) as Hout.
    cbv zeta in Hout.
    destruct Hout as [(resp' & _ & _ & _ & Hdocs)|(e & He & _)]; [|discriminate].
    split; [exists new; now rewrite Hnew, Hc1|]. right.
    rewrite Hd1, (update_one_app_fresh _ _ _ _ Hfresh (Hid (fun d => d) (fun d => eq_refl)))
      in Hdocs.
    eexists. split; [exact Hdocs|]. now cbn.
  - pose proof (process_document_appends _ _ _ _ _ _ _ Hp) as (new & Hnew & Hn).
    pose proof (process_document_outcome _ _ _ _ _ _ _ _ Hp) as Hout.
    cbv zeta in Hout.
    destruct Hout as [(resp' & Hr & _)|(e0 & _ & Hdocs2)]; [discriminate|].
    rewrite Hd1, (update_one_app_fresh _ _ _ _ Hfresh (Hid (fun d => d) (fun d => eq_refl)))
      in Hdocs2.
    pose proof (processing_failed_chunks _ _ _ _ _ H) as Hchunks.
    split; [exists new; now rewrite Hchunks, Hnew, Hc1|]. right.
    apply processing_failed_outcome in H.
    destruct H as [(msg & _ & Hdocs)|(_ & Hdocs)]; rewrite Hdocs;
      destruct Hdocs2 as [->| ->];
      try (rewrite update_one_app_fresh;
           [|exact Hfresh | first [exact (Hid (fun d => d) (fun d => eq_refl))
                                  | apply (Hid (set_status_and_count indexed _));
                                    reflexivity]]);
      eexists; (split; [reflexivity | now cbn]).
Qed.

(** X11.  With a database that does not fail: when the uploader deletes
    the document they just uploaded, the stored documents and the stored
    chunks are again exactly what they were before the upload (the new id
    being used by no stored document or chunk). *)
Theorem upload_then_delete_restores (file : UploadFile) (user : User) (w : World) :
  reliable env -> supported file = true ->
  find_document (uuid4 env (uuid_calls w)) (documents (db w)) = None ->
  List.Forall (fun c => c_document_id c <> uuid4 env (uuid_calls w))
    (document_chunks (db w)) ->
  exists resp w1 w2,
    upload_document env file user w = (Return resp, w1)
    /\ delete_document env (resp_id resp) user w1
       = (Return (lit "Document deleted successfully"), w2)
    /\ documents (db w2) = documents (db w)
    /\ document_chunks (db w2) = document_chunks (db w).
Proof.
  intros Hrel Hsup Hfresh Hchunks.
  destruct (upload_document_run env file user w Hrel Hsup)
    as (w1 & new & id & ts & Hrun & Hdb & _ & _ & _ & Hid).
  set (doc_id := uuid4 env (uuid_calls w)) in *.
  set (document := new_document doc_id file user (utcnow env (clock_calls w))) in *.
  assert (Hhas : has_id doc_id document = true)
    by (unfold has_id, str_eqb; cbn; now apply bool_decide_eq_true).
  rewrite (update_one_app_fresh _ _ _ _ Hfresh Hhas) in Hdb.
  set (stored := set_status_and_count indexed _ document) in Hdb.
  assert (Hstored : has_id doc_id stored = true) by exact Hhas.
  destruct (delete_document_run env doc_id user w1 stored Hrel)
    as (w2 & Hdel & Hdocs & Hch).
  - rewrite Hdb. cbn [documents]. now apply find_document_app_fresh.
  - unfold may_delete, str_eqb. cbn.
    rewrite (bool_decide_eq_true_2 (u_id user = u_id user)) by reflexivity.
    apply orb_true_r.
  - eexists _, w1, w2. split; [exact Hrun|]. cbn [resp_id].
    split; [exact Hdel|]. rewrite Hdocs, Hch, Hdb. cbn [documents document_chunks].
    split; [now apply delete_one_app_fresh | now apply delete_chunks_of_app].
Qed.

End UploadComposed.

Lemma chunks_of_others_checked (id : str) (chunks : list Chunk) :
  forallb (fun c => negb (str_eqb (c_document_id c) id)) chunks = true ->
  List.Forall (fun c => c_document_id c <> id) chunks.
Proof.
  intros H. apply List.Forall_forall. intros c Hc.
  rewrite List.forallb_forall in H. specialize (H c Hc).
  apply negb_true_iff in H. unfold str_eqb in H.
  now apply bool_decide_eq_false in H.
Qed.

Lemma upload_document_only_appends_witness :
  exists new,
    document_chunks (db (snd (@upload_document ascii_only failing_parsers
                                (env_failing (Nat.eqb 10)) big_file alice
                                world_cats)))
    = document_chunks (db world_cats) ++ new.
Proof.
  destruct (@upload_document_only_appends ascii_only failing_parsers
              (env_failing (Nat.eqb 10)) big_file alice world_cats
              (fst (@upload_document ascii_only failing_parsers
                      (env_failing (Nat.eqb 10)) big_file alice world_cats))
              (snd (@upload_document ascii_only failing_parsers
                      (env_failing (Nat.eqb 10)) big_file alice world_cats)))
    as ((new & Hnew & _) & _).
  - vm_compute. reflexivity.
  - apply surjective_pairing.
  - exists new. exact Hnew.
Defined.

Lemma upload_then_delete_restores_witness :
  exists resp w1 w2,
    @upload_document ascii_only failing_parsers env_ok big_file alice world_cats
    = (Return resp, w1)
    /\ delete_document env_ok (resp_id resp) alice w1
       = (Return (lit "Document deleted successfully"), w2)
    /\ document_chunks (db w2) = document_chunks (db world_cats).
Proof.
  destruct (@upload_then_delete_restores ascii_only failing_parsers env_ok
              big_file alice world_cats env_ok_reliable)
    as (resp & w1 & w2 & Hup & Hdel & _ & Hch).
  - vm_compute. reflexivity.
  - vm_compute. reflexivity.
  - apply chunks_of_others_checked. vm_compute. reflexivity.
  - exists resp, w1, w2. split; [exact Hup|]. split; [exact Hdel | exact Hch].
Defined.

(** ** What a chat writes *)

Section ChatEffects.
Context {U : UnicodeData} {R : Runtime}.
Variable env : Env.

(** The effects of the chat handler on the database. *)
Lemma rag_chat_effects (message : ChatMessage) (user : User) (w : World) :
  reliable env ->
  let session := chat_session env message w in
  let top := top_chunks_of (cm_message message)
               (to_list 10000 (document_chunks (db w))) in
  let text := chat_text (chat_history_of session (db w)) (cm_message message) in
  let reply := llm_send_message (system_message_of (context_of top))
                 (lit "rag-" ++ session) text in
  (forall err, reply = inr err ->
     exists w', rag_chat env message user w
                = (Raise (HTTPException 500
                            (lit "Error generating response: " ++ err)), w')
       /\ db w' = db w)
  /\ (forall answer, reply = inl answer ->
        exists w' sources id1 id2 id3 ts,
          rag_chat env message user w
          = (Return {| cr_response := answer; cr_session_id := session;
                       cr_sources := sources |}, w')
          /\ chat_history (db w')
             = chat_history (db w)
               ++ [user_entry id1 session user (cm_message message) ts;
                   assistant_entry id2 session user answer ts]
          /\ search_queries (db w')
             = search_queries (db w)
               ++ [{| q_id := id3; q_user_id := u_id user;
                      q_query := cm_message message;
                      q_type := Some (lit "chat"); q_timestamp := ts |}]
          /\ audit_logs (db w') = audit_logs (db w)).
Proof.
  intros Hrel session top text reply.
  assert (Hstart : exists w0, db w0 = db w /\
            rag_chat env message user w
            = match reply with
              | inr err =>
                  raise (HTTPException 500 (lit "Error generating response: " ++ err))
              | inl assistant_message =>
                  let* timestamp := now_iso env in
                  let* id1 := new_uuid env in
                  let* _ := db_call env (fun d =>
                    (tt, with_history d (chat_history d ++
                      [user_entry id1 session user (cm_message message) timestamp]))) in
                  let* id2 := new_uuid env in
                  let* _ := db_call env (fun d =>
                    (tt, with_history d (chat_history d ++
                      [assistant_entry id2 session user assistant_message timestamp]))) in
                  let* id3 := new_uuid env in
                  let* _ := db_call env (fun d =>
                    (tt, with_queries d (search_queries d ++
                      [{| q_id := id3; q_user_id := u_id user;
                          q_query := cm_message message;
                          q_type := Some (lit "chat");
                          q_timestamp := timestamp |}]))) in
                  let* sources := collect_sources env (py_prefix top 3) in
                  ret {| cr_response := assistant_message;
                         cr_session_id := session; cr_sources := sources |}
              end w0).
  { unfold rag_chat.
    destruct (chat_session_run env message w) as (w0 & Hsession & Hdb0).
    erewrite bind_run by exact Hsession. fold session.
    erewrite bind_run by (apply db_call_run, Hrel).
    erewrite bind_run by (apply db_call_run, Hrel).
    cbn [fst snd db set_db tick_db]. rewrite Hdb0.
    fold top. fold (chat_history_of session (db w)).
    fold (chat_text (chat_history_of session (db w)) (cm_message message)).
    fold text. fold reply.
    eexists. split; [|reflexivity]. reflexivity. }
  destruct Hstart as (w0 & Hdb0 & Hstart). rewrite Hstart. clear Hstart.
  split.
  - intros err ->. exists w0. now split.
  - intros answer ->.
    erewrite bind_run by reflexivity. erewrite bind_run by reflexivity.
    erewrite bind_run by (apply db_call_run, Hrel).
    erewrite bind_run by reflexivity.
    erewrite bind_run by (apply db_call_run, Hrel).
    erewrite bind_run by reflexivity.
    erewrite bind_run by (apply db_call_run, Hrel).
    match goal with |- context [bind (collect_sources env ?c) _ ?w1] =>
      destruct (collect_sources_run env c Hrel w1) as (w2 & Hrun & Hdb2) end.
    erewrite bind_run by exact Hrun.
    eexists w2, _, _, _, _, _. split; [reflexivity|].
    rewrite Hdb2. cbn. rewrite Hdb0, <- List.app_assoc. now repeat split.
Qed.

(** X12.  With a database that does not fail: when the model call raises,
    the chat handler raises the 500 and the database is exactly as before
    (nothing of the exchange is saved); when the model answers, the handler
    appends to the chat history the user's message and then the answer,
    both under the session and the caller's id and with one timestamp,
    appends one search query of type "chat", and writes no audit entry. *)
Theorem rag_chat_records_exchange (message : ChatMessage) (user : User) (w : World) :
  reliable env ->
  let session := chat_session env message w in
  let top := top_chunks_of (cm_message message)
               (to_list 10000 (document_chunks (db w))) in
  let text := chat_text (chat_history_of session (db w)) (cm_message message) in
  let reply := llm_send_message (system_message_of (context_of top))
                 (lit "rag-" ++ session) text in
  (forall err, reply = inr err ->
     exists w', rag_chat env message user w
                = (Raise (HTTPException 500
                            (lit "Error generating response: " ++ err)), w')
       /\ db w' = db w)
  /\ (forall answer, reply = inl answer ->
        exists w' sources id1 id2 id3 ts,
          rag_chat env message user w
          = (Return {| cr_response := answer; cr_session_id := session;
                       cr_sources := sources |}, w')
          /\ chat_history (db w')
             = chat_history (db w)
               ++ [user_entry id1 session user (cm_message message) ts;
                   assistant_entry id2 session user answer ts]
          /\ search_queries (db w')
             = search_queries (db w)
               ++ [{| q_id := id3; q_user_id := u_id user;
                      q_query := cm_message message;
                      q_type := Some (lit "chat"); q_timestamp := ts |}]
          /\ audit_logs (db w') = audit_logs (db w)).
Proof. exact (rag_chat_effects message user w). Qed.

End ChatEffects.

Lemma rag_chat_records_exchange_witness :
  (exists w', @rag_chat ascii_only offline_runtime env_ok chat_cat bob world_cats
              = (Raise (HTTPException 500
                   (lit "Error generating response: model unavailable")), w')
     /\ db w' = db world_cats)
  /\ (exists w' answer sources,
        @rag_chat ascii_only echo_runtime env_ok chat_cat bob world_cats
        = (Return {| cr_response := answer;
                     cr_session_id := chat_session env_ok chat_cat world_cats;
                     cr_sources := sources |}, w')
        /\ List.length (chat_history (db w'))
           = (List.length (chat_history (db world_cats)) + 2)%nat).
Proof.
  split.
  - destruct (@rag_chat_records_exchange ascii_only offline_runtime env_ok
                chat_cat bob world_cats env_ok_reliable) as (Hfail & _).
    exact (Hfail _ eq_refl).
  - destruct (@rag_chat_records_exchange ascii_only echo_runtime env_ok
                chat_cat bob world_cats env_ok_reliable) as (_ & Hok).
    destruct (Hok _ eq_refl) as (w' & sources & id1 & id2 & id3 & ts & Hrun & Hh & _).
    eexists w', _, sources. split; [exact Hrun|].
    rewrite Hh, List.length_app. reflexivity.
Defined.

(** ** Listing documents and chat history *)

Lemma str_ltb_asym a : forall b, str_ltb a b = true -> str_ltb b a = false.
Proof.
  induction a as [|x a IH]; intros [|y b] H; try reflexivity; try discriminate.
  cbn in H |- *.
  destruct (N.ltb_spec x y), (N.ltb_spec y x), (N.eqb_spec x y), (N.eqb_spec y x);
    cbn in *; try lia; try discriminate; auto.
Qed.

Lemma str_le_trans a : forall b c,
  str_ltb b a = false -> str_ltb c b = false -> str_ltb c a = false.
Proof.
  induction a as [|x a IH]; intros b c H1 H2; [now destruct c|].
  destruct b as [|y b]; [discriminate|]. destruct c as [|z c]; [discriminate|].
  cbn in H1, H2 |- *.
  destruct (N.ltb_spec y x), (N.ltb_spec z y), (N.ltb_spec z x),
    (N.eqb_spec y x), (N.eqb_spec z y), (N.eqb_spec z x);
    cbn in *; try lia; try discriminate; try reflexivity.
  now apply (IH b c).
Qed.

Section SortedBy.
Context {A : Type} (before : A -> A -> bool).
Hypothesis before_asym : forall y x, before y x = true -> before x y = false.
Hypothesis before_trans : forall a b c,
  before b a = false -> before c b = false -> before c a = false.

Lemma insert_sorted_permutation x l : Permutation (insert_sorted before x l) (x :: l).
Proof.
  induction l as [|y r IH]; cbn [insert_sorted]; [reflexivity|].
  destruct (before y x); [|reflexivity].
  rewrite IH. apply perm_swap.
Qed.

Lemma stable_sort_permutation l : Permutation (stable_sort before l) l.
Proof.
  induction l as [|x l IH]; cbn; [reflexivity|].
  fold (stable_sort before l). rewrite insert_sorted_permutation. now constructor.
Qed.

Lemma insert_sorted_ordered x l :
  StronglySorted (fun a b => before b a = false) l ->
  StronglySorted (fun a b => before b a = false) (insert_sorted before x l).
Proof using before_asym before_trans.
  induction l as [|y r IH]; intros Hs; cbn [insert_sorted].
  - repeat constructor.
  - apply StronglySorted_inv in Hs as (Hr & Hy).
    destruct (before y x) eqn:E.
    + constructor; [now apply IH|].
      eapply Permutation_Forall; [symmetry; apply insert_sorted_permutation|].
      constructor; [now apply before_asym | exact Hy].
    + constructor; [now constructor|].
      constructor; [exact E|].
      eapply List.Forall_impl; [|exact Hy]. cbn. intros z Hz.
      now apply (before_trans x y z).
Qed.

Lemma stable_sort_ordered l :
  StronglySorted (fun a b => before b a = false) (stable_sort before l).
Proof using before_asym before_trans.
  induction l as [|x l IH]; cbn; [constructor|].
  now apply insert_sorted_ordered.
Qed.

End SortedBy.

Lemma sort_by_timestamp_spec (l : list ChatEntry) :
  Permutation (sort_by_timestamp l) l
  /\ StronglySorted (fun a b => str_le (h_timestamp a) (h_timestamp b))
       (sort_by_timestamp l).
Proof.
  split; [apply stable_sort_permutation|].
  apply (stable_sort_ordered (fun y x => str_ltb (h_timestamp y) (h_timestamp x))).
  - intros y x. apply str_ltb_asym.
  - intros a b c H1 H2. exact (str_le_trans _ _ _ H1 H2).
Qed.

Lemma sort_by_uploaded_desc_spec (l : list Document) :
  Permutation (sort_by_uploaded_desc l) l
  /\ StronglySorted (fun a b => str_le (d_uploaded_at b) (d_uploaded_at a))
       (sort_by_uploaded_desc l).
Proof.
  split; [apply stable_sort_permutation|].
  apply (stable_sort_ordered (fun y x => str_ltb (d_uploaded_at x) (d_uploaded_at y))).
  - intros y x. apply str_ltb_asym.
  - intros a b c H1 H2. exact (str_le_trans _ _ _ H2 H1).
Qed.

Lemma to_list_all {A} (n : Z) (l : list A) : len l <= n -> to_list n l = l.
Proof. intros H. unfold to_list. apply List.firstn_all2. unfold len in H. lia. Qed.

Lemma to_list_length {A} (n : Z) (l : list A) : 0 <= n -> len (to_list n l) <= n.
Proof. intros H. unfold to_list, len. rewrite List.length_firstn. lia. Qed.

(** X13.  Whenever [get_chat_history] returns, every entry it returns is a
    stored entry of the requested session and of the caller (never another
    user's, never another session's); the entries come by ascending
    timestamp, at most 100 of them, and all of the caller's entries of the
    session when there are at most 100; the database is unchanged. *)
Theorem get_chat_history_own_entries (env : Env) (session_id : str) (user : User)
    (w : World) (hs : list ChatEntry) (w' : World) :
  get_chat_history env session_id user w = (Return hs, w') ->
  List.Forall (fun h => In h (chat_history (db w))
                        /\ h_session_id h = session_id
                        /\ h_user_id h = u_id user) hs
  /\ StronglySorted (fun a b => str_le (h_timestamp a) (h_timestamp b)) hs
  /\ len hs <= 100
  /\ (len (List.filter (own_entry session_id user) (chat_history (db w))) <= 100 ->
      Permutation hs (List.filter (own_entry session_id user) (chat_history (db w))))
  /\ db w' = db w.
Proof.
  unfold get_chat_history. intros H.
  apply db_call_return_inv in H as (-> & Hdb). cbn [fst snd] in *.
  set (own := List.filter (own_entry session_id user) (chat_history (db w))).
  destruct (sort_by_timestamp_spec own) as (Hperm & Hsorted).
  split; [|split; [|split; [|split]]].
  - apply List.Forall_forall. intros h Hh. apply In_firstn in Hh.
    apply (Permutation_in _ Hperm) in Hh. subst own.
    apply List.filter_In in Hh as (Hin & Hown).
    unfold own_entry, str_eqb in Hown. apply andb_true_iff in Hown as (H1 & H2).
    apply bool_decide_eq_true in H1, H2. auto.
  - now apply StronglySorted_firstn.
  - now apply to_list_length.
  - intros Hfew. rewrite to_list_all; [exact Hperm|].
    unfold len in *. now rewrite (Permutation_length Hperm).
  - exact Hdb.
Qed.

(** X14.  Whenever [get_documents] returns, every entry is the response of
    a stored document (id, filename, type, size, status, uploader, upload
    time and chunk count as stored); the entries come newest first by
    upload time, at most 1000 of them, and one for every stored document
    when there are at most 1000; the database is unchanged. *)
Theorem get_documents_lists_stored (env : Env) (user : User) (w : World)
    (rs : list DocumentResponse) (w' : World) :
  get_documents env user w = (Return rs, w') ->
  List.Forall (fun r => exists doc, In doc (documents (db w)) /\ r = response_of doc) rs
  /\ StronglySorted (fun a b => str_le (resp_uploaded_at b) (resp_uploaded_at a)) rs
  /\ len rs <= 1000
  /\ (len (documents (db w)) <= 1000 ->
      Permutation rs (List.map response_of (documents (db w))))
  /\ db w' = db w.
Proof.
  unfold get_documents. intros H.
  apply bind_return_inv in H as (docs & w1 & H1 & H).
  apply db_call_return_inv in H1 as (-> & Hdb). cbn [fst snd] in *.
  injection H as <- <-.
  destruct (sort_by_uploaded_desc_spec (documents (db w))) as (Hperm & Hsorted).
  split; [|split; [|split; [|split]]].
  - apply List.Forall_forall. intros r Hr.
    apply List.in_map_iff in Hr as (doc & <- & Hdoc). apply In_firstn in Hdoc.
    apply (Permutation_in _ Hperm) in Hdoc. now exists doc.
  - assert (Hs : StronglySorted
                   (fun a b => str_le (d_uploaded_at b) (d_uploaded_at a))
                   (to_list 1000 (sort_by_uploaded_desc (documents (db w)))))
      by now apply StronglySorted_firstn.
    induction Hs as [|d l Hl IH Hd]; cbn [List.map]; constructor; [exact IH|].
    apply List.Forall_forall. intros r Hr.
    apply List.in_map_iff in Hr as (doc & <- & Hdoc).
    rewrite List.Forall_forall in Hd. now apply Hd.
  - unfold len. rewrite List.length_map. now apply to_list_length.
  - intros Hfew. rewrite to_list_all.
    + now apply Permutation_map.
    + unfold len in *. now rewrite (Permutation_length Hperm).
  - exact Hdb.
Qed.

Section ChatThenHistory.
Context {U : UnicodeData} {R : Runtime}.
Variable env : Env.

(** X15.  With a database that does not fail: after a chat that the model
    answered, [get_chat_history] for the session of the response and the
    same caller returns the caller's message and the model's answer (when
    the caller's entries of the session, these two included, are at most
    100). *)
Theorem chat_then_history (message : ChatMessage) (user : User) (w : World)
    (answer : str) :
  reliable env ->
  let session := chat_session env message w in
  llm_send_message
    (system_message_of (context_of (top_chunks_of (cm_message message)
       (to_list 10000 (document_chunks (db w))))))
    (lit "rag-" ++ session)
    (chat_text (chat_history_of session (db w)) (cm_message message))
  = inl answer ->
  len (List.filter (own_entry session user) (chat_history (db w))) + 2 <= 100 ->
  exists resp w1 hs w2,
    rag_chat env message user w = (Return resp, w1)
    /\ cr_response resp = answer
    /\ get_chat_history env (cr_session_id resp) user w1 = (Return hs, w2)
    /\ (exists e, In e hs /\ h_role e = lit "user"
                  /\ h_content e = cm_message message)
    /\ (exists e, In e hs /\ h_role e = lit "assistant"
                  /\ h_content e = answer).
Proof.
  intros Hrel session Hreply Hfew.
  destruct (rag_chat_effects env message user w Hrel) as (_ & Hok).
  destruct (Hok answer Hreply)
    as (w1 & sources & id1 & id2 & id3 & ts & Hrun & Hhist & _).
  unfold get_chat_history.
  eexists _, w1, _, _. split; [exact Hrun|]. split; [reflexivity|].
  split; [apply db_call_run, Hrel|]. cbn [fst snd cr_session_id].
  fold session. rewrite Hhist, List.filter_app.
  assert (Hown : forall id role content,
            own_entry session user
              {| h_id := id; h_session_id := session; h_user_id := u_id user;
                 h_role := role; h_content := content; h_timestamp := ts |} = true).
  { intros. unfold own_entry, str_eqb. cbn.
    now rewrite !bool_decide_eq_true_2. }
  cbn [List.filter]. unfold user_entry, assistant_entry. rewrite !Hown.
  set (own := List.filter (own_entry session user) (chat_history (db w))) in *.
  rewrite to_list_all
    by (unfold len in *;
        rewrite (Permutation_length (proj1 (sort_by_timestamp_spec _))),
          List.length_app; cbn [List.length]; lia).
  destruct (sort_by_timestamp_spec
              (own ++ [ {| h_id := id1; h_session_id := session;
                           h_user_id := u_id user; h_role := lit "user";
                           h_content := cm_message message; h_timestamp := ts |};
                        {| h_id := id2; h_session_id := session;
                           h_user_id := u_id user; h_role := lit "assistant";
                           h_content := answer; h_timestamp := ts |} ]))
    as (Hperm & _).
  split; eexists; (split; [apply (Permutation_in _ (Permutation_sym Hperm));
                           apply List.in_or_app; right|]).
  - left. reflexivity.
  - now split.
  - right. left. reflexivity.
  - now split.
Qed.

End ChatThenHistory.

Lemma get_chat_history_own_entries_witness :
  List.Forall (fun h => In h (chat_history (db world_shared_session))
                        /\ h_session_id h = lit "s1"
                        /\ h_user_id h = u_id bob)
    [ user_entry (lit "h1") (lit "s1") bob (lit "hello") (lit "t2");
      assistant_entry (lit "h3") (lit "s1") bob (lit "hi") (lit "t2") ].
Proof.
  apply (get_chat_history_own_entries env_ok (lit "s1") bob world_shared_session _
           (snd (get_chat_history env_ok (lit "s1") bob world_shared_session))).
  vm_compute. reflexivity.
Defined.

Lemma get_documents_lists_stored_witness :
  exists rs, fst (get_documents env_ok bob world_cats) = Return rs
             /\ len rs <= 1000.
Proof.
  exists (List.map response_of
            (to_list 1000 (sort_by_uploaded_desc (documents (db world_cats))))).
  split; [reflexivity|].
  apply (get_documents_lists_stored env_ok bob world_cats _
           (snd (get_documents env_ok bob world_cats))).
  reflexivity.
Defined.

Lemma chat_then_history_witness :
  exists resp w1 hs w2,
    @rag_chat ascii_only echo_runtime env_ok chat_cat bob world_cats
    = (Return resp, w1)
    /\ get_chat_history env_ok (cr_session_id resp) bob w1 = (Return hs, w2)
    /\ (exists e, In e hs /\ h_role e = lit "user" /\ h_content e = lit "cat").
Proof.
  destruct (@chat_then_history ascii_only echo_runtime env_ok chat_cat bob
              world_cats _ env_ok_reliable eq_refl)
    as (resp & w1 & hs & w2 & Hrun & _ & Hhist & Huser & _).
  - vm_compute. discriminate.
  - exists resp, w1, hs, w2. split; [exact Hrun|]. split; [exact Hhist | exact Huser].
Defined.

(** ** The chunks cover the text *)

(** Some visited offset has the position [p] in its window. *)
Lemma window_starts_cover text chunk_size overlap p :
  0 <= overlap -> overlap < chunk_size -> 0 <= p < len text ->
  exists s, In s (window_starts text chunk_size overlap)
            /\ 0 <= s <= p /\ p < s + chunk_size.
Proof.
  intros Hov Hlt Hp.
  destruct (window_count_bounds text chunk_size overlap Hlt) as (_ & _ & Hout).
  set (step := chunk_size - overlap) in *.
  assert (Hstep : 0 < step) by (subst step; lia).
  assert (0 <= p / step) by (apply Z.div_pos; lia).
  pose proof (Z.mul_div_le p step Hstep).
  pose proof (Z.mul_succ_div_gt p step Hstep).
  exists (p / step * step). split.
  - unfold window_starts. fold step. apply List.in_map_iff.
    exists (Z.to_nat (p / step)).
    split; [now rewrite Z2Nat.id|].
    apply List.in_seq. split; [lia|]. cbn.
    assert (p / step < Z.of_nat (window_count text chunk_size overlap)); [|lia].
    apply Z.nle_gt. intros Hle. nia.
  - subst step. nia.
Qed.

(** The window at an offset [s] that has the character after [pre] in
    reach is the text around that character. *)
Lemma window_around (pre post : str) (c : N) chunk_size s :
  0 <= s <= len pre -> len pre < s + chunk_size ->
  exists pre1 l0 r0 post0,
    pre = pre1 ++ l0 /\ post = r0 ++ post0
    /\ window (pre ++ c :: post) chunk_size s = l0 ++ c :: r0.
Proof.
  intros Hs Hreach. unfold window, py_slice, slice_index, len in *.
  rewrite List.length_app. cbn [List.length].
  replace (s <? 0) with false by (symmetry; apply Z.ltb_ge; lia).
  replace (s + chunk_size <? 0) with false by (symmetry; apply Z.ltb_ge; lia).
  rewrite (Z.min_l s) by lia.
  set (n := Z.to_nat (Z.min _ _ - s)).
  assert (Hn : (List.length pre - Z.to_nat s < n)%nat) by (subst n; lia).
  assert (Hm : exists m, (n - (List.length pre - Z.to_nat s))%nat = S m)
    by (exists (n - (List.length pre - Z.to_nat s) - 1)%nat; lia).
  destruct Hm as (m & Hm).
  exists (firstn (Z.to_nat s) pre), (skipn (Z.to_nat s) pre),
         (firstn m post), (skipn m post).
  split; [now rewrite List.firstn_skipn|].
  split; [now rewrite List.firstn_skipn|].
  rewrite List.skipn_app.
  replace (Z.to_nat s - List.length pre)%nat with 0%nat by lia.
  cbn [skipn]. rewrite List.firstn_app, List.length_skipn.
  rewrite List.firstn_all2 by (rewrite List.length_skipn; lia).
  now rewrite Hm.
Qed.

(** Whitespace removed on the left does not reach a character that is not
    whitespace. *)
Lemma spaces_before ws (m l0 r0 : str) c :
  forallb is_space ws = true -> is_space c = false ->
  ws ++ m = l0 ++ c :: r0 ->
  exists l, l0 = ws ++ l /\ m = l ++ c :: r0.
Proof.
  revert l0. induction ws as [|w ws IH]; intros l0 Hws Hc H.
  - now exists l0.
  - cbn in Hws. apply andb_true_iff in Hws as (Hw & Hws).
    destruct l0 as [|x l0]; cbn in H; injection H as -> H.
    + congruence.
    + destruct (IH l0 Hws Hc H) as (l & -> & ->). now exists l.
Qed.

Lemma spaces_after ws (m l r0 : str) c :
  forallb is_space ws = true -> is_space c = false ->
  m ++ ws = l ++ c :: r0 ->
  exists r, m = l ++ c :: r /\ r0 = r ++ ws.
Proof.
  intros Hws Hc. revert m. induction l as [|x l IH]; intros m H.
  - destruct m as [|y m]; cbn in H.
    + rewrite H in Hws. cbn in Hws. now rewrite Hc in Hws.
    + injection H as -> H. now exists m.
  - destruct m as [|y m]; cbn in H.
    + rewrite H in Hws. rewrite List.forallb_forall in Hws.
      assert (Hin : In c (x :: l ++ c :: r0))
        by (right; apply List.in_or_app; right; now left).
      apply Hws in Hin. congruence.
    + injection H as -> H. destruct (IH m H) as (r & -> & ->). now exists r.
Qed.

(** [strip] keeps every character that is not whitespace, where it is. *)
Lemma strip_keeps (l0 r0 : str) c :
  is_space c = false ->
  exists ws1 l r ws2,
    strip (l0 ++ c :: r0) = l ++ c :: r /\ l0 = ws1 ++ l /\ r0 = r ++ ws2.
Proof.
  intros Hc.
  destruct (lstrip_split (l0 ++ c :: r0)) as (ws1 & H1 & Hws1).
  destruct (rstrip_split (lstrip (l0 ++ c :: r0))) as (ws2 & H2 & Hws2).
  fold (strip (l0 ++ c :: r0)) in H2.
  destruct (spaces_before ws1 _ l0 r0 c Hws1 Hc (eq_sym H1)) as (l & Hl & Hm).
  rewrite Hm in H2.
  destruct (spaces_after ws2 _ l r0 c Hws2 Hc (eq_sym H2)) as (r & Hr & Hr0).
  now exists ws1, l, r, ws2.
Qed.

(** X16.  For [0 <= overlap < chunk_size], [chunk_text] returns and loses
    no text: every character of the text that is not whitespace is in some
    returned chunk, which is the piece of the text around that very
    occurrence. *)
Theorem chunk_text_covers_text (text : str) (chunk_size overlap : Z) :
  0 <= overlap -> overlap < chunk_size ->
  exists chunks,
    chunk_text_with text chunk_size overlap = Some chunks
    /\ forall pre c post,
         text = pre ++ c :: post -> is_space c = false ->
         exists chunk l r pre' post',
           In chunk chunks /\ chunk = l ++ c :: r
           /\ pre = pre' ++ l /\ post = r ++ post'.
Proof.
  intros Hov Hlt. eexists. split.
  { unfold chunk_text_with. apply chunk_text_fuel_windows; [exact Hlt | lia]. }
  intros pre c post -> Hc.
  destruct (window_starts_cover (pre ++ c :: post) chunk_size overlap (len pre)
              Hov Hlt) as (s & Hin & Hs & Hreach).
  { unfold len. rewrite List.length_app. cbn [List.length]. lia. }
  destruct (window_around pre post c chunk_size s Hs Hreach)
    as (pre1 & l0 & r0 & post0 & Hpre & Hpost & Hwin).
  destruct (strip_keeps l0 r0 c Hc) as (ws1 & l & r & ws2 & Hstrip & Hl0 & Hr0).
  exists (l ++ c :: r), l, r, (pre1 ++ ws1), (ws2 ++ post0).
  split; [|split; [reflexivity|split]].
  - unfold chunks_of_windows. apply List.in_concat.
    exists (window_chunk (pre ++ c :: post) chunk_size s).
    split; [apply List.in_map, Hin|].
    unfold window_chunk. rewrite Hwin, Hstrip.
    destruct l; now left.
  - rewrite Hpre, Hl0. now rewrite List.app_assoc.
  - rewrite Hpost, Hr0. now rewrite List.app_assoc.
Qed.

Lemma chunk_text_covers_text_witness :
  exists chunk l r pre' post',
    In chunk [lit "hello"; lit "lo  b"; lit "big"; lit "g wor"; lit "orld"; lit "d"]
    /\ chunk = l ++ 119%N :: r
    /\ lit "hello  big " = pre' ++ l /\ lit "orld" = r ++ post'.
Proof.
  destruct (chunk_text_covers_text (lit "hello  big world") 5 2)
    as (chunks & Hrun & Hcover); [lia | lia |].
  assert (Hchunks : chunk_text_with (lit "hello  big world") 5 2
                    = Some [lit "hello"; lit "lo  b"; lit "big"; lit "g wor";
                            lit "orld"; lit "d"])
    by (vm_compute; reflexivity).
  rewrite Hchunks in Hrun. injection Hrun as <-.
  apply (Hcover (lit "hello  big ") 119%N (lit "orld")); reflexivity.
Defined.

(** ** The admin routes *)

Lemma bindA_run {A B} (m : MA A) (k : A -> MA B) aw a aw1 :
  m aw = (Return a, aw1) -> bindA m k aw = k a aw1.
Proof. unfold bindA. now intros ->. Qed.

Lemma users_call_run env {A} (f : list UserRecord -> A * list UserRecord) aw :
  db_error env (db_calls (aw_world aw)) = None ->
  users_call env f aw
  = (Return (fst (f (aw_users aw))),
     {| aw_world := tick_db (aw_world aw); aw_users := snd (f (aw_users aw)) |}).
Proof. unfold users_call. intros ->. now destruct (f (aw_users aw)). Qed.

Lemma require_admin_run caller aw :
  u_role caller = lit "admin" -> require_admin caller aw = (Return caller, aw).
Proof.
  intros H. unfold require_admin, str_eqb.
  now rewrite bool_decide_eq_true_2.
Qed.

Lemma require_admin_refuses caller aw :
  u_role caller <> lit "admin" ->
  require_admin caller aw
  = (Raise (HTTPException 403 (lit "Admin access required")), aw).
Proof.
  intros H. unfold require_admin, str_eqb.
  now rewrite bool_decide_eq_false_2.
Qed.

(** What [update_one] on the role does, by the first user of the id. *)
Lemma update_role_one_spec id role users :
  match find_user id users with
  | None => update_role_one id role users = (0, users)
  | Some u =>
      if str_eqb (ur_role u) role
      then update_role_one id role users = (0, users)
      else fst (update_role_one id role users) = 1
           /\ find_user id (snd (update_role_one id role users))
              = Some (set_role role u)
  end
  /\ (forall other, other <> id ->
        find_user other (snd (update_role_one id role users))
        = find_user other users)
  /\ List.map ur_id (snd (update_role_one id role users)) = List.map ur_id users.
Proof.
  unfold find_user. induction users as [|u users (IH1 & IH2 & IH3)].
  - cbn. auto.
  - cbn [update_role_one List.find]. destruct (user_has_id id u) eqn:E.
    + destruct (str_eqb (ur_role u) role) eqn:Er; cbn [fst snd].
      * auto.
      * split; [|split].
        -- split; [reflexivity|]. cbn [List.find].
           unfold user_has_id in *. cbn. now rewrite E.
        -- intros other Hother. cbn [List.find]. unfold user_has_id, str_eqb in *.
           cbn. apply bool_decide_eq_true in E.
           rewrite bool_decide_eq_false_2 by congruence. reflexivity.
        -- reflexivity.
    + destruct (update_role_one id role users) as [n rest] eqn:Hu. cbn [fst snd] in *.
      split; [|split].
      * destruct (List.find (user_has_id id) users) as [v|].
        -- destruct (str_eqb (ur_role v) role).
           ++ injection IH1 as -> ->. reflexivity.
           ++ destruct IH1 as (-> & Hf). split; [reflexivity|].
              cbn [List.find]. now rewrite E.
        -- injection IH1 as -> ->. reflexivity.
      * intros other Hother. cbn [List.find]. now rewrite IH2.
      * cbn. now rewrite IH3.
Qed.

Lemma delete_one_user_other id users other :
  other <> id -> find_user other (delete_one_user id users) = find_user other users.
Proof.
  intros Hne. unfold find_user. induction users as [|u users IH]; [reflexivity|].
  cbn [delete_one_user List.find]. destruct (user_has_id id u) eqn:E.
  - destruct (user_has_id other u) eqn:E'; [|reflexivity].
    unfold user_has_id, str_eqb in *.
    apply bool_decide_eq_true in E, E'. congruence.
  - cbn [List.find]. now rewrite IH.
Qed.

Section AdminRoutes.
Variable env : Env.

(** X17.  [update_user_role], with a database that does not fail: a caller
    who is not an admin gets 403; an admin gets 400 for a role other than
    user, admin and viewer; in both cases nothing is read or written.  For a
    valid role an admin gets 404 "User not found" when no user has the id
    and also when the user already has that role, and the users are then
    unchanged; otherwise the call returns, that user has the new role, and
    every other user is as before. *)
Theorem update_user_role_outcomes (user_id role : str) (caller : User)
    (aw : AdminWorld) :
  reliable env ->
  (u_role caller <> lit "admin" ->
   update_user_role env user_id role caller aw
   = (Raise (HTTPException 403 (lit "Admin access required")), aw))
  /\ (u_role caller = lit "admin" -> str_in role valid_roles = false ->
      update_user_role env user_id role caller aw
      = (Raise (HTTPException 400 (lit "Invalid role")), aw))
  /\ (u_role caller = lit "admin" -> str_in role valid_roles = true ->
      (find_user user_id (aw_users aw) = None
       \/ exists u, find_user user_id (aw_users aw) = Some u /\ ur_role u = role) ->
      exists aw',
        update_user_role env user_id role caller aw
        = (Raise (HTTPException 404 (lit "User not found")), aw')
        /\ aw_users aw' = aw_users aw /\ db (aw_world aw') = db (aw_world aw))
  /\ (u_role caller = lit "admin" -> str_in role valid_roles = true ->
      forall u, find_user user_id (aw_users aw) = Some u -> ur_role u <> role ->
      exists aw',
        update_user_role env user_id role caller aw
        = (Return (lit "Role updated successfully"), aw')
        /\ find_user user_id (aw_users aw') = Some (set_role role u)
        /\ (forall other, other <> user_id ->
              find_user other (aw_users aw') = find_user other (aw_users aw))
        /\ List.map ur_id (aw_users aw') = List.map ur_id (aw_users aw)).
Proof.
  intros Hrel. unfold update_user_role.
  destruct (update_role_one_spec user_id role (aw_users aw)) as (Hfirst & Hother & Hids).
  split; [|split; [|split]].
  - intros Hna. unfold bindA. now rewrite require_admin_refuses.
  - intros Ha Hrole. erewrite bindA_run by now apply require_admin_run.
    now rewrite Hrole.
  - intros Ha Hrole Hcase. erewrite bindA_run by now apply require_admin_run.
    rewrite Hrole. cbn [negb].
    erewrite bindA_run by (apply users_call_run, Hrel).
    assert (Hsame : update_role_one user_id role (aw_users aw) = (0, aw_users aw)).
    { destruct Hcase as [Hnone|(u & Hu & Hr)].
      - now rewrite Hnone in Hfirst.
      - rewrite Hu in Hfirst. unfold str_eqb in Hfirst.
        now rewrite bool_decide_eq_true_2 in Hfirst. }
    rewrite Hsame. cbn [fst snd Z.eqb]. eexists. split; [reflexivity|]. now split.
  - intros Ha Hrole u Hu Hr. erewrite bindA_run by now apply require_admin_run.
    rewrite Hrole. cbn [negb].
    erewrite bindA_run by (apply users_call_run, Hrel).
    rewrite Hu in Hfirst. unfold str_eqb in Hfirst.
    rewrite bool_decide_eq_false_2 in Hfirst by exact Hr.
    destruct Hfirst as (Hcount & Hfound). rewrite Hcount. cbn [Z.eqb].
    match goal with |- context [lift (log_audit env _ _ ?a ?b ?c)] =>
      destruct (log_audit_run_full env caller a b c (tick_db (aw_world aw)) (Hrel _))
        as (w' & id & ts & Hlog & _)
    end.
    unfold bindA, lift. cbn [aw_world aw_users]. rewrite Hlog.
    eexists. split; [reflexivity|]. cbn [aw_users]. auto.
Qed.

(** X18.  [delete_user], with a database that does not fail: a caller who
    is not an admin gets 403; an admin gets 400 for their own id and 404
    for an id no user has, and nothing changes in these cases; otherwise
    the call returns, the first user of that id is removed, every user of
    another id is as before, and the documents and chunks that user
    uploaded stay stored. *)
Theorem delete_user_outcomes (user_id : str) (caller : User) (aw : AdminWorld) :
  reliable env ->
  (u_role caller <> lit "admin" ->
   delete_user env user_id caller aw
   = (Raise (HTTPException 403 (lit "Admin access required")), aw))
  /\ (u_role caller = lit "admin" -> user_id = u_id caller ->
      delete_user env user_id caller aw
      = (Raise (HTTPException 400 (lit "Cannot delete yourself")), aw))
  /\ (u_role caller = lit "admin" -> user_id <> u_id caller ->
      find_user user_id (aw_users aw) = None ->
      exists aw',
        delete_user env user_id caller aw
        = (Raise (HTTPException 404 (lit "User not found")), aw')
        /\ aw_users aw' = aw_users aw /\ db (aw_world aw') = db (aw_world aw))
  /\ (u_role caller = lit "admin" -> user_id <> u_id caller ->
      forall u, find_user user_id (aw_users aw) = Some u ->
      exists aw',
        delete_user env user_id caller aw
        = (Return (lit "User deleted successfully"), aw')
        /\ aw_users aw' = delete_one_user user_id (aw_users aw)
        /\ (forall other, other <> user_id ->
              find_user other (aw_users aw') = find_user other (aw_users aw))
        /\ documents (db (aw_world aw')) = documents (db (aw_world aw))
        /\ document_chunks (db (aw_world aw'))
           = document_chunks (db (aw_world aw))).
Proof.
  intros Hrel. unfold delete_user. split; [|split; [|split]].
  - intros Hna. unfold bindA. now rewrite require_admin_refuses.
  - intros Ha ->. erewrite bindA_run by now apply require_admin_run.
    unfold str_eqb. now rewrite bool_decide_eq_true_2.
  - intros Ha Hne Hnone. erewrite bindA_run by now apply require_admin_run.
    unfold str_eqb. rewrite bool_decide_eq_false_2 by exact Hne.
    erewrite bindA_run by (apply users_call_run, Hrel).
    cbn [fst snd]. rewrite Hnone. eexists. split; [reflexivity|]. now split.
  - intros Ha Hne u Hu. erewrite bindA_run by now apply require_admin_run.
    unfold str_eqb. rewrite bool_decide_eq_false_2 by exact Hne.
    erewrite bindA_run by (apply users_call_run, Hrel).
    cbn [fst snd]. rewrite Hu.
    erewrite bindA_run by (apply users_call_run, Hrel).
    cbn [fst snd aw_world aw_users].
    match goal with |- context [lift (log_audit env _ _ ?a ?b ?c)] =>
      destruct (log_audit_run_full env caller a b c
                  (tick_db (tick_db (aw_world aw))) (Hrel _))
        as (w' & id & ts & Hlog & Hdb)
    end.
    unfold bindA, lift. cbn [aw_world aw_users]. rewrite Hlog.
    eexists. split; [reflexivity|]. cbn [aw_users aw_world].
    split; [reflexivity|].
    split; [intros other Ho; now apply delete_one_user_other|].
    rewrite Hdb. now split.
Qed.

End AdminRoutes.

Lemma update_user_role_outcomes_witness :
  (exists aw', update_user_role env_ok (lit "bob") (lit "viewer") carol admin_world
               = (Raise (HTTPException 404 (lit "User not found")), aw')
     /\ aw_users aw' = aw_users admin_world)
  /\ (exists aw', update_user_role env_ok (lit "bob") (lit "admin") carol admin_world
                  = (Return (lit "Role updated successfully"), aw')
        /\ find_user (lit "bob") (aw_users aw')
           = Some (set_role (lit "admin") (account "bob" "viewer")))
  /\ update_user_role env_ok (lit "bob") (lit "admin") bob admin_world
     = (Raise (HTTPException 403 (lit "Admin access required")), admin_world).
Proof.
  destruct (update_user_role_outcomes env_ok (lit "bob") (lit "viewer") carol
              admin_world env_ok_reliable) as (_ & _ & Hsame & _).
  destruct (update_user_role_outcomes env_ok (lit "bob") (lit "admin") carol
              admin_world env_ok_reliable) as (_ & _ & _ & Hset).
  destruct (update_user_role_outcomes env_ok (lit "bob") (lit "admin") bob
              admin_world env_ok_reliable) as (Hrefused & _).
  split; [|split].
  - destruct (Hsame eq_refl eq_refl) as (aw' & Hrun & Hus & _).
    + right. exists (account "bob" "viewer"). split; reflexivity.
    + exists aw'. split; [exact Hrun | exact Hus].
  - destruct (Hset eq_refl eq_refl (account "bob" "viewer") eq_refl)
      as (aw' & Hrun & Hfound & _); [discriminate|].
    exists aw'. split; [exact Hrun | exact Hfound].
  - apply Hrefused. discriminate.
Defined.

Lemma delete_user_outcomes_witness :
  delete_user env_ok (lit "carol") carol admin_world
  = (Raise (HTTPException 400 (lit "Cannot delete yourself")), admin_world)
  /\ (exists aw', delete_user env_ok (lit "alice") carol admin_world
                  = (Return (lit "User deleted successfully"), aw')
        /\ aw_users aw' = [account "bob" "viewer"; account "carol" "admin"]
        /\ documents (db (aw_world aw')) = documents (db world_cats)).
Proof.
  destruct (delete_user_outcomes env_ok (lit "carol") carol admin_world
              env_ok_reliable) as (_ & Hself & _).
  destruct (delete_user_outcomes env_ok (lit "alice") carol admin_world
              env_ok_reliable) as (_ & _ & _ & Hdel).
  split; [exact (Hself eq_refl eq_refl)|].
  destruct (Hdel eq_refl) with (u := account "alice" "user")
    as (aw' & Hrun & Hus & _ & Hdocs & _); [discriminate | reflexivity|].
  exists aw'. split; [exact Hrun|]. split; [exact Hus | exact Hdocs].
Defined.
